(** * m113-reglementsbibliotek: search engine, context extractor,
      cache controller and offline coordinator

    A shallow embedding of the parts of [src/js/app.js], [src/sw.js] and
    [src/js/offline-manager.js] that the specification talks about, and
    the properties of the specification stated against that embedding. *)

From Stdlib Require Import NArith ZArith List Bool Lia Permutation Sorted Ascii
  String.
From stdpp Require Import gmap strings list.

Local Open Scope nat_scope.

(** ** JavaScript strings

    A JavaScript string is a sequence of 16-bit code units; [===],
    [startsWith], [includes], [substring] and [length] all work on code
    units. The letters of the Danish alphabet used by the source are single
    code units (ae 230, oslash 248, aring 229, AE 198, Oslash 216,
    Aring 197). *)
Module JS.

Definition codeunit := N.
Definition jsstring := list codeunit.

(** An ASCII literal as a JavaScript string. *)
Definition lit (s : string) : jsstring :=
  map N_of_ascii (list_ascii_of_string s).

(** [s.startsWith(p)] *)
Fixpoint startsWith (s p : jsstring) : bool :=
  match p, s with
  | [], _ => true
  | _ :: _, [] => false
  | c :: p', d :: s' => (c =? d)%N && startsWith s' p'
  end.

(** [s.includes(p)] *)
Fixpoint includes (s p : jsstring) : bool :=
  startsWith s p ||
  match s with
  | [] => false
  | _ :: s' => includes s' p
  end.

(** [s.substring(a, b)]: both arguments are clamped to the length and
    swapped when [a > b]. *)
Definition substring (s : jsstring) (a b : nat) : jsstring :=
  let a' := Nat.min a (length s) in
  let b' := Nat.min b (length s) in
  let lo := Nat.min a' b' in
  let hi := Nat.max a' b' in
  firstn (hi - lo) (skipn lo s).

(** [s.substring(a)] *)
Definition substringFrom (s : jsstring) (a : nat) : jsstring :=
  substring s a (length s).

(** [s.match(/[cls]+/g) || []]: the maximal runs of code units of the
    class, left to right. [cur] is the run being read, reversed. *)
Definition flush (cur : jsstring) : list jsstring :=
  match cur with
  | [] => []
  | _ :: _ => [rev cur]
  end.

Fixpoint matchRuns (cls : codeunit -> bool) (s cur : jsstring)
  : list jsstring :=
  match s with
  | [] => flush cur
  | c :: s' =>
      if cls c then matchRuns cls s' (c :: cur)
      else flush cur ++ matchRuns cls s' []
  end.

Definition matchAll (cls : codeunit -> bool) (s : jsstring) : list jsstring :=
  matchRuns cls s [].

Definition inRange (lo hi c : N) : bool :=
  ((lo <=? c) && (c <=? hi))%N.

(** [[a-zA-ZæøåÆØÅ]] *)
Definition danishWordPattern (c : codeunit) : bool :=
  inRange 97 122 c || inRange 65 90 c ||
  (c =? 230)%N || (c =? 248)%N || (c =? 229)%N ||
  (c =? 198)%N || (c =? 216)%N || (c =? 197)%N.

(** [\w], without the unicode and ignore-case flags: [[A-Za-z0-9_]] *)
Definition wordChar (c : codeunit) : bool :=
  inRange 65 90 c || inRange 97 122 c || inRange 48 57 c || (c =? 95)%N.

(** [String.prototype.toLowerCase] on the code units below 256 (Basic
    Latin and Latin-1): A-Z and the Latin-1 capitals other than the
    multiplication sign move up by 32. The search code is parameterised
    by the host's lower-casing; this instance is the one used to run it
    on Danish text. *)
Definition latin1LowerUnit (c : codeunit) : codeunit :=
  if inRange 65 90 c then (c + 32)%N
  else if inRange 192 222 c && negb (c =? 215)%N then (c + 32)%N
  else c.

Definition latin1ToLowerCase (s : jsstring) : jsstring :=
  map latin1LowerUnit s.

(** What the specification means by "starts with" and "contains as a
    substring". *)
Definition startsWithSpec (s p : jsstring) : Prop := ∃ t, s = p ++ t.
Definition includesSpec (s p : jsstring) : Prop := ∃ a b, s = a ++ p ++ b.

End JS.

Import JS.

(** ** The search engine of [ManualViewer] ([src/js/app.js]) *)
Module Search.

(** The double that the literal [0.6] denotes is [pointSix / 2^53]. *)
Definition pointSix : Z := 5404319552844595.

(** The if-chain of [ManualViewer.search] that sets [scoreBonus] for a
    (query word, index word) pair; [None] is the [continue] of the last
    branch.

    The test [queryWord.length >= indexWord.length * 0.6] is made in
    doubles by the source. With [q] and [n] the two lengths and [d] the
    double [0.6] (which is below 0.6): the exact product [n * d] is at
    most [q] exactly when [6 * n <= 10 * q] ([exact_product_test]
    below). The source compares [q] with that product rounded to a
    double. Rounding is monotone and leaves integers as they are, so
    [q >= n * d] gives [q >= round (n * d)]; and when [q < n * d], then
    [6 * n - 10 * q] is positive and even, so [q] is at least 0.2 below
    0.6 times [n], and [n * d] and its rounding differ from that by much
    less. So the comparison of the source is [6 * n <= 10 * q]. *)
Definition scoreBonus (queryWord indexWord : jsstring) : option nat :=
  if bool_decide (indexWord = queryWord) then Some 10
  else if startsWith indexWord queryWord && (3 <=? length queryWord)
  then Some 6
  else if startsWith queryWord indexWord && (3 <=? length indexWord)
  then Some 4
  else if (5 <=? length queryWord) && (5 <=? length indexWord) &&
          includes indexWord queryWord &&
          (6 * length indexWord <=? 10 * length queryWord)
  then Some 2
  else None.

(** [if (scoreBonus >= 10) exactMatches++] *)
Definition countsAsExact (bonus : nat) : bool := 10 <=? bonus.

(** The matching policy in the words of the specification: the rules in
    order, each one applying only when no earlier one does. *)
Definition rule1 (q i : jsstring) : Prop := i = q.
Definition rule2 (q i : jsstring) : Prop :=
  startsWithSpec i q ∧ 3 ≤ length q.
Definition rule3 (q i : jsstring) : Prop :=
  startsWithSpec q i ∧ 3 ≤ length i.
Definition rule4 (q i : jsstring) : Prop :=
  5 ≤ length q ∧ 5 ≤ length i ∧ includesSpec i q ∧
  6 * length i ≤ 10 * length q.

Inductive MatchingPolicy (q i : jsstring) : option nat → Prop :=
  | policy_exact :
      rule1 q i → MatchingPolicy q i (Some 10)
  | policy_index_starts_with_query :
      ¬ rule1 q i → rule2 q i → MatchingPolicy q i (Some 6)
  | policy_query_starts_with_index :
      ¬ rule1 q i → ¬ rule2 q i → rule3 q i → MatchingPolicy q i (Some 4)
  | policy_contains :
      ¬ rule1 q i → ¬ rule2 q i → ¬ rule3 q i → rule4 q i →
      MatchingPolicy q i (Some 2)
  | policy_skip :
      ¬ rule1 q i → ¬ rule2 q i → ¬ rule3 q i → ¬ rule4 q i →
      MatchingPolicy q i None.

(** *** Data of the search index artifact *)

(** An occurrence of a word: [{pageId, context, ...}]. [context] may be
    missing; the fields the search does not read are left out. *)
Record Occurrence := {
  pageId : N;
  context : option jsstring
}.

(** [searchIndex.words]: the own properties of the object in the order
    [Object.keys] lists them, each with its array of occurrences. *)
Definition WordIndex := list (jsstring * list Occurrence).

(** An entry of [this.pages]. *)
Record Page := {
  chapter : jsstring;
  page : jsstring
}.

(** [Object.keys(this.searchIndex.words)] *)
Definition wordKeys (w : WordIndex) : list jsstring := map fst w.

(** [this.searchIndex.words[indexWord] || []] *)
Fixpoint wordOccurrences (w : WordIndex) (indexWord : jsstring)
  : list Occurrence :=
  match w with
  | [] => []
  | (k, occs) :: w' =>
      if bool_decide (k = indexWord) then occs
      else wordOccurrences w' indexWord
  end.

(** *** The accumulator [pageMatches] *)

(** An entry of [pageMatches]: the spread of the occurrence that created
    it, and the three counters. *)
Record PageMatch := {
  pm_pageId : N;
  pm_context : option jsstring;
  pm_score : nat;
  pm_matchedWords : list jsstring;
  pm_exactMatches : nat
}.

(** [pageMatches] is a plain object keyed by page id: its properties,
    and the order in which they were created. *)
Record PageMatches := {
  props : gmap N PageMatch;
  created : list N
}.

Definition emptyMatches : PageMatches :=
  {| props := ∅; created := [] |}.

(** [{...match, score: 0, matchedWords: [], exactMatches: 0}] *)
Definition freshMatch (m : Occurrence) : PageMatch :=
  {| pm_pageId := pageId m; pm_context := context m;
     pm_score := 0; pm_matchedWords := []; pm_exactMatches := 0 |}.

(** The three updates of the body of [for (const match of matches)]. *)
Definition bump (scoreBonus : nat) (indexWord : jsstring) (e : PageMatch)
  : PageMatch :=
  {| pm_pageId := pm_pageId e; pm_context := pm_context e;
     pm_score := pm_score e + scoreBonus;
     pm_matchedWords := pm_matchedWords e ++ [indexWord];
     pm_exactMatches :=
       if countsAsExact scoreBonus then S (pm_exactMatches e)
       else pm_exactMatches e |}.

(** The body of [for (const match of matches)]. *)
Definition addMatch (scoreBonus : nat) (indexWord : jsstring)
  (pm : PageMatches) (m : Occurrence) : PageMatches :=
  let pm1 :=
    match props pm !! pageId m with
    | Some _ => pm
    | None => {| props := <[pageId m := freshMatch m]> (props pm);
                 created := created pm ++ [pageId m] |}
    end in
  {| props := alter (bump scoreBonus indexWord) (pageId m) (props pm1);
     created := created pm1 |}.

(** The body of [for (const indexWord of indexWords)]. *)
Definition matchIndexWord (w : WordIndex) (queryWord : jsstring)
  (pm : PageMatches) (indexWord : jsstring) : PageMatches :=
  match scoreBonus queryWord indexWord with
  | None => pm
  | Some bonus =>
      fold_left (addMatch bonus indexWord) (wordOccurrences w indexWord) pm
  end.

(** The body of [for (const queryWord of queryWords)]. *)
Definition matchQueryWord (w : WordIndex) (pm : PageMatches)
  (queryWord : jsstring) : PageMatches :=
  if length queryWord <? 3 then pm
  else fold_left (matchIndexWord w queryWord) (wordKeys w) pm.

Definition collectMatches (w : WordIndex) (queryWords : list jsstring)
  : PageMatches :=
  fold_left (matchQueryWord w) queryWords emptyMatches.

(** [Object.keys(pageMatches)]: the keys that are array indices (below
    2^32 - 1) in ascending order, then the others in order of creation. *)
Definition isArrayIndex (k : N) : bool := (k <? 4294967295)%N.

Fixpoint insertAsc (k : N) (l : list N) : list N :=
  match l with
  | [] => [k]
  | x :: l' => if (k <=? x)%N then k :: l else x :: insertAsc k l'
  end.

Definition sortAsc (l : list N) : list N := fold_right insertAsc [] l.

Definition matchKeys (pm : PageMatches) : list N :=
  sortAsc (List.filter isArrayIndex (created pm)) ++
  List.filter (λ k, negb (isArrayIndex k)) (created pm).

(** *** Results *)

Record SearchResult := {
  r_pageId : N;
  r_context : jsstring;
  r_displayTitle : jsstring;
  r_score : nat;
  r_matchedWords : list jsstring;
  r_exactMatches : nat;
  r_finalScore : nat
}.

(** [Array.prototype.sort((a, b) => b.finalScore - a.finalScore)]: the
    sort of the language is stable, and with this comparator its result
    is the stable arrangement by decreasing [finalScore], computed here
    by insertion from the right. *)
Fixpoint insertByScore (r : SearchResult) (l : list SearchResult)
  : list SearchResult :=
  match l with
  | [] => [r]
  | x :: l' =>
      if r_finalScore x <=? r_finalScore r then r :: l
      else x :: insertByScore r l'
  end.

Definition sortByFinalScore (l : list SearchResult) : list SearchResult :=
  fold_right insertByScore [] l.

(** [x || ''] for an optional string *)
Definition orEmpty (x : option jsstring) : jsstring :=
  match x with
  | Some s => s
  | None => []
  end.

(** ['Ingen kontekst tilgængelig'] *)
Definition noContext : jsstring :=
  lit "Ingen kontekst tilg" ++ [230%N] ++ lit "ngelig".

Definition ellipsis : jsstring := lit "...".

(** The values [i] takes in
    [for (let i = 0; i <= text.length - 100; i += 10)]. *)
Definition windowStarts (len : nat) : list nat :=
  if len <? 100 then []
  else map (λ k, 10 * k) (seq 0 ((len - 100) / 10 + 1)).

(** The inner loop of the first pass: [score++] for each query word the
    window includes. *)
Definition windowScore (window : jsstring) (queryWords : list jsstring)
  : nat :=
  fold_left (λ score word, if includes window word then S score else score)
            queryWords 0.

Definition windowAt (textLower : jsstring) (i : nat) : jsstring :=
  substring textLower i (i + 100).

(** The first pass; the state is [(bestIndex, bestScore)]. *)
Definition bestWindow (textLower : jsstring) (starts : list nat)
  (queryWords : list jsstring) : nat * nat :=
  fold_left
    (λ best i,
       let score := windowScore (windowAt textLower i) queryWords in
       if snd best <? score then (i, score) else best)
    starts (0, 0).

(** The [j] loop of the second pass, for one window and one word. *)
Definition partialHit (window word : jsstring) : bool :=
  existsb
    (λ j, includes (substringFrom window j)
                   (substring word 0 (Nat.min 3 (length word))))
    (seq 0 (length window - 2)).

(** The second pass: the first window in which some word has a hit. *)
Definition firstPartialWindow (textLower : jsstring) (starts : list nat)
  (queryWords : list jsstring) : option nat :=
  find (λ i, existsb (partialHit (windowAt textLower i)) queryWords) starts.

(** *** Aggregation in the words of the specification

    The contributing (query token, index token, occurrence) triples, each
    with the weight of its pair, in the order the loops of [search] meet
    them; the weight sum and the exact-match count of a page are taken
    over the triples whose occurrence is on that page. *)
Record Triple := {
  t_query : jsstring;
  t_index : jsstring;
  t_occurrence : Occurrence;
  t_weight : nat
}.

Definition pairTriples (w : WordIndex) (queryWord indexWord : jsstring)
  : list Triple :=
  match scoreBonus queryWord indexWord with
  | None => []
  | Some weight =>
      map (λ occ, {| t_query := queryWord; t_index := indexWord;
                     t_occurrence := occ; t_weight := weight |})
          (wordOccurrences w indexWord)
  end.

Definition queryTriples (w : WordIndex) (queryWord : jsstring)
  : list Triple :=
  if length queryWord <? 3 then []
  else flat_map (pairTriples w queryWord) (wordKeys w).

Definition contributions (w : WordIndex) (queryWords : list jsstring)
  : list Triple :=
  flat_map (queryTriples w) queryWords.

Definition onPage (p : N) (ts : list Triple) : list Triple :=
  List.filter (λ t, (pageId (t_occurrence t) =? p)%N) ts.

Definition weightSum (p : N) (ts : list Triple) : nat :=
  list_sum (map t_weight (onPage p ts)).

Definition exactCount (p : N) (ts : list Triple) : nat :=
  length (List.filter (λ t, bool_decide (t_index t = t_query t))
                      (onPage p ts)).

(** A page is touched when some contributing triple is on it. *)
Definition touched (p : N) (ts : list Triple) : Prop := onPage p ts ≠ [].

Definition applyTriple (pm : PageMatches) (t : Triple) : PageMatches :=
  addMatch (t_weight t) (t_index t) pm (t_occurrence t).

(** A triple carries the weight of its pair. *)
Definition weighted (t : Triple) : Prop :=
  scoreBonus (t_query t) (t_index t) = Some (t_weight t).

(** What [pageMatches] holds after the triples [done]. *)
Definition accumulated (done : list Triple) (pm : PageMatches) : Prop :=
  ∀ p, match props pm !! p with
       | Some e => pm_score e = weightSum p done ∧
                   pm_exactMatches e = exactCount p done ∧
                   touched p done
       | None => onPage p done = []
       end.

(** Non-increasing final scores, and the results of one score in the
    order of a list (for stability). *)
Definition byScoreDesc (a b : SearchResult) : Prop :=
  r_finalScore b ≤ r_finalScore a.

Definition withScore (s : nat) (l : list SearchResult) : list SearchResult :=
  List.filter (λ r, r_finalScore r =? s) l.

Section WithHost.
(** [String.prototype.toLowerCase] of the host. *)
Variable toLowerCase : jsstring → jsstring.

(** The query words of [getSearchContext]:
    [query.toLowerCase().match(/\w+/g) || []] *)
Definition contextQueryWords (query : jsstring) : list jsstring :=
  matchAll wordChar (toLowerCase query).

(** The [bestIndex] with which [getSearchContext] leaves its loops. *)
Definition bestIndexOf (text query : jsstring) : nat :=
  let queryWords := contextQueryWords query in
  let textLower := toLowerCase text in
  let starts := windowStarts (length text) in
  let best := bestWindow textLower starts queryWords in
  if snd best =? 0 then
    match firstPartialWindow textLower starts queryWords with
    | Some i => i
    | None => fst best
    end
  else fst best.

(** [ManualViewer.getSearchContext(text, query)] *)
Definition getSearchContext (text query : jsstring) : jsstring :=
  match text with
  | [] => noContext
  | _ :: _ =>
      let bestIndex := bestIndexOf text query in
      let start := Nat.max 0 (bestIndex - 25) in
      let end_ := Nat.min (length text) (bestIndex + 125) in
      let context := substring text start end_ in
      let context := if 0 <? start then ellipsis ++ context else context in
      if end_ <? length text then context ++ ellipsis else context
  end.

(** The query words of [search]:
    [query.toLowerCase().match(danishWordPattern) || []] *)
Definition searchQueryWords (query : jsstring) : list jsstring :=
  matchAll danishWordPattern (toLowerCase query).

(** The body of [for (const pageId of Object.keys(pageMatches))]: the
    result pushed for a key, if any. *)
Definition resultFor (pm : PageMatches) (pages : list Page)
  (query : jsstring) (key : N) : option SearchResult :=
  match props pm !! key, pages !! N.to_nat key with
  | Some m, Some pg =>
      if 4 <=? pm_score m then
        Some {| r_pageId := key;
                r_context := getSearchContext (orEmpty (pm_context m)) query;
                r_displayTitle :=
                  lit "Side " ++ chapter pg ++ lit "-" ++ page pg;
                r_score := pm_score m;
                r_matchedWords := pm_matchedWords m;
                r_exactMatches := pm_exactMatches m;
                r_finalScore := pm_score m + pm_exactMatches m * 5 |}
      else None
  | _, _ => None
  end.

(** The array [results] before it is sorted. *)
Definition collectResults (pm : PageMatches) (pages : list Page)
  (query : jsstring) : list SearchResult :=
  omap (resultFor pm pages query) (matchKeys pm).

(** [ManualViewer.search(query)]; [words] is [None] when the index or
    its [words] is missing. *)
Definition search (words : option WordIndex) (pages : list Page)
  (query : jsstring) : list SearchResult :=
  match words with
  | None => []
  | Some w =>
      let pm := collectMatches w (searchQueryWords query) in
      let results := collectResults pm pages query in
      firstn 20
        (List.filter (λ r, 6 <=? r_finalScore r) (sortByFinalScore results))
  end.

End WithHost.

End Search.

(** ** The cache controller ([src/sw.js])

    Cache names, request URLs and manual identifiers are strings on which
    the worker only uses concatenation, equality, a prefix test and the
    replacement of a prefix. Each handler runs to completion before the
    next event is taken. *)
Module Worker.
Local Open Scope string_scope.

Definition CACHE_VERSION : string := "1.0.2".
Definition CORE_CACHE_NAME : string := "m113-core-" +:+ CACHE_VERSION.

Definition CORE_FILES : list string :=
  ["./"; "./index.html"; "./css/manual-styles.css"; "./js/app.js";
   "./js/offline-manager.js"; "./favicon.svg"; "./favicon-16x16.svg";
   "./manifest.json"].

Definition MANUAL_FILES : gmap string (list string) :=
  list_to_map
    [("HRN113-001",
      ["./HRN113-001.html"; "./data/HRN113-001-search-index.json";
       "./data/HRN113-001-toc.json"]);
     ("HRN113-002",
      ["./HRN113-002.html"; "./data/HRN113-002-search-index.json";
       "./data/HRN113-002-toc.json"]);
     ("HRN737-012",
      ["./HRN737-012.html"; "./data/HRN737-012-search-index.json";
       "./data/HRN737-012-toc.json"]);
     ("HRN737-018",
      ["./HRN737-018.html"; "./data/HRN737-018-search-index.json";
       "./data/HRN737-018-toc.json"])].

(** The names [MANUAL_FILES[manualId]] finds on [Object.prototype]: the
    value is then a function or an object, which [cache.addAll] rejects. *)
Definition OBJECT_PROTOTYPE_KEYS : list string :=
  ["constructor"; "__defineGetter__"; "__defineSetter__"; "hasOwnProperty";
   "__lookupGetter__"; "__lookupSetter__"; "isPrototypeOf";
   "propertyIsEnumerable"; "toString"; "valueOf"; "__proto__";
   "toLocaleString"].

(** The rest of [s] after the prefix [p], when [s] starts with [p]. *)
Fixpoint stripPrefix (p s : string) : option string :=
  match p, s with
  | EmptyString, _ => Some s
  | String _ _, EmptyString => None
  | String c p', String d s' =>
      if Ascii.eqb c d then stripPrefix p' s' else None
  end.

(** [s.startsWith(p)] *)
Definition startsWith (s p : string) : bool :=
  match stripPrefix p s with
  | Some _ => true
  | None => false
  end.

(** [s.replace(p, r)] with a string pattern: the first occurrence of
    [p] is replaced. *)
Fixpoint replaceFirst (p r s : string) : string :=
  match stripPrefix p s with
  | Some rest => r +:+ rest
  | None =>
      match s with
      | EmptyString => EmptyString
      | String c s' => String c (replaceFirst p r s')
      end
  end.

(** *** The cache storage *)

(** [{id, cachedAt, version, fileCount}]; the record that
    [getOfflineManuals] makes up for a cache without metadata has no
    [version]. *)
Record Metadata := {
  md_id : string;
  md_cachedAt : N;
  md_version : option string;
  md_fileCount : nat
}.

(** A stored response: the answer to the fetch of a URL, or
    [new Response(JSON.stringify(metadata))]. *)
Inductive Response :=
  | Fetched (url : string)
  | Json (metadata : Metadata).

(** [caches]: the named caches, each a map from request URL to response,
    and their names in order of creation ([caches.keys()]). *)
Record CacheStorage := {
  caches : gmap string (gmap string Response);
  names : list string
}.

Definition noCaches : CacheStorage := {| caches := ∅; names := [] |}.

(** [caches.open(name)] creates the cache when it does not exist. *)
Definition caches_open (name : string) (st : CacheStorage) : CacheStorage :=
  match caches st !! name with
  | Some _ => st
  | None => {| caches := <[name := ∅]> (caches st);
               names := (names st ++ [name])%list |}
  end.

(** [caches.delete(name)] and the boolean it resolves to. *)
Definition caches_delete (name : string) (st : CacheStorage)
  : CacheStorage * bool :=
  match caches st !! name with
  | Some _ =>
      ({| caches := delete name (caches st);
          names := List.filter (λ n, negb (String.eqb n name)) (names st) |},
       true)
  | None => (st, false)
  end.

(** [cache.put(key, response)] on the cache [name]. *)
Definition cache_put (name key : string) (r : Response) (st : CacheStorage)
  : CacheStorage :=
  {| caches := alter (insert key r) name (caches st); names := names st |}.

(** [cache.addAll(urls)] on the cache [name]: every URL is fetched, and
    the responses are stored only when every fetch succeeded; [None] is
    the rejection. [net] tells which URLs can be fetched. *)
Definition stored (urls : list string) (cache : gmap string Response)
  : gmap string Response :=
  fold_left (λ c url, <[url := Fetched url]> c) urls cache.

Definition cache_addAll (net : string → bool) (name : string)
  (urls : list string) (st : CacheStorage) : option CacheStorage :=
  if forallb net urls
  then Some {| caches := alter (stored urls) name (caches st);
               names := names st |}
  else None.

(** *** Messages and replies *)

Record Message := {
  action : string;
  manualId : string;
  files : option (list string);
  hasPort : bool
}.

Inductive Reply :=
  | CacheManualDone (manualId : string) (fileCount : nat)
  | CacheManualFailed (manualId : string)
  | RemoveManualDone (success : bool) (manualId : string)
  | OfflineManuals (manuals : list Metadata)
  | OfflineManualsFailed
  | VersionChecked (hasUpdate : bool) (latestVersion : option string)
  | VersionCheckFailed
  | ErrorReply (error : string).

(** What the environment decides for a handler: which URLs can be
    fetched, the clock, and the answer to the fetch of [/version.json]
    ([None]: the fetch fails; [Some None]: the response is not ok). *)
Record Env := {
  net : string → bool;
  now : N;
  serverVersion : option (option string)
}.

(** [cacheManual(manualId, files, port)]: the storage it leaves and the
    message it posts. *)
Definition cacheManual (env : Env) (manualId : string)
  (files : option (list string)) (st : CacheStorage)
  : CacheStorage * Reply :=
  let cacheName := "manual-" +:+ manualId in
  let st1 := caches_open cacheName st in
  if bool_decide (manualId ∈ OBJECT_PROTOTYPE_KEYS)
  then (st1, CacheManualFailed manualId)
  else
    let coreFiles := default [] (MANUAL_FILES !! manualId) in
    match cache_addAll (net env) cacheName coreFiles st1 with
    | None => (st1, CacheManualFailed manualId)
    | Some st2 =>
        let added :=
          match files with
          | Some ((_ :: _) as fs) => cache_addAll (net env) cacheName fs st2
          | _ => Some st2
          end in
        match added with
        | None => (st2, CacheManualFailed manualId)
        | Some st3 =>
            let metadata :=
              {| md_id := manualId; md_cachedAt := now env;
                 md_version := Some CACHE_VERSION;
                 md_fileCount :=
                   length coreFiles + length (default [] files) |} in
            (cache_put cacheName (cacheName +:+ "-metadata")
                       (Json metadata) st3,
             CacheManualDone manualId (md_fileCount metadata))
        end
    end.

(** [removeManual(manualId, port)] *)
Definition removeManual (manualId : string) (st : CacheStorage)
  : CacheStorage * Reply :=
  let (st', deleted) := caches_delete ("manual-" +:+ manualId) st in
  (st', RemoveManualDone deleted manualId).

(** The body of the loop of [getOfflineManuals] for one cache name; the
    record is [None] when [metadataResponse.json()] rejects. *)
Definition readMetadata (cacheName : string) (st : CacheStorage)
  : CacheStorage * option Metadata :=
  let manualId := replaceFirst "manual-" "" cacheName in
  let st1 := caches_open cacheName st in
  let cache := default ∅ (caches st1 !! cacheName) in
  match cache !! (cacheName +:+ "-metadata") with
  | None =>
      (st1, Some {| md_id := manualId; md_cachedAt := 0;
                    md_version := None; md_fileCount := 0 |})
  | Some (Json metadata) => (st1, Some metadata)
  | Some (Fetched _) => (st1, None)
  end.

Fixpoint readManuals (cacheNames : list string) (st : CacheStorage)
  : CacheStorage * option (list Metadata) :=
  match cacheNames with
  | [] => (st, Some [])
  | cacheName :: rest =>
      match readMetadata cacheName st with
      | (st1, None) => (st1, None)
      | (st1, Some metadata) =>
          let (st2, manuals) := readManuals rest st1 in
          (st2, cons metadata <$> manuals)
      end
  end.

(** [getOfflineManuals(port)] *)
Definition getOfflineManuals (st : CacheStorage) : CacheStorage * Reply :=
  let manualCaches :=
    List.filter (λ name, startsWith name "manual-") (names st) in
  match readManuals manualCaches st with
  | (st', Some manuals) => (st', OfflineManuals manuals)
  | (st', None) => (st', OfflineManualsFailed)
  end.

(** [checkForUpdates(port)] *)
Definition checkForUpdates (env : Env) : Reply :=
  match serverVersion env with
  | Some (Some v) =>
      VersionChecked (negb (String.eqb v CACHE_VERSION)) (Some v)
  | Some None => VersionChecked false None
  | None => VersionCheckFailed
  end.

(** *** The worker *)

(** A worker version is installed and waiting, or it is the active one. *)
Inductive Lifecycle := Waiting | Active.

Record WorkerState := {
  storage : CacheStorage;
  lifecycle : Lifecycle
}.

(** [self.skipWaiting()] *)
Definition skipWaiting (ws : WorkerState) : WorkerState :=
  {| storage := storage ws; lifecycle := Active |}.

Definition withStorage (ws : WorkerState) (r : CacheStorage * Reply)
  : WorkerState * Reply :=
  ({| storage := fst r; lifecycle := lifecycle ws |}, snd r).

(** What a handler posts on [event.ports[0]]: nothing when the message
    came without a port. *)
Definition post (msg : Message) (r : WorkerState * Reply)
  : WorkerState * option Reply :=
  (fst r, if hasPort msg then Some (snd r) else None).

(** The listener of the [message] event: the [switch] on [action]. *)
Definition onMessage (env : Env) (msg : Message) (ws : WorkerState)
  : WorkerState * option Reply :=
  if String.eqb (action msg) "cache-manual" then
    post msg (withStorage ws
                (cacheManual env (manualId msg) (files msg) (storage ws)))
  else if String.eqb (action msg) "remove-manual" then
    post msg (withStorage ws (removeManual (manualId msg) (storage ws)))
  else if String.eqb (action msg) "check-version" then
    post msg (ws, checkForUpdates env)
  else if String.eqb (action msg) "get-offline-manuals" then
    post msg (withStorage ws (getOfflineManuals (storage ws)))
  else if String.eqb (action msg) "skipWaiting" then
    (skipWaiting ws, None)
  else
    post msg (ws, ErrorReply ("Unknown action: " +:+ action msg)).

(** The listener of the [install] event: the core files are cached, a
    failure is logged and swallowed, and on success the worker skips the
    waiting phase. *)
Definition onInstall (env : Env) (ws : WorkerState) : WorkerState :=
  let st1 := caches_open CORE_CACHE_NAME (storage ws) in
  match cache_addAll (net env) CORE_CACHE_NAME CORE_FILES st1 with
  | Some st2 => skipWaiting {| storage := st2; lifecycle := lifecycle ws |}
  | None => {| storage := st1; lifecycle := lifecycle ws |}
  end.

(** The listener of the [activate] event: every cache that is neither
    the core cache nor a manual cache is deleted. *)
Definition onActivate (ws : WorkerState) : WorkerState :=
  {| storage :=
       fold_left
         (λ st cacheName,
            if negb (String.eqb cacheName CORE_CACHE_NAME) &&
               negb (startsWith cacheName "manual-")
            then fst (caches_delete cacheName st) else st)
         (names (storage ws)) (storage ws);
     lifecycle := Active |}.

(** [performUpdate] of the foreground deletes every cache:
    [Promise.all(cacheNames.map(name => caches.delete(name)))]. *)
Definition clearCaches (ws : WorkerState) : WorkerState :=
  {| storage :=
       fold_left (λ st cacheName, fst (caches_delete cacheName st))
                 (names (storage ws)) (storage ws);
     lifecycle := lifecycle ws |}.

(** The events that change the state of the cache subsystem. *)
Inductive Transition :=
  | Install (env : Env)
  | Activate
  | Receive (env : Env) (msg : Message)
  | ClearCaches.

Definition step (ws : WorkerState) (t : Transition) : WorkerState :=
  match t with
  | Install env => onInstall env ws
  | Activate => onActivate ws
  | Receive env msg => fst (onMessage env msg ws)
  | ClearCaches => clearCaches ws
  end.

Definition initial : WorkerState :=
  {| storage := noCaches; lifecycle := Waiting |}.

(** The state after a finite sequence of events: the reachable states. *)
Definition run (ts : list Transition) : WorkerState :=
  fold_left step ts initial.

(** *** The offline set *)

(** The identifiers that [get-offline-manuals] reports. *)
Definition reportedOffline (ws : WorkerState) : list string :=
  match snd (getOfflineManuals (storage ws)) with
  | OfflineManuals manuals => map md_id manuals
  | _ => []
  end.

(** The invariant in the words of the specification: a non-empty cache
    tagged with a metadata entry exists for the identifier. *)
Definition taggedCacheExists (ws : WorkerState) (id : string) : Prop :=
  ∃ cache metadata,
    caches (storage ws) !! ("manual-" +:+ id) = Some cache ∧
    cache ≠ ∅ ∧
    cache !! ("manual-" +:+ id +:+ "-metadata") = Some (Json metadata).

(** A cache named [manual-<id>] exists. *)
Definition manualCacheExists (ws : WorkerState) (id : string) : Prop :=
  is_Some (caches (storage ws) !! ("manual-" +:+ id)).

(** What holds of the storage in every reachable state: the list of
    names lists the caches, and what a manual cache holds under its
    metadata key is the metadata of that manual. *)
Record Consistent (st : CacheStorage) : Prop := {
  names_listed :
    ∀ name, name ∈ names st ↔ is_Some (caches st !! name);
  metadata_tagged :
    ∀ id cache r,
      caches st !! ("manual-" +:+ id) = Some cache →
      cache !! (("manual-" +:+ id) +:+ "-metadata") = Some r →
      ∃ metadata, r = Json metadata ∧ md_id metadata = id
}.

(** [st'] differs from [st] at most in the content of the cache [name]. *)
Definition sameOutside (name : string) (st st' : CacheStorage) : Prop :=
  names st' = names st ∧
  (∀ n, n ≠ name → caches st' !! n = caches st !! n) ∧
  (is_Some (caches st' !! name) ↔ is_Some (caches st !! name)).

End Worker.

(** ** The offline coordinator ([src/js/offline-manager.js])

    The coordinator is event driven: an [async] method runs until its
    next [await], and other handlers may run before it is resumed. Its
    state holds the fields the operations below read and write; what
    the operations do to the page (notifications, labels and buttons) and
    to the worker is recorded as a list of effects. *)
Module Offline.
Local Open Scope string_scope.

(** A [Set] of strings: its elements in order of insertion.
    [set.add(x)]: *)
Definition set_add (x : string) (s : list string) : list string :=
  if bool_decide (x ∈ s) then s else (s ++ [x])%list.

(** [new Set(array)] *)
Definition set_of_array (l : list string) : list string :=
  fold_left (λ s x, set_add x s) l [].

(** [mirror] is [localStorage['offlineManuals']]: absent, or the array
    that [saveOfflineManuals] serialised ([JSON.parse] gives back the
    array of strings that [JSON.stringify] was given; nothing else
    writes the key). *)
Record Coordinator := {
  swRegistration : bool;
  serviceWorkerFailed : bool;
  offlineManuals : list string;
  pendingDownloads : gset string;
  mirror : option (list string)
}.

Definition withOffline (c : Coordinator) (s : list string) : Coordinator :=
  {| swRegistration := swRegistration c;
     serviceWorkerFailed := serviceWorkerFailed c;
     offlineManuals := s;
     pendingDownloads := pendingDownloads c;
     mirror := mirror c |}.

Definition withPending (c : Coordinator) (p : gset string) : Coordinator :=
  {| swRegistration := swRegistration c;
     serviceWorkerFailed := serviceWorkerFailed c;
     offlineManuals := offlineManuals c;
     pendingDownloads := p;
     mirror := mirror c |}.

(** [saveOfflineManuals()], when [localStorage.setItem] succeeds; where
    it throws, nothing is written. *)
Definition saveOfflineManuals (c : Coordinator) : Coordinator :=
  {| swRegistration := swRegistration c;
     serviceWorkerFailed := serviceWorkerFailed c;
     offlineManuals := offlineManuals c;
     pendingDownloads := pendingDownloads c;
     mirror := Some (offlineManuals c) |}.

(** What an operation does outside the coordinator's own state. *)
Inductive Effect :=
  | PostMessage (action : string) (manualId : option string)
                (files : option (list string))
  | PostToWaiting (action : string)
  | FetchManualFiles (manualId : string)
  | UpdateRegistration
  | DeleteAllCaches
  | UpdateManualUI (manualId status : string)
  | UpdateAllManualUIs
  | ShowNotification (type : string)
  | ReloadPage.


(** How [sendMessageToSW] settles: rejected before anything is posted
    (no registration, or no active worker in time), rejected by the
    30 s timer after the message was posted, or resolved with the reply
    of the worker. *)
Inductive SendOutcome :=
  | Unavailable
  | TimedOut
  | Replied (reply : Worker.Reply).

(** [result.success] *)
Definition success (r : Worker.Reply) : bool :=
  match r with
  | Worker.CacheManualDone _ _ => true
  | Worker.RemoveManualDone s _ => s
  | Worker.OfflineManuals _ => true
  | Worker.VersionChecked _ _ => true
  | _ => false
  end.

(** *** [downloadManual] *)

(** Where a call of [downloadManual] is: not yet made, suspended at
    [await this.getManualFiles(manualId)], suspended inside
    [sendMessageToSW] at [await this.waitForServiceWorkerReady()],
    suspended on the reply of the worker, or returned. *)
Inductive Phase :=
  | NotStarted
  | AwaitingFiles
  | AwaitingWorker (files : list string)
  | AwaitingReply
  | Returned (result : bool).

(** What resumes a call. [WorkerReady false] stands for every way in
    which [sendMessageToSW] rejects before posting. [Answer reply stored]
    is how the request settles ([None] is the timeout) together with
    whether [localStorage.setItem] succeeds when [saveOfflineManuals] is
    called: it throws where storage is unavailable or full. *)
Inductive Input :=
  | Call
  | Files (files : list string)
  | WorkerReady (ready : bool)
  | Answer (reply : option Worker.Reply) (stored : bool).

(** The [catch] block followed by the [finally] block. *)
Definition downloadFailed (manualId : string) (c : Coordinator)
  : Phase * Coordinator * list Effect :=
  (Returned false,
   withPending c (pendingDownloads c ∖ {[manualId]}),
   [ShowNotification "error"; UpdateManualUI manualId "online"]).

(** One run of [downloadManual(manualId)] from a suspension point to the
    next. An input that does not fit the phase leaves the call where it
    is. *)
Definition downloadStep (manualId : string) (phase : Phase) (input : Input)
  (c : Coordinator) : Phase * Coordinator * list Effect :=
  match phase, input with
  | NotStarted, Call =>
      if bool_decide (manualId ∈ pendingDownloads c)
      then (Returned false, c, [])
      else if serviceWorkerFailed c || negb (swRegistration c)
      then (Returned false, c, [ShowNotification "error"])
      else (AwaitingFiles,
            withPending c ({[manualId]} ∪ pendingDownloads c),
            [UpdateManualUI manualId "downloading";
             FetchManualFiles manualId])
  | AwaitingFiles, Files files =>
      if swRegistration c then (AwaitingWorker files, c, [])
      else downloadFailed manualId c
  | AwaitingWorker files, WorkerReady true =>
      (AwaitingReply, c,
       [PostMessage "cache-manual" (Some manualId) (Some files)])
  | AwaitingWorker _, WorkerReady false => downloadFailed manualId c
  | AwaitingReply, Answer (Some reply) stored =>
      if success reply then
        let added := withOffline c (set_add manualId (offlineManuals c)) in
        if stored then
          (Returned true,
           withPending (saveOfflineManuals added)
                       (pendingDownloads c ∖ {[manualId]}),
           [UpdateManualUI manualId "offline"; ShowNotification "success"])
        else downloadFailed manualId added
      else downloadFailed manualId c
  | AwaitingReply, Answer None _ => downloadFailed manualId c
  | _, _ => (phase, c, [])
  end.

(** A call of [downloadManual(manualId)] that nothing interrupts, given
    what [getManualFiles] resolves to, whether the worker is ready, how
    the request settles and whether the offline set can be stored: the
    steps one after the other. *)
Definition downloadManual (manualId : string) (files : list string)
  (ready : bool) (answer : option Worker.Reply) (stored : bool)
  (c : Coordinator) : Phase * Coordinator * list Effect :=
  fold_left
    (λ r input,
       let '(phase, c', es) := downloadStep manualId r.1.1 input r.1.2 in
       (phase, c', (r.2 ++ es)%list))
    [Call; Files files; WorkerReady ready; Answer answer stored]
    (NotStarted, c, []).

(** A call is in flight between its first suspension and its return. *)
Definition inFlight (phase : Phase) : bool :=
  match phase with
  | AwaitingFiles | AwaitingWorker _ | AwaitingReply => true
  | NotStarted | Returned _ => false
  end.

(** *** Interleaved calls of [downloadManual] *)

Record Task := {
  task_manual : string;
  task_phase : Phase
}.

Record System := {
  coordinator : Coordinator;
  tasks : list Task;
  effects : list Effect
}.

(** A call is made (and runs to its first suspension), the call number
    [n] is resumed, or another operation of the coordinator
    ([removeManual], [loadOfflineManuals]) runs in between: those write
    the offline set and the mirror and leave [pendingDownloads] alone. *)
Inductive SystemEvent :=
  | Spawn (manualId : string)
  | Resume (n : nat) (input : Input)
  | Other (offline : list string) (stored : option (list string)).

Definition advance (s : System) (manualId : string) (phase : Phase)
  (input : Input) : Phase * System :=
  let '(phase', c, es) := downloadStep manualId phase input (coordinator s) in
  (phase',
   {| coordinator := c; tasks := tasks s;
      effects := (effects s ++ es)%list |}).

Definition systemStep (s : System) (e : SystemEvent) : System :=
  match e with
  | Spawn manualId =>
      let (phase, s') := advance s manualId NotStarted Call in
      {| coordinator := coordinator s';
         tasks := (tasks s' ++
                   [{| task_manual := manualId; task_phase := phase |}])%list;
         effects := effects s' |}
  | Resume n input =>
      match tasks s !! n with
      | Some t =>
          let (phase, s') :=
            advance s (task_manual t) (task_phase t) input in
          {| coordinator := coordinator s';
             tasks := <[n := {| task_manual := task_manual t;
                                task_phase := phase |}]> (tasks s');
             effects := effects s' |}
      | None => s
      end
  | Other offline stored =>
      {| coordinator :=
           {| swRegistration := swRegistration (coordinator s);
              serviceWorkerFailed := serviceWorkerFailed (coordinator s);
              offlineManuals := offline;
              pendingDownloads := pendingDownloads (coordinator s);
              mirror := stored |};
         tasks := tasks s;
         effects := effects s |}
  end.

(** The coordinator as its constructor leaves it, given what [init]
    found out about the worker and what the local storage holds. *)
Definition constructed (registered failed : bool)
  (stored : option (list string)) : Coordinator :=
  {| swRegistration := registered;
     serviceWorkerFailed := failed;
     offlineManuals := [];
     pendingDownloads := ∅;
     mirror := stored |}.

Definition startOf (c : Coordinator) : System :=
  {| coordinator := withPending c ∅; tasks := []; effects := [] |}.

Definition runSystem (c : Coordinator) (es : list SystemEvent) : System :=
  fold_left systemStep es (startOf c).

(** The calls in flight for a manual. *)
Definition inFlightFor (manualId : string) (s : System) : list Task :=
  List.filter
    (λ t, String.eqb (task_manual t) manualId && inFlight (task_phase t))
    (tasks s).

(** What the guard of [downloadManual] maintains: a call in flight has
    its manual in [pendingDownloads], and no two calls in flight are for
    the same manual. *)
Definition Guarded (s : System) : Prop :=
  (∀ n t, tasks s !! n = Some t → inFlight (task_phase t) = true →
          task_manual t ∈ pendingDownloads (coordinator s)) ∧
  (∀ n m t u, tasks s !! n = Some t → tasks s !! m = Some u →
              inFlight (task_phase t) = true →
              inFlight (task_phase u) = true →
              task_manual t = task_manual u → n = m).

(** *** [loadOfflineManuals] *)



(** *** [performUpdate] *)

(** [performUpdate()], given whether the registration has an active
    worker, whether [swRegistration.update()] succeeds and whether a
    worker is waiting afterwards. *)
Definition performUpdate (active updated waiting : bool) (c : Coordinator)
  : list Effect :=
  ([ShowNotification "info"] ++
   (if swRegistration c && active && negb (serviceWorkerFailed c) then
      UpdateRegistration ::
      (if updated && waiting then [PostToWaiting "skipWaiting"] else [])
    else []) ++
   [DeleteAllCaches; ShowNotification "info"; ReloadPage])%list.

(** The message event that a [PostToWaiting] delivers to the waiting
    worker: [{action}], without a port. *)
Definition delivered (a : string) : Worker.Message :=
  {| Worker.action := a; Worker.manualId := "undefined";
     Worker.files := None; Worker.hasPort := false |}.

End Offline.

(** ** The inputs of the examples *)
Module Examples.
Import Search.

(** "udstødning", "udstødningsrør" and
    "...udstødningsrøret sidder bag motoren..." *)
Definition udstoedning : jsstring := lit "udst" ++ [248%N] ++ lit "dning".
Definition udstoedningsroer : jsstring :=
  lit "udst" ++ [248%N] ++ lit "dningsr" ++ [248%N] ++ lit "r".
Definition udstoedningContext : jsstring :=
  lit "...udst" ++ [248%N] ++ lit "dningsr" ++ [248%N] ++
  lit "ret sidder bag motoren...".

(** [{"udstødning": [{pageId: 1, context: "..."}]}] *)
Definition udstoedningIndex : WordIndex :=
  [(udstoedning, [{| pageId := 1; context := Some udstoedningContext |}])].

(** Two loaded pages, so that page 1 is present. *)
Definition twoPages : list Page :=
  [{| chapter := lit "1"; page := lit "01" |};
   {| chapter := lit "1"; page := lit "02" |}].

(** "rør", "motor motor", and a window of 100 code units that starts
    with "motor". *)
Definition roer : jsstring := lit "r" ++ [248%N] ++ lit "r".
Definition motorMotor : jsstring := lit "motor motor".
Definition motorWindow : jsstring := lit "motor" ++ repeat 32%N 95.

(** The coverage score in the words of the specification: the number of
    distinct query tokens found in the window. *)
Definition distinctCoverage (window : jsstring) (queryWords : list jsstring)
  : nat :=
  length (remove_dups (List.filter (includes window) queryWords)).

(** A download of HRN113-001 while nothing can be fetched. *)
Definition offlineEnv : Worker.Env :=
  {| Worker.net := λ _, false; Worker.now := 0;
     Worker.serverVersion := None |}.

Definition downloadRequest : Worker.Message :=
  {| Worker.action := "cache-manual"; Worker.manualId := "HRN113-001";
     Worker.files := Some ["/pages/HRN113-001/HRN113_1-01.png"%string];
     Worker.hasPort := true |}.

(** A request with the action name of the specification. *)
Definition skipWaitingRequest : Worker.Message :=
  {| Worker.action := "skip-waiting"; Worker.manualId := "undefined";
     Worker.files := None; Worker.hasPort := true |}.

(** Coordinators: one with a download of HRN113-001 pending, one whose
    worker failed to register, one ready to download. *)
Definition idle : Offline.Coordinator := Offline.constructed true false None.

End Examples.

(** ** More about the results of [search] *)
Module Ranking.
Import Search.

(** The [context] that the entry of a page carries: the one of the first
    contributing triple on the page, whose occurrence created the entry. *)
Definition firstContext (p : N) (ts : list Triple) : option jsstring :=
  match onPage p ts with
  | [] => None
  | t :: _ => context (t_occurrence t)
  end.

(** What [pageMatches] records after the triples [done], besides the
    counters: its keys in order of creation, without repetition, and for
    each page the occurrence that created its entry and the index words
    pushed to [matchedWords]. *)
Definition recorded (done : list Triple) (pm : PageMatches) : Prop :=
  NoDup (created pm) ∧
  (∀ p, p ∈ created pm ↔ is_Some (props pm !! p)) ∧
  (∀ p, props pm !! p = None → onPage p done = []) ∧
  (∀ p e, props pm !! p = Some e →
          onPage p done ≠ [] ∧
          pm_pageId e = p ∧
          pm_context e = firstContext p done ∧
          pm_matchedWords e = map t_index (onPage p done)).

(** The order of the results: by decreasing final score, and by
    increasing page id among equal final scores. *)
Definition rankedBefore (a b : SearchResult) : Prop :=
  r_finalScore b < r_finalScore a ∨
  (r_finalScore b = r_finalScore a ∧ (r_pageId a < r_pageId b)%N).

(** The largest length of an array, and so the bound on [this.pages]. *)
Definition MAX_ARRAY_LENGTH : N := 4294967295.

End Ranking.


(** ** The coordinator's other operations, and the coordinator with the
    worker ([src/js/offline-manager.js], [src/sw.js]) *)
Module Session.
Import Offline.
Local Open Scope string_scope.

(** [set.delete(x)] on a [Set] given by its elements in order of
    insertion. *)
Definition set_delete (x : string) (s : list string) : list string :=
  List.filter (λ y, negb (String.eqb y x)) s.

(** How [sendMessageToSW] settles for a coordinator: without a
    registration it rejects before anything is posted. *)
Definition settles (c : Coordinator) (outcome : SendOutcome) : SendOutcome :=
  if swRegistration c then outcome else Unavailable.

(** What [sendMessageToSW(action, {manualId})] posts. *)
Definition posted (action manualId : string) (outcome : SendOutcome)
  : list Effect :=
  match outcome with
  | Unavailable => []
  | _ => [PostMessage action (Some manualId) None]
  end.

(** [removeManual(manualId)], given how the [remove-manual] request
    settles and whether [localStorage.setItem] succeeds when
    [saveOfflineManuals] is called (it throws where storage is
    unavailable or full, and the [catch] block then runs with the manual
    already deleted from the set): the value it returns, the coordinator
    it leaves and what it does. *)
Definition removeManual (manualId : string) (outcome : SendOutcome)
  (stored : bool) (c : Coordinator) : bool * Coordinator * list Effect :=
  if bool_decide (manualId ∈ pendingDownloads c) then (false, c, [])
  else
    let outcome := settles c outcome in
    match outcome with
    | Replied reply =>
        if success reply then
          let deleted :=
            withOffline c (set_delete manualId (offlineManuals c)) in
          if stored then
            (true, saveOfflineManuals deleted,
             (posted "remove-manual" manualId outcome ++
              [UpdateManualUI manualId "online";
               ShowNotification "info"])%list)
          else
            (false, deleted,
             (posted "remove-manual" manualId outcome ++
              [ShowNotification "error"])%list)
        else
          (false, c,
           (posted "remove-manual" manualId outcome ++
            [ShowNotification "error"])%list)
    | _ =>
        (false, c,
         (posted "remove-manual" manualId outcome ++
          [ShowNotification "error"])%list)
    end.

(** The two ways of saying how a request settles. *)
Definition outcomeOf (ready : bool) (answer : option Worker.Reply)
  : SendOutcome :=
  if ready then
    match answer with
    | Some reply => Replied reply
    | None => TimedOut
    end
  else Unavailable.

(** The value a finished call of [downloadManual] returns. *)
Definition returned (phase : Phase) : bool :=
  match phase with
  | Returned result => result
  | _ => false
  end.

(** [toggleOfflineStatus(manualId)] *)
Definition toggleOfflineStatus (manualId : string) (files : list string)
  (ready : bool) (answer : option Worker.Reply) (stored : bool)
  (c : Coordinator) : bool * Coordinator * list Effect :=
  if bool_decide (manualId ∈ offlineManuals c)
  then removeManual manualId (outcomeOf ready answer) stored c
  else
    let r := downloadManual manualId files ready answer stored c in
    (returned r.1.1, r.1.2, r.2).

(** *** The coordinator and the worker together *)

(** The message that [sendMessageToSW(action, data)] delivers to the
    active worker; it always comes with a port. *)
Definition cacheRequest (manualId : string) (files : list string)
  : Worker.Message :=
  {| Worker.action := "cache-manual"; Worker.manualId := manualId;
     Worker.files := Some files; Worker.hasPort := true |}.

Definition removeRequest (manualId : string) : Worker.Message :=
  {| Worker.action := "remove-manual"; Worker.manualId := manualId;
     Worker.files := None; Worker.hasPort := true |}.


Definition isPost (e : Effect) : bool :=
  match e with
  | PostMessage _ _ _ => true
  | _ => false
  end.

(** A call of [toggleOfflineStatus(manualId)] with an active worker that
    answers: the worker handles the request that the call posts, if it
    posts one, and the call goes on with the worker's reply. [files] is
    what [getManualFiles] resolves to, and [stored] whether the offline
    set can be written to the local storage. *)
Definition toggle (env : Worker.Env) (manualId : string)
  (files : list string) (stored : bool) (c : Coordinator)
  (ws : Worker.WorkerState) : bool * Coordinator * Worker.WorkerState :=
  let request :=
    if bool_decide (manualId ∈ offlineManuals c)
    then removeRequest manualId
    else cacheRequest manualId files in
  let handled := Worker.onMessage env request ws in
  let r := toggleOfflineStatus manualId files true handled.2 stored c in
  (r.1.1, r.1.2, if existsb isPost r.2 then handled.1 else ws).


(** A call that has its manual in [pendingDownloads] is accounted for
    when it is in flight. *)
Definition Accounted (s : System) : Prop :=
  ∀ id, id ∈ pendingDownloads (coordinator s) →
        ∃ n t, tasks s !! n = Some t ∧ task_manual t = id ∧
               inFlight (task_phase t) = true.

(** *** [checkForUpdates] *)

(** [isOnline] and [lastUpdateCheck]; the clock is in milliseconds. *)
Record UpdateState := {
  isOnline : bool;
  lastUpdateCheck : Z
}.

Definition oneHour : Z := 60 * 60 * 1000.

(** The rate limit:
    [this.lastUpdateCheck && (now - this.lastUpdateCheck) < oneHour]. *)
Definition rateLimited (now : Z) (u : UpdateState) : bool :=
  negb (lastUpdateCheck u =? 0)%Z && (now - lastUpdateCheck u <? oneHour)%Z.

(** [checkForUpdates()], given the value that [Date.now()] returns at
    its start and how the [check-version] request settles: the state it
    leaves and what it does. The state is written before the first
    [await]; the request is posted later, when [sendMessageToSW] has
    waited for the worker to be ready. *)
Definition checkForUpdates (now : Z) (outcome : SendOutcome)
  (u : UpdateState) : UpdateState * list Effect :=
  if negb (isOnline u) then (u, [])
  else if rateLimited now u then (u, [])
  else
    ({| isOnline := isOnline u; lastUpdateCheck := now |},
     (match outcome with
      | Unavailable => []
      | _ => [PostMessage "check-version" None None]
      end ++
      match outcome with
      | Replied (Worker.VersionChecked true _) => [ShowNotification "info"]
      | _ => []
      end)%list).

(** Whether a call gets to [this.lastUpdateCheck = now]. *)
Definition passes (now : Z) (u : UpdateState) : bool :=
  isOnline u && negb (rateLimited now u).

(** Calls of [checkForUpdates], in the order in which they are made,
    each with the clock value it reads and the outcome of its request:
    for each call that clock value, whether it gets past the rate limit,
    and what it does. *)
Fixpoint checkLog (calls : list (Z * SendOutcome)) (u : UpdateState)
  : list (Z * bool * list Effect) :=
  match calls with
  | [] => []
  | (now, outcome) :: rest =>
      let r := checkForUpdates now outcome u in
      (now, passes now u, r.2) :: checkLog rest r.1
  end.

(** The clock values read by the calls that got past the rate limit. *)
Definition passedAt (log : list (Z * bool * list Effect)) : list Z :=
  map (λ entry, entry.1.1) (List.filter (λ entry, entry.1.2) log).

End Session.

(** ** More inputs on which the statements below are run *)
Module Cases.
Local Open Scope string_scope.

(** An environment in which every fetch succeeds. *)
Definition onlineEnv : Worker.Env :=
  {| Worker.net := λ _, true; Worker.now := 1700000000000;
     Worker.serverVersion := Some (Some "1.0.3") |}.

Definition pageImages : list string :=
  ["/pages/HRN113-001/HRN113_1-01.png"; "/pages/HRN113-001/HRN113_1-02.png"].

(** A coordinator that lists HRN113-001 as offline. *)
Definition listing : Offline.Coordinator :=
  Offline.withOffline Examples.idle ["HRN113-001"].

(** A coordinator whose mirror is in step with its (empty) offline
    set. *)
Definition saved : Offline.Coordinator :=
  Offline.saveOfflineManuals Examples.idle.

(** A worker that has cached HRN113-001, and one that has cached
    HRN737-012. *)
Definition cached113 : list Worker.Transition :=
  [Worker.Receive onlineEnv (Session.cacheRequest "HRN113-001" pageImages)].
Definition cached737 : list Worker.Transition :=
  [Worker.Receive onlineEnv (Session.cacheRequest "HRN737-012" [])].

(** An index in which "motor" occurs on the pages 2 and 0, listed in
    that order, and "motoren" on page 1; three loaded pages. *)
Definition motorIndex : Search.WordIndex :=
  [(lit "motor",
    [{| Search.pageId := 2; Search.context := Some (lit "motor bag") |};
     {| Search.pageId := 0; Search.context := Some (lit "en motor") |}]);
   (lit "motoren",
    [{| Search.pageId := 1; Search.context := Some (lit "motoren") |}])].

Definition threePages : list Search.Page :=
  [{| Search.chapter := lit "1"; Search.page := lit "01" |};
   {| Search.chapter := lit "1"; Search.page := lit "02" |};
   {| Search.chapter := lit "2"; Search.page := lit "01" |}].

(** Calls of [checkForUpdates] at 1 s, 2 s, one hour and 1 s, and one
    hour and 100 s. *)
Definition updateChecks : list (Z * Offline.SendOutcome) :=
  [(1000%Z, Offline.Unavailable); (2000%Z, Offline.TimedOut);
   (3601000%Z, Offline.TimedOut);
   (3700000%Z,
    Offline.Replied (Worker.VersionChecked true (Some "1.0.3")))].

End Cases.

(** ** Page navigation of [ManualViewer] ([src/js/app.js])

    [currentPage] is [null] until a page is shown, and a page index
    afterwards; [pages.length] does not change once the pages are
    loaded. Page indices, coordinates and durations are integers, on
    which the arithmetic of the source is exact. *)
Module Viewer.

(** The number that [null] or a page index is in [currentPage - 1],
    [currentPage + 1] and [currentPage <= 0]. *)
Definition toNumber (currentPage : option Z) : Z :=
  match currentPage with
  | Some p => p
  | None => 0
  end.

(** [navigateToPage(pageId)]: the [currentPage] it leaves. *)
Definition navigateToPage (length : nat) (pageId : Z)
  (currentPage : option Z) : option Z :=
  if (pageId <? 0)%Z || (Z.of_nat length <=? pageId)%Z then currentPage
  else Some pageId.

(** [updateNavigation()]: [prevBtn.disabled] and [nextBtn.disabled]. *)
Definition updateNavigation (length : nat) (currentPage : option Z)
  : bool * bool :=
  ((toNumber currentPage <=? 0)%Z,
   (Z.of_nat length - 1 <=? toNumber currentPage)%Z).

Inductive Key := ArrowLeft | ArrowRight | Escape | OtherKey.

(** [handleKeyboard(e)]; [onInput] is [e.target.tagName === 'INPUT']. *)
Definition handleKeyboard (length : nat) (onInput : bool) (key : Key)
  (currentPage : option Z) : option Z :=
  if onInput then currentPage
  else
    match key, currentPage with
    | ArrowLeft, Some p => navigateToPage length (p - 1) currentPage
    | ArrowRight, Some p => navigateToPage length (p + 1) currentPage
    | _, _ => currentPage
    end.

(** [handleSwipe(startX, endX, startY, endY, duration)] *)
Definition handleSwipe (length : nat) (startX endX startY endY duration : Z)
  (currentPage : option Z) : option Z :=
  let horizontalDiff := (startX - endX)%Z in
  let verticalDiff := Z.abs (startY - endY) in
  match currentPage with
  | Some p =>
      if (70 <? Z.abs horizontalDiff)%Z && (verticalDiff <? 40)%Z &&
         (150 <=? duration)%Z && (duration <=? 600)%Z
      then
        if (0 <? horizontalDiff)%Z
        then navigateToPage length (p + 1) currentPage
        else navigateToPage length (p - 1) currentPage
      else currentPage
  | None => currentPage
  end.

(** What the user does: a click on the previous or the next button
    (whose listeners call [navigateToPage(this.currentPage - 1)] and
    [navigateToPage(this.currentPage + 1)]), a key, a swipe, or anything
    that calls [navigateToPage] with a page index (a search result, an
    entry of the table of contents, the mouse wheel). *)
Inductive Event :=
  | PrevClick
  | NextClick
  | KeyDown (onInput : bool) (key : Key)
  | Swipe (startX endX startY endY duration : Z)
  | Open (pageId : Z).

Definition handle (length : nat) (currentPage : option Z) (e : Event)
  : option Z :=
  match e with
  | PrevClick => navigateToPage length (toNumber currentPage - 1) currentPage
  | NextClick => navigateToPage length (toNumber currentPage + 1) currentPage
  | KeyDown onInput key => handleKeyboard length onInput key currentPage
  | Swipe startX endX startY endY duration =>
      handleSwipe length startX endX startY endY duration currentPage
  | Open pageId => navigateToPage length pageId currentPage
  end.

(** [currentPage] after the events, starting from [null]. *)
Definition view (length : nat) (events : list Event) : option Z :=
  fold_left (handle length) events None.

(** [currentPage] is [null] or the index of a page. *)
Definition inRange (length : nat) (currentPage : option Z) : Prop :=
  match currentPage with
  | Some p => (0 ≤ p < Z.of_nat length)%Z
  | None => True
  end.

End Viewer.

(** ** Highlighting of search contexts ([ManualViewer.highlightText])

    [highlightText] first chooses the words of the text to highlight
    and orders them; that part is modelled here. *)
Module Highlight.
Import Search.

(** The if-chain of [highlightText] for a query word and a lower-cased
    text word: whether the text word is added. The test
    [Math.min(...) >= Math.max(...) * 0.6] compares an integer with the
    product of an integer and the double [0.6], as the test of [search]
    does, and is the same integer comparison. *)
Definition qualifies (queryWord textWordLower : jsstring) : bool :=
  if bool_decide (textWordLower = queryWord) then true
  else if startsWith textWordLower queryWord && (3 <=? length queryWord)
  then true
  else if startsWith queryWord textWordLower && (3 <=? length textWordLower)
  then true
  else if (5 <=? length queryWord) && (5 <=? length textWordLower) &&
          (includes textWordLower queryWord ||
           includes queryWord textWordLower) &&
          (6 * Nat.max (length queryWord) (length textWordLower) <=?
           10 * Nat.min (length queryWord) (length textWordLower))
  then true
  else false.

(** [set.add(word)] on a [Set] given by its elements in order of
    insertion. *)
Definition addWord (word : jsstring) (set : list jsstring) : list jsstring :=
  if bool_decide (word ∈ set) then set else set ++ [word].

(** [Array.prototype.sort((a, b) => b.length - a.length)]: stable, the
    longest first. *)
Fixpoint insertByLength (word : jsstring) (l : list jsstring)
  : list jsstring :=
  match l with
  | [] => [word]
  | x :: l' =>
      if length x <=? length word then word :: l
      else x :: insertByLength word l'
  end.

Definition sortByLength (l : list jsstring) : list jsstring :=
  fold_right insertByLength [] l.

(** [/[.*+?^${}()|[\]\\]/]: the code units that [escapeRegExp]
    escapes. *)
Definition special (c : codeunit) : bool :=
  existsb (N.eqb c) [46; 42; 43; 63; 94; 36; 123; 125; 40; 41; 124; 91;
                     93; 92]%N.

(** [escapeRegExp(string)]: a backslash before each special code
    unit. *)
Definition escapeRegExp (s : jsstring) : jsstring :=
  flat_map (λ c, if special c then [92%N; c] else [c]) s.

Section WithHost.
Variable toLowerCase : jsstring → jsstring.

(** The inner loop: the text words added for one query word. *)
Definition addMatching (textWords : list jsstring)
  (set : list jsstring) (queryWord : jsstring) : list jsstring :=
  if length queryWord <? 3 then set
  else
    fold_left
      (λ set textWord,
         if qualifies queryWord (toLowerCase textWord)
         then addWord textWord set else set)
      textWords set.

(** [wordsToHighlight] when the loops are done. *)
Definition wordsToHighlight (text query : jsstring) : list jsstring :=
  let queryWords := matchAll danishWordPattern (toLowerCase query) in
  let textWords := matchAll danishWordPattern text in
  fold_left (addMatching textWords) queryWords [].

(** [sortedWords] *)
Definition sortedWords (text query : jsstring) : list jsstring :=
  sortByLength (wordsToHighlight text query).

End WithHost.

End Highlight.

From Stdlib Require DecimalString.

(** ** The files of a manual ([OfflineManager.getManualFiles]) *)
Module Files.
Local Open Scope string_scope.

(** [i.toString()] for a non-negative integer. *)
Definition toString (i : nat) : string :=
  DecimalString.NilEmpty.string_of_uint (Nat.to_uint i).

(** [s.padStart(targetLength, pad)] with a one-character pad. *)
Definition padStart (targetLength : nat) (pad : ascii) (s : string)
  : string :=
  string_of_list_ascii (repeat pad (targetLength - String.length s)) +:+ s.

(** The candidates for a manual whose identifier starts with
    "HRN113-": for each page number from 1 to 400, the chapters 1 to 9
    and then the appendices A to I, each appendix with the padded and
    the plain page number. *)
Definition hrn113Pages (manualId : string) : list string :=
  flat_map
    (λ i,
       let pageNum := padStart 2 "0" (toString i) in
       (map (λ chapter,
               "/pages/" +:+ manualId +:+ "/HRN113_" +:+ toString chapter +:+
               "-" +:+ pageNum +:+ ".png")
            (seq 1 9) ++
        flat_map
          (λ appendix,
             ["/pages/" +:+ manualId +:+ "/HRN113_" +:+ appendix +:+ "-" +:+
              pageNum +:+ ".png";
              "/pages/" +:+ manualId +:+ "/HRN113_" +:+ appendix +:+ "-" +:+
              toString i +:+ ".png"])
          ["A"; "B"; "C"; "D"; "E"; "F"; "G"; "H"; "I"])%list)
    (seq 1 400).

(** The candidates for a manual whose identifier starts with
    "HRN737-". *)
Definition hrn737Pages (manualId : string) : list string :=
  map (λ i,
         "/pages/" +:+ manualId +:+ "/" +:+ manualId +:+ "-" +:+
         padStart 2 "0" (toString i) +:+ ".png")
      (seq 1 200).

Definition possiblePages (manualId : string) : list string :=
  ((if Worker.startsWith manualId "HRN113-" then hrn113Pages manualId
    else []) ++
   (if Worker.startsWith manualId "HRN737-" then hrn737Pages manualId
    else []))%list.

(** [possiblePages.slice(0, 50)] *)
Definition testPages (manualId : string) : list string :=
  firstn 50 (possiblePages manualId).

(** The paths that the search index gives: ["/" + page.imagePath] for
    the pages that have a non-empty [imagePath], each once, in order of
    first appearance. *)
Definition indexedPaths (pages : list (option string)) : list string :=
  Offline.set_of_array
    (omap (λ imagePath,
             match imagePath with
             | Some (String c p) => Some ("/" +:+ String c p)
             | _ => None
             end)
          pages).

(** [getManualFiles(manualId)]. [index] is the array of the
    [imagePath] of the pages of the search index, [None] where a page
    has none; it is [None] when the index cannot be had (the fetch
    fails, the response is not ok, or reading its pages throws).
    [found] tells for which URLs the [HEAD] request succeeds with an ok
    response. *)
Definition getManualFiles (index : option (list (option string)))
  (found : string → bool) (manualId : string) : list string :=
  let files :=
    match index with
    | Some pages => indexedPaths pages
    | None => []
    end in
  match files with
  | [] => List.filter found (testPages manualId)
  | _ :: _ => files
  end.

(** The names of the page images that the fallback asks for, for a
    manual of the HRN113 series. *)
Definition probed113 : list string :=
  ["1-01"; "2-01"; "3-01"; "4-01"; "5-01"; "6-01"; "7-01"; "8-01"; "9-01";
   "A-01"; "A-1"; "B-01"; "B-1"; "C-01"; "C-1"; "D-01"; "D-1"; "E-01";
   "E-1"; "F-01"; "F-1"; "G-01"; "G-1"; "H-01"; "H-1"; "I-01"; "I-1";
   "1-02"; "2-02"; "3-02"; "4-02"; "5-02"; "6-02"; "7-02"; "8-02"; "9-02";
   "A-02"; "A-2"; "B-02"; "B-2"; "C-02"; "C-2"; "D-02"; "D-2"; "E-02";
   "E-2"; "F-02"; "F-2"; "G-02"; "G-2"].

End Files.
(** ** Facts about JavaScript strings *)
Section JSFacts.

Lemma startsWith_spec (s p : jsstring) :
  startsWith s p = true ↔ startsWithSpec s p.
Proof.
  revert s; induction p as [|c p IH]; intros s; simpl.
  - split; [intros _; exists s; reflexivity | destruct s; reflexivity].
  - destruct s as [|d s].
    + split; [discriminate | intros [t Ht]; discriminate].
    + simpl. rewrite andb_true_iff, N.eqb_eq, IH. split.
      * intros [-> [t ->]]. exists t; reflexivity.
      * intros [t Ht]. injection Ht as -> ->. split; [reflexivity|].
        exists t; reflexivity.
Qed.

Lemma includes_spec (s p : jsstring) :
  includes s p = true ↔ includesSpec s p.
Proof.
  induction s as [|d s IH]; cbn [includes].
  - rewrite orb_false_r, startsWith_spec. split.
    + intros [t Ht]. exists [], t. exact Ht.
    + intros [a [b Hab]]. destruct a; [|discriminate].
      exists b. exact Hab.
  - rewrite orb_true_iff, startsWith_spec, IH. split.
    + intros [[t Ht] | [a [b Hab]]].
      * exists [], t. exact Ht.
      * exists (d :: a), b. simpl. rewrite Hab. reflexivity.
    + intros [a [b Hab]]. destruct a as [|e a].
      * left. exists b. exact Hab.
      * right. injection Hab as -> ->. exists a, b. reflexivity.
Qed.

End JSFacts.

Section MatchingPolicyFacts.
Import Search.

Lemma rule2_reflect (q i : jsstring) :
  startsWith i q && (3 <=? length q) = true ↔ rule2 q i.
Proof.
  unfold rule2.
  rewrite andb_true_iff, startsWith_spec, Nat.leb_le. reflexivity.
Qed.

Lemma rule3_reflect (q i : jsstring) :
  startsWith q i && (3 <=? length i) = true ↔ rule3 q i.
Proof.
  unfold rule3.
  rewrite andb_true_iff, startsWith_spec, Nat.leb_le. reflexivity.
Qed.

Lemma rule4_reflect (q i : jsstring) :
  (5 <=? length q) && (5 <=? length i) && includes i q &&
  (6 * length i <=? 10 * length q) = true ↔ rule4 q i.
Proof.
  unfold rule4.
  rewrite !andb_true_iff, includes_spec, !Nat.leb_le. tauto.
Qed.

(** For every length below 2^52, the exact product with the double 0.6
    is at most an integer [q] exactly when 0.6 times the length is. *)
Lemma exact_product_test (n q : Z) :
  (0 <= n < 2 ^ 52)%Z →
  (n * pointSix <= q * 2 ^ 53 ↔ 6 * n <= 10 * q)%Z.
Proof.
  intros Hn. unfold pointSix.
  change (2 ^ 53)%Z with 9007199254740992%Z.
  change (2 ^ 52)%Z with 4503599627370496%Z in Hn. lia.
Qed.

Lemma MatchingPolicy_functional (q i : jsstring) (r r' : option nat) :
  MatchingPolicy q i r → MatchingPolicy q i r' → r = r'.
Proof.
  intros H H'; destruct H; destruct H'; try reflexivity; contradiction.
Qed.

Lemma scoreBonus_sound (q i : jsstring) :
  MatchingPolicy q i (scoreBonus q i).
Proof.
  unfold scoreBonus.
  case_bool_decide as H1; [apply policy_exact; exact H1|].
  destruct (startsWith i q && (3 <=? length q)) eqn:H2.
  { apply policy_index_starts_with_query; [exact H1|].
    apply rule2_reflect; exact H2. }
  assert (N2 : ¬ rule2 q i).
  { intros C. apply rule2_reflect in C. congruence. }
  destruct (startsWith q i && (3 <=? length i)) eqn:H3.
  { apply policy_query_starts_with_index; [exact H1|exact N2|].
    apply rule3_reflect; exact H3. }
  assert (N3 : ¬ rule3 q i).
  { intros C. apply rule3_reflect in C. congruence. }
  destruct ((5 <=? length q) && (5 <=? length i) && includes i q &&
            (6 * length i <=? 10 * length q)) eqn:H4.
  { apply policy_contains; [exact H1|exact N2|exact N3|].
    apply rule4_reflect; exact H4. }
  apply policy_skip; [exact H1|exact N2|exact N3|].
  intros C. apply rule4_reflect in C. congruence.
Qed.

(** C1: for every (query word, index word) pair the weight that [search]
    uses is the one of the first applicable rule of the matching policy
    and of no other: 10 for equality, else 6 when the index word starts
    with the query word (of length at least 3), else 4 when the query word
    starts with the index word (of length at least 3), else 2 when both
    have length at least 5, the index word contains the query word and the
    query word is at least 0.6 times as long, else the pair is skipped;
    and a pair counts as an exact match exactly when the two are equal. *)
Theorem scoreBonus_matching_policy (q i : jsstring) :
  (∀ r, scoreBonus q i = r ↔ MatchingPolicy q i r) ∧
  (∀ w, scoreBonus q i = Some w ∧ countsAsExact w = true ↔
        i = q ∧ w = 10).
Proof.
  split.
  - intros r. split.
    + intros <-. apply scoreBonus_sound.
    + intros H.
      exact (MatchingPolicy_functional q i _ _ (scoreBonus_sound q i) H).
  - intros w. pose proof (scoreBonus_sound q i) as H.
    unfold countsAsExact. split.
    + intros [Hw Hx]. rewrite Hw in H.
      inversion H; subst; simpl in Hx; try discriminate.
      split; [assumption | reflexivity].
    + intros [-> ->]. split; [|reflexivity].
      unfold scoreBonus. rewrite bool_decide_eq_true_2; reflexivity.
Qed.

End MatchingPolicyFacts.
(** ** Facts about the sort of the results *)
Section SortFacts.
Import Search.

Lemma insertByScore_Permutation r l :
  Permutation (insertByScore r l) (r :: l).
Proof.
  induction l as [|x l IH]; simpl; [reflexivity|].
  destruct (r_finalScore x <=? r_finalScore r); [reflexivity|].
  rewrite IH. apply perm_swap.
Qed.

Lemma sortByFinalScore_Permutation l :
  Permutation (sortByFinalScore l) l.
Proof.
  induction l as [|r l IH]; simpl; [reflexivity|].
  rewrite insertByScore_Permutation, IH. reflexivity.
Qed.

Lemma insertByScore_sorted r l :
  StronglySorted byScoreDesc l → StronglySorted byScoreDesc (insertByScore r l).
Proof.
  induction 1 as [|x l Hs IH Hx]; simpl.
  - constructor; constructor.
  - destruct (r_finalScore x <=? r_finalScore r) eqn:E.
    + apply Nat.leb_le in E. constructor.
      * constructor; assumption.
      * constructor; [exact E|].
        eapply List.Forall_impl; [|exact Hx]. unfold byScoreDesc. intros; lia.
    + apply Nat.leb_gt in E. constructor; [exact IH|].
      rewrite insertByScore_Permutation. constructor; [|exact Hx].
      unfold byScoreDesc. lia.
Qed.

Lemma sortByFinalScore_sorted l :
  StronglySorted byScoreDesc (sortByFinalScore l).
Proof.
  induction l as [|r l IH]; simpl; [constructor|].
  apply insertByScore_sorted, IH.
Qed.

Lemma insertByScore_stable s r l :
  StronglySorted byScoreDesc l →
  withScore s (insertByScore r l) = withScore s (r :: l).
Proof.
  induction 1 as [|x l Hs IH Hx]; simpl; [reflexivity|].
  destruct (r_finalScore x <=? r_finalScore r) eqn:E; [reflexivity|].
  apply Nat.leb_gt in E. unfold withScore in *. simpl in *.
  rewrite IH.
  destruct (r_finalScore x =? s) eqn:Ex, (r_finalScore r =? s) eqn:Er;
    try reflexivity.
  apply Nat.eqb_eq in Ex, Er. lia.
Qed.

Lemma sortByFinalScore_stable s l :
  withScore s (sortByFinalScore l) = withScore s l.
Proof.
  induction l as [|r l IH]; simpl; [reflexivity|].
  rewrite insertByScore_stable by apply sortByFinalScore_sorted.
  unfold withScore in *. simpl. rewrite IH. reflexivity.
Qed.

Lemma StronglySorted_filter {A} (R : A → A → Prop) (f : A → bool) l :
  StronglySorted R l → StronglySorted R (List.filter f l).
Proof.
  induction 1 as [|x l Hs IH Hx]; simpl; [constructor|].
  destruct (f x); [|exact IH].
  constructor; [exact IH|].
  rewrite List.Forall_forall in *. intros y Hy.
  apply List.filter_In in Hy. apply Hx, Hy.
Qed.

Lemma StronglySorted_firstn {A} (R : A → A → Prop) n l :
  StronglySorted R l → StronglySorted R (firstn n l).
Proof.
  intros H; revert n; induction H as [|x l Hs IH Hx]; intros [|n]; simpl;
    try constructor.
  - apply IH.
  - rewrite List.Forall_forall in *. intros y Hy.
    apply Hx. rewrite <- (firstn_skipn n l). apply in_or_app. left. exact Hy.
Qed.

End SortFacts.

(** ** Facts about the accumulation of matches *)
Section AggregationFacts.
Import Search.

Lemma fold_left_flat_map {A B C} (f : A → C → A) (g : B → list C) l a :
  fold_left f (flat_map g l) a = fold_left (λ a x, fold_left f (g x) a) l a.
Proof.
  revert a; induction l as [|x l IH]; intros a; simpl; [reflexivity|].
  rewrite fold_left_app. apply IH.
Qed.

Lemma fold_left_pointwise {A B} (f g : A → B → A) l a :
  (∀ a x, f a x = g a x) → fold_left f l a = fold_left g l a.
Proof.
  intros E; revert a; induction l as [|x l IH]; intros a; simpl;
    [reflexivity|].
  rewrite E. apply IH.
Qed.

Lemma matchIndexWord_triples w q pm i :
  matchIndexWord w q pm i = fold_left applyTriple (pairTriples w q i) pm.
Proof.
  unfold matchIndexWord, pairTriples.
  destruct (scoreBonus q i) as [b|]; [|reflexivity].
  generalize (wordOccurrences w i) as occs. intros occs; revert pm.
  induction occs as [|o occs IH]; intros pm; simpl; [reflexivity|].
  apply IH.
Qed.

Lemma matchQueryWord_triples w pm q :
  matchQueryWord w pm q = fold_left applyTriple (queryTriples w q) pm.
Proof.
  unfold matchQueryWord, queryTriples.
  destruct (length q <? 3); [reflexivity|].
  rewrite fold_left_flat_map. apply fold_left_pointwise.
  intros. apply matchIndexWord_triples.
Qed.

Lemma collectMatches_contributions w qws :
  collectMatches w qws = fold_left applyTriple (contributions w qws) emptyMatches.
Proof.
  unfold collectMatches, contributions.
  rewrite fold_left_flat_map. apply fold_left_pointwise.
  intros. apply matchQueryWord_triples.
Qed.

Lemma contributions_weighted w qws : Forall weighted (contributions w qws).
Proof.
  unfold contributions. rewrite List.Forall_forall. intros t Ht.
  apply in_flat_map in Ht as [q [_ Ht]]. unfold queryTriples in Ht.
  destruct (length q <? 3); [destruct Ht|].
  apply in_flat_map in Ht as [i [_ Ht]]. unfold pairTriples in Ht.
  destruct (scoreBonus q i) as [b|] eqn:E; [|destruct Ht].
  apply in_map_iff in Ht as [o [<- _]]. exact E.
Qed.

Lemma weighted_exact t :
  weighted t → countsAsExact (t_weight t) = bool_decide (t_index t = t_query t).
Proof.
  unfold weighted, scoreBonus, countsAsExact.
  case_bool_decide as E.
  - intros [= <-]. reflexivity.
  - repeat match goal with
           | |- context [if ?b then _ else _] => destruct b
           end; intros [= <-]; reflexivity.
Qed.

Lemma onPage_app p l l' : onPage p (l ++ l') = onPage p l ++ onPage p l'.
Proof. apply List.filter_app. Qed.

Lemma list_sum_snoc l x : list_sum (l ++ [x]) = list_sum l + x.
Proof. rewrite list_sum_app. simpl. lia. Qed.

Lemma accumulated_step done pm t :
  weighted t → accumulated done pm →
  accumulated (done ++ [t]) (applyTriple pm t).
Proof.
  intros Ht Hacc p. specialize (Hacc p).
  unfold applyTriple, addMatch.
  remember (pageId (t_occurrence t)) as k eqn:Hk.
  unfold weightSum, exactCount, touched in *. rewrite onPage_app.
  destruct (decide (k = p)) as [Hkp|Hne].
  - subst p.
    assert (Hon : onPage k [t] = [t]).
    { unfold onPage. simpl. rewrite <- Hk, N.eqb_refl. reflexivity. }
    rewrite Hon, map_app, List.filter_app, !length_app. simpl.
    rewrite list_sum_snoc, <- (weighted_exact t Ht).
    destruct (props pm !! k) as [e|] eqn:E; simpl.
    + rewrite lookup_alter_eq, E. simpl.
      destruct Hacc as (-> & -> & Ht'). repeat split.
      * destruct (countsAsExact (t_weight t)); simpl; lia.
      * intros C. apply app_eq_nil in C as [_ C]. discriminate.
    + rewrite lookup_alter_eq, lookup_insert_eq. simpl. rewrite Hacc. simpl.
      repeat split.
      * destruct (countsAsExact (t_weight t)); reflexivity.
      * discriminate.
  - assert (Hon : onPage p [t] = []).
    { unfold onPage. simpl. rewrite <- Hk.
      destruct (k =? p)%N eqn:E; [|reflexivity].
      apply N.eqb_eq in E. contradiction. }
    rewrite Hon, app_nil_r.
    destruct (props pm !! k) as [e|] eqn:E; simpl.
    + rewrite lookup_alter_ne by exact Hne. exact Hacc.
    + rewrite lookup_alter_ne, lookup_insert_ne by exact Hne. exact Hacc.
Qed.

Lemma accumulated_fold ts done pm :
  Forall weighted ts → accumulated done pm →
  accumulated (done ++ ts) (fold_left applyTriple ts pm).
Proof.
  intros Hts; revert done pm.
  induction Hts as [|t ts Ht Hts IH]; intros done pm Hacc; simpl.
  - rewrite app_nil_r. exact Hacc.
  - replace (done ++ t :: ts) with ((done ++ [t]) ++ ts)
      by (rewrite <- app_assoc; reflexivity).
    apply IH, accumulated_step; assumption.
Qed.

Lemma collectMatches_accumulated w qws :
  accumulated (contributions w qws) (collectMatches w qws).
Proof.
  rewrite collectMatches_contributions.
  apply (accumulated_fold _ [] emptyMatches).
  - apply contributions_weighted.
  - intros p. simpl. rewrite lookup_empty. reflexivity.
Qed.

End AggregationFacts.

(** ** The results of [search] *)
Section SearchFacts.
Import Search.
Variable toLowerCase : jsstring → jsstring.

Lemma resultFor_Some pm pages query key r :
  resultFor toLowerCase pm pages query key = Some r →
  ∃ m pg, props pm !! key = Some m ∧ pages !! N.to_nat key = Some pg ∧
          r_pageId r = key ∧ r_score r = pm_score m ∧
          r_exactMatches r = pm_exactMatches m ∧ 4 ≤ pm_score m ∧
          r_finalScore r = pm_score m + 5 * pm_exactMatches m.
Proof.
  unfold resultFor.
  destruct (props pm !! key) as [m|]; [|discriminate].
  destruct (pages !! N.to_nat key) as [pg|]; [|discriminate].
  destruct (4 <=? pm_score m) eqn:E; [|discriminate].
  apply Nat.leb_le in E. intros [= <-]. exists m, pg. simpl.
  repeat split; try reflexivity; lia.
Qed.

Lemma collectResults_Forall (P : SearchResult → Prop) pm pages query :
  (∀ key r, resultFor toLowerCase pm pages query key = Some r → P r) →
  Forall P (collectResults toLowerCase pm pages query).
Proof.
  intros H. apply Forall_forall. intros r Hr.
  apply list_elem_of_omap in Hr as [key [_ Hk]]. exact (H key r Hk).
Qed.

Lemma Forall_ranked {A} (P : A → Prop) (f : A → bool) n sorted l :
  Permutation sorted l → Forall P l →
  Forall P (firstn n (List.filter f sorted)).
Proof.
  intros Hp Hl. rewrite List.Forall_forall in *. intros x Hx.
  apply Hl. apply (Permutation_in _ Hp).
  assert (Hf : In x (List.filter f sorted)).
  { rewrite <- (firstn_skipn n (List.filter f sorted)).
    apply in_or_app. left. exact Hx. }
  apply List.filter_In in Hf. apply Hf.
Qed.

Lemma filter_threshold (l : list SearchResult) :
  Forall (λ r, 6 ≤ r_finalScore r)
         (List.filter (λ r, 6 <=? r_finalScore r) l).
Proof.
  rewrite List.Forall_forall. intros r Hr.
  apply List.filter_In in Hr as [_ Hr]. apply Nat.leb_le. exact Hr.
Qed.

Lemma Forall_firstn {A} (P : A → Prop) n l :
  Forall P l → Forall P (firstn n l).
Proof.
  intros H. rewrite List.Forall_forall in *. intros x Hx. apply H.
  rewrite <- (firstn_skipn n l). apply in_or_app. left. exact Hx.
Qed.

(** C2: [search] retains a page only with an accumulated weight sum of at
    least 4, gives each retained page the final score weight sum plus 5
    times its exact-match count, arranges the retained results by
    non-increasing final score keeping the order of insertion among equal
    scores, then drops the results with a final score below 6 and keeps
    the first 20; so what it returns has at most 20 elements,
    non-increasing final scores and no final score below 6. *)
Theorem search_ranking (w : WordIndex) (pages : list Page)
  (query : jsstring) :
  let queryWords := searchQueryWords toLowerCase query in
  let ts := contributions w queryWords in
  let retained :=
    collectResults toLowerCase (collectMatches w queryWords) pages query in
  let out := search toLowerCase (Some w) pages query in
  Forall (λ r, r_score r = weightSum (r_pageId r) ts ∧
               r_exactMatches r = exactCount (r_pageId r) ts ∧
               4 ≤ weightSum (r_pageId r) ts ∧
               r_finalScore r =
                 weightSum (r_pageId r) ts + 5 * exactCount (r_pageId r) ts)
         retained ∧
  (∃ sorted,
      Permutation sorted retained ∧
      StronglySorted byScoreDesc sorted ∧
      (∀ s, withScore s sorted = withScore s retained) ∧
      out = firstn 20 (List.filter (λ r, 6 <=? r_finalScore r) sorted)) ∧
  length out ≤ 20 ∧
  StronglySorted byScoreDesc out ∧
  Forall (λ r, 6 ≤ r_finalScore r) out.
Proof.
  cbv zeta. split; [|split; [|split; [|split]]].
  - apply collectResults_Forall. intros key r Hr.
    apply resultFor_Some in Hr
      as (m & pg & Hm & _ & Hid & Hs & Hx & H4 & Hf).
    pose proof (collectMatches_accumulated w
                  (searchQueryWords toLowerCase query) key) as Hacc.
    rewrite Hm in Hacc. destruct Hacc as (Hsum & Hcount & _).
    rewrite Hid, Hs, Hx, Hf, <- Hsum, <- Hcount. repeat split. exact H4.
  - eexists. split; [apply sortByFinalScore_Permutation|].
    split; [apply sortByFinalScore_sorted|].
    split; [intros s; apply sortByFinalScore_stable|]. reflexivity.
  - unfold search. rewrite length_firstn. lia.
  - unfold search. apply StronglySorted_firstn, StronglySorted_filter,
      sortByFinalScore_sorted.
  - unfold search. apply Forall_firstn, filter_threshold.
Qed.

(** C10: every result of [search] carries a page id that indexes an
    entry of the loaded pages; an occurrence whose page id has no loaded
    page yields no result (and no error: [search] is total). *)
Theorem search_results_have_pages (words : option WordIndex)
  (pages : list Page) (query : jsstring) :
  Forall (λ r, is_Some (pages !! N.to_nat (r_pageId r)) ∧
               N.to_nat (r_pageId r) < length pages)
         (search toLowerCase words pages query).
Proof.
  destruct words as [w|]; [|constructor]. unfold search.
  eapply Forall_ranked; [apply sortByFinalScore_Permutation|].
  apply collectResults_Forall. intros key r Hr.
  apply resultFor_Some in Hr as (m & pg & _ & Hpg & -> & _).
  split; [exists pg; exact Hpg|]. apply lookup_lt_Some in Hpg. exact Hpg.
Qed.

End SearchFacts.

(** ** The example of the specification *)
Section ExampleFacts.
Import Search Examples.

Lemma filter_none {A} (f : A → bool) l :
  Forall (λ x, f x = false) l → List.filter f l = [].
Proof.
  induction 1 as [|x l Hx _ IH]; simpl; [reflexivity|].
  rewrite Hx. exact IH.
Qed.

(** C3, as the specification states it, fails: the pair does not get
    weight 6, and with page 1 loaded [search] returns nothing, so page 1
    is not among the results with final score 6. *)
Lemma udstoedning_example_refuted :
  scoreBonus udstoedningsroer udstoedning ≠ Some 6 ∧
  search latin1ToLowerCase (Some udstoedningIndex) twoPages
         udstoedningsroer = [] ∧
  ¬ (scoreBonus udstoedningsroer udstoedning = Some 6 ∧
     ∃ r, In r (search latin1ToLowerCase (Some udstoedningIndex) twoPages
                       udstoedningsroer) ∧
          r_pageId r = 1%N ∧ r_finalScore r = 6).
Proof.
  split; [vm_compute; discriminate|].
  split; [vm_compute; reflexivity|].
  intros [H _]. vm_compute in H. discriminate.
Qed.

(** C3, amended: for the index [{"udstødning": [{pageId: 1, ...}]}] and
    the query "udstødningsrør" the query word is the only one, the pair
    matches by the rule "query word starts with index word" with weight
    4, page 1 (when loaded) is retained with weight sum 4, no exact match
    and final score 4, and [search] returns no result, whatever pages are
    loaded, because the final score is below 6. *)
Theorem udstoedning_example :
  searchQueryWords latin1ToLowerCase udstoedningsroer = [udstoedningsroer] ∧
  MatchingPolicy udstoedningsroer udstoedning (Some 4) ∧
  scoreBonus udstoedningsroer udstoedning = Some 4 ∧
  map (λ r, (r_pageId r, r_score r, r_exactMatches r, r_finalScore r))
      (collectResults latin1ToLowerCase
         (collectMatches udstoedningIndex
            (searchQueryWords latin1ToLowerCase udstoedningsroer))
         twoPages udstoedningsroer) = [(1%N, 4, 0, 4)] ∧
  ∀ pages, search latin1ToLowerCase (Some udstoedningIndex) pages
                  udstoedningsroer = [].
Proof.
  split; [vm_compute; reflexivity|].
  split.
  { replace (Some 4) with (scoreBonus udstoedningsroer udstoedning)
      by (vm_compute; reflexivity).
    apply scoreBonus_sound. }
  split; [vm_compute; reflexivity|].
  split; [vm_compute; reflexivity|].
  intros pages. unfold search.
  replace (collectMatches udstoedningIndex
             (searchQueryWords latin1ToLowerCase udstoedningsroer))
    with {| props := {[ 1%N := {| pm_pageId := 1;
                                pm_context := Some udstoedningContext;
                                pm_score := 4;
                                pm_matchedWords := [udstoedning];
                                pm_exactMatches := 0 |} ]};
            created := [1%N] |} by (vm_compute; reflexivity).
  match goal with
  | |- context [sortByFinalScore ?l] =>
      assert (Hlow : Forall (λ r, r_finalScore r = 4) l)
  end.
  { apply collectResults_Forall. intros key r Hr.
    apply resultFor_Some in Hr as (m & pg & Hm & _ & _ & _ & _ & _ & ->).
    simpl in Hm. apply lookup_singleton_Some in Hm as [_ <-]. reflexivity. }
  rewrite <- sortByFinalScore_Permutation in Hlow.
  rewrite filter_none; [reflexivity|].
  eapply List.Forall_impl; [|exact Hlow]. intros r ->. reflexivity.
Qed.

End ExampleFacts.

(** ** The context extractor *)
Section ContextFacts.
Import Search Examples.
Variable toLowerCase : jsstring → jsstring.

Lemma windowStarts_spec len i :
  In i (windowStarts len) ↔ (∃ k, i = 10 * k) ∧ i + 100 ≤ len.
Proof.
  unfold windowStarts.
  pose proof (Nat.div_mod_eq (len - 100) 10) as Hd.
  pose proof (Nat.mod_upper_bound (len - 100) 10) as Hm.
  destruct (len <? 100) eqn:E.
  - apply Nat.ltb_lt in E. split; [intros []|intros [_ H]; lia].
  - apply Nat.ltb_ge in E. rewrite in_map_iff. split.
    + intros [k [<- Hk]]. apply in_seq in Hk. split; [exists k; lia|lia].
    + intros [[k ->] Hk]. exists k. split; [reflexivity|].
      apply in_seq. lia.
Qed.

Lemma substring_length (s : jsstring) a b :
  a ≤ b → b ≤ length s → length (substring s a b) = b - a.
Proof.
  intros Hab Hb. unfold substring.
  rewrite length_firstn, length_skipn. lia.
Qed.

(** The first pass leaves [bestIndex] at 0 or at a window start. *)
Lemma bestWindow_index textLower starts queryWords :
  fst (bestWindow textLower starts queryWords) = 0 ∨
  In (fst (bestWindow textLower starts queryWords)) starts.
Proof.
  unfold bestWindow.
  set (f := λ (best : nat * nat) (i : nat),
              let score := windowScore (windowAt textLower i) queryWords in
              if snd best <? score then (i, score) else best).
  assert (H : ∀ l best, fst best = 0 ∨ In (fst best) (starts) →
                        incl l starts →
                        fst (fold_left f l best) = 0 ∨
                        In (fst (fold_left f l best)) starts).
  { induction l as [|i l IH]; intros best Hb Hl; simpl; [exact Hb|].
    apply IH.
    - unfold f. cbv zeta.
      destruct (snd best <? _); [right; apply Hl; left; reflexivity|exact Hb].
    - intros x Hx. apply Hl. right. exact Hx. }
  apply H; [left; reflexivity|apply incl_refl].
Qed.

Lemma bestIndexOf_range text query :
  bestIndexOf toLowerCase text query = 0 ∨
  bestIndexOf toLowerCase text query + 100 ≤ length text.
Proof.
  unfold bestIndexOf.
  set (qws := contextQueryWords toLowerCase query).
  set (starts := windowStarts (length text)).
  assert (Hs : ∀ i, In i starts → i + 100 ≤ length text).
  { intros i Hi. apply windowStarts_spec in Hi. apply Hi. }
  destruct (bestWindow_index (toLowerCase text) starts qws) as [H0|Hin].
  - destruct (snd _ =? 0); [|left; exact H0].
    destruct (firstPartialWindow _ _ _) as [i|] eqn:E; [|left; exact H0].
    right. apply Hs. apply find_some in E. apply E.
  - destruct (snd _ =? 0); [|right; apply Hs, Hin].
    destruct (firstPartialWindow _ _ _) as [i|] eqn:E;
      [|right; apply Hs, Hin].
    right. apply Hs. apply find_some in E. apply E.
Qed.

(** C5: [getSearchContext] is a total function of two strings that never
    returns the empty string; on the empty text it returns the sentinel
    "Ingen kontekst tilgængelig". *)
Theorem getSearchContext_nonempty (text query : jsstring) :
  getSearchContext toLowerCase text query ≠ [] ∧
  getSearchContext toLowerCase [] query = noContext ∧
  0 < length (getSearchContext toLowerCase text query).
Proof.
  assert (Hlen : 0 < length (getSearchContext toLowerCase text query)).
  { unfold getSearchContext. destruct text as [|c text'] eqn:Et.
    - vm_compute. lia.
    - rewrite <- Et.
      assert (Hpos : 0 < length text) by (rewrite Et; simpl; lia).
      set (bestIndex := bestIndexOf toLowerCase text query).
      pose proof (bestIndexOf_range text query) as Hb. fold bestIndex in Hb.
      set (start := Nat.max 0 (bestIndex - 25)).
      set (end_ := Nat.min (length text) (bestIndex + 125)).
      assert (Hsub : 0 < length (substring text start end_)).
      { rewrite substring_length; unfold start, end_; lia. }
      destruct (0 <? start), (end_ <? length text);
        rewrite ?length_app; lia. }
  split; [|split; [reflexivity|exact Hlen]].
  intros E. rewrite E in Hlen. simpl in Hlen. lia.
Qed.

Lemma windowScore_count window queryWords n :
  fold_left (λ score word, if includes window word then S score else score)
            queryWords n =
  n + length (List.filter (includes window) queryWords).
Proof.
  revert n; induction queryWords as [|word qws IH]; intros n; simpl;
    [lia|].
  rewrite IH. destruct (includes window word); simpl; lia.
Qed.

(** C4, as the specification states it, fails: on "rør" the context
    extractor and the search engine do not produce the same tokens, and
    on "motor motor" a window that contains "motor" scores 2 although
    the query has one distinct token. *)
Lemma context_tokens_refuted :
  contextQueryWords latin1ToLowerCase roer ≠
    searchQueryWords latin1ToLowerCase roer ∧
  contextQueryWords latin1ToLowerCase roer = [lit "r"; lit "r"] ∧
  searchQueryWords latin1ToLowerCase roer = [roer] ∧
  windowScore motorWindow (contextQueryWords latin1ToLowerCase motorMotor)
    = 2 ∧
  distinctCoverage motorWindow
    (contextQueryWords latin1ToLowerCase motorMotor) = 1.
Proof.
  split; [vm_compute; discriminate|].
  repeat split; vm_compute; reflexivity.
Qed.

(** The first pass keeps the highest score seen and a window that has
    it. *)
Lemma bestWindow_max textLower starts queryWords :
  Forall (λ i, windowScore (windowAt textLower i) queryWords ≤
               snd (bestWindow textLower starts queryWords)) starts ∧
  (bestWindow textLower starts queryWords = (0, 0) ∨
   In (fst (bestWindow textLower starts queryWords)) starts ∧
   windowScore (windowAt textLower
                  (fst (bestWindow textLower starts queryWords)))
               queryWords =
     snd (bestWindow textLower starts queryWords)).
Proof.
  unfold bestWindow.
  set (score := λ i, windowScore (windowAt textLower i) queryWords).
  set (f := λ (best : nat * nat) (i : nat),
              if snd best <? score i then (i, score i) else best).
  change (Forall (λ i, score i ≤ snd (fold_left f starts (0, 0))) starts ∧
          (fold_left f starts (0, 0) = (0, 0) ∨
           In (fst (fold_left f starts (0, 0))) starts ∧
           score (fst (fold_left f starts (0, 0))) =
             snd (fold_left f starts (0, 0)))).
  induction starts as [|i l IH] using rev_ind; simpl.
  - split; [constructor|left; reflexivity].
  - rewrite fold_left_app. simpl.
    destruct IH as [Hmax Hbest].
    set (best := fold_left f l (0, 0)) in *.
    destruct (snd best <? score i) eqn:E.
    + assert (Ef : f best i = (i, score i))
        by (unfold f; rewrite E; reflexivity).
      rewrite Ef. apply Nat.ltb_lt in E. simpl. split.
      * apply Forall_app. split; [|repeat constructor].
        eapply List.Forall_impl; [|exact Hmax]. simpl. intros; lia.
      * right. split; [|reflexivity].
        apply in_or_app. right. left. reflexivity.
    + assert (Ef : f best i = best) by (unfold f; rewrite E; reflexivity).
      rewrite Ef. apply Nat.ltb_ge in E. split.
      * apply Forall_app. split; [exact Hmax|]. repeat constructor. exact E.
      * destruct Hbest as [Hbest|[Hin Hs]]; [left; exact Hbest|].
        right. split; [apply in_or_app; left; exact Hin|exact Hs].
Qed.

(** C4, amended: for every text and query, the score that
    [getSearchContext] gives a window is the number of query words, each
    counted as often as it occurs in the query, that occur as substrings
    of the window; the windows are cut from the lower-cased text and the
    words from the lower-cased query, so the comparison ignores case;
    the first pass ends with the highest of these scores and, when it is
    not 0, at a window that has it. *)
Theorem windowScore_counts_query_words (text query : jsstring) :
  let textLower := toLowerCase text in
  let queryWords := contextQueryWords toLowerCase query in
  let starts := windowStarts (length text) in
  let best := bestWindow textLower starts queryWords in
  (∀ window,
     windowScore window queryWords =
       length (List.filter (includes window) queryWords) ∧
     Forall (includesSpec window)
            (List.filter (includes window) queryWords)) ∧
  Forall (λ i, windowScore (windowAt textLower i) queryWords ≤ snd best)
         starts ∧
  (best = (0, 0) ∨
   In (fst best) starts ∧
   windowScore (windowAt textLower (fst best)) queryWords = snd best).
Proof.
  cbv zeta. split; [|apply bestWindow_max].
  intros window. split.
  - unfold windowScore. rewrite windowScore_count. reflexivity.
  - rewrite List.Forall_forall. intros word Hw.
    apply List.filter_In in Hw as [_ Hw]. apply includes_spec. exact Hw.
Qed.

End ContextFacts.
(** ** The cache controller *)
Section WorkerFacts.
Import Worker.
Local Open Scope string_scope.

Lemma stripPrefix_app p s : stripPrefix p (p +:+ s) = Some s.
Proof.
  induction p as [|c p IH]; simpl; [destruct s; reflexivity|].
  rewrite Ascii.eqb_refl. exact IH.
Qed.

Lemma stripPrefix_Some p s r : stripPrefix p s = Some r → s = p +:+ r.
Proof.
  revert s; induction p as [|c p IH]; intros s; simpl.
  - destruct s; intros [= <-]; reflexivity.
  - destruct s as [|d s]; [discriminate|].
    destruct (Ascii.eqb c d) eqn:E; [|discriminate].
    apply Ascii.eqb_eq in E as ->. intros H. rewrite (IH s H). reflexivity.
Qed.

Lemma name_startsWith_spec s p : startsWith s p = true ↔ ∃ r, s = p +:+ r.
Proof.
  unfold startsWith. split.
  - destruct (stripPrefix p s) as [r|] eqn:E; [|discriminate].
    intros _. exists r. apply stripPrefix_Some, E.
  - intros [r ->]. rewrite stripPrefix_app. reflexivity.
Qed.

Lemma replaceFirst_unfold p r s :
  replaceFirst p r s =
  match stripPrefix p s with
  | Some rest => r +:+ rest
  | None =>
      match s with
      | EmptyString => EmptyString
      | String c s' => String c (replaceFirst p r s')
      end
  end.
Proof. destruct s; reflexivity. Qed.

Lemma replaceFirst_prefix p s : replaceFirst p "" (p +:+ s) = s.
Proof. rewrite replaceFirst_unfold, stripPrefix_app. reflexivity. Qed.

Lemma manual_name_inj a b : "manual-" +:+ a = "manual-" +:+ b → a = b.
Proof. intros H. lazy in H. congruence. Qed.

(** *** What the storage operations change *)

Lemma cache_put_lookup name key r st n :
  caches (cache_put name key r st) !! n =
  if decide (n = name) then insert key r <$> caches st !! name
  else caches st !! n.
Proof.
  unfold cache_put. simpl.
  destruct (decide (n = name)) as [->|Hne].
  - apply lookup_alter_eq.
  - apply lookup_alter_ne. congruence.
Qed.

Lemma cache_addAll_lookup net name urls st st' n :
  cache_addAll net name urls st = Some st' →
  caches st' !! n =
  if decide (n = name) then stored urls <$> caches st !! name
  else caches st !! n.
Proof.
  unfold cache_addAll. destruct (forallb net urls); [|discriminate].
  intros [= <-]. simpl.
  destruct (decide (n = name)) as [->|Hne].
  - apply lookup_alter_eq.
  - apply lookup_alter_ne. congruence.
Qed.

Lemma cache_addAll_names net name urls st st' :
  cache_addAll net name urls st = Some st' → names st' = names st.
Proof.
  unfold cache_addAll. destruct (forallb net urls); [|discriminate].
  intros [= <-]. reflexivity.
Qed.

Lemma stored_lookup_other urls cache key :
  key ∉ urls → stored urls cache !! key = cache !! key.
Proof.
  revert cache; induction urls as [|u urls IH]; intros cache Hk; simpl;
    [reflexivity|].
  apply not_elem_of_cons in Hk as [Hne Hk].
  rewrite IH by exact Hk. apply lookup_insert_ne. congruence.
Qed.

(** *** The invariant of the storage *)

Lemma consistent_noCaches : Consistent noCaches.
Proof.
  split; simpl.
  - intros name. rewrite lookup_empty. split.
    + intros H. inversion H.
    + intros [x Hx]. discriminate.
  - intros id cache r H. rewrite lookup_empty in H. discriminate.
Qed.

Lemma caches_open_consistent name st :
  Consistent st → Consistent (caches_open name st).
Proof.
  intros [Hn Hm]. unfold caches_open.
  destruct (caches st !! name) as [cache|] eqn:E; [split; assumption|].
  split; simpl.
  - intros n. rewrite elem_of_app, list_elem_of_singleton, Hn.
    destruct (decide (n = name)) as [->|Hne].
    + rewrite lookup_insert_eq. split; [eauto|]. intros _. right. reflexivity.
    + rewrite lookup_insert_ne by congruence. split; [|tauto].
      intros [H|H]; [exact H|contradiction].
  - intros id cache r Hc Hr.
    destruct (decide ("manual-" +:+ id = name)) as [<-|Hne].
    + rewrite lookup_insert_eq in Hc. injection Hc as <-.
      rewrite lookup_empty in Hr. discriminate.
    + rewrite lookup_insert_ne in Hc by congruence. eapply Hm; eassumption.
Qed.

Lemma caches_delete_consistent name st :
  Consistent st → Consistent (fst (caches_delete name st)).
Proof.
  intros [Hn Hm]. unfold caches_delete.
  destruct (caches st !! name) as [cache|] eqn:E; [|split; assumption].
  split; simpl.
  - intros n. rewrite list_elem_of_In, List.filter_In, <- list_elem_of_In, Hn.
    rewrite negb_true_iff, String.eqb_neq.
    destruct (decide (n = name)) as [->|Hne].
    + rewrite lookup_delete_eq. split; [tauto|]. intros [x Hx]. discriminate.
    + rewrite lookup_delete_ne by congruence. tauto.
  - intros id c r Hc Hr. apply lookup_delete_Some in Hc as [_ Hc].
    eapply Hm; eassumption.
Qed.

Lemma delete_some_consistent (f : string → bool) l st :
  Consistent st →
  Consistent
    (fold_left (λ st n, if f n then fst (caches_delete n st) else st) l st).
Proof.
  revert st; induction l as [|n l IH]; intros st H; simpl; [exact H|].
  apply IH. destruct (f n); [apply caches_delete_consistent|]; exact H.
Qed.

Lemma sameOutside_refl name st : sameOutside name st st.
Proof. repeat split; tauto. Qed.

Lemma sameOutside_trans name st1 st2 st3 :
  sameOutside name st1 st2 → sameOutside name st2 st3 →
  sameOutside name st1 st3.
Proof.
  intros (Hn & Ho & Hs) (Hn' & Ho' & Hs'). repeat split.
  - congruence.
  - intros n Hne. rewrite Ho', Ho by exact Hne. reflexivity.
  - rewrite Hs', Hs. tauto.
  - rewrite Hs', Hs. tauto.
Qed.

Lemma cache_put_sameOutside name key r st :
  sameOutside name st (cache_put name key r st).
Proof.
  repeat split; simpl.
  - intros n Hne. apply lookup_alter_ne. congruence.
  - rewrite lookup_alter_eq. intros [x Hx].
    destruct (caches st !! name); [eauto|discriminate].
  - rewrite lookup_alter_eq. intros [x ->]. simpl. eauto.
Qed.

Lemma cache_addAll_sameOutside net name urls st st' :
  cache_addAll net name urls st = Some st' → sameOutside name st st'.
Proof.
  intros H. repeat split.
  - eapply cache_addAll_names, H.
  - intros n Hne. rewrite (cache_addAll_lookup _ _ _ _ _ n H).
    rewrite decide_False by exact Hne. reflexivity.
  - rewrite (cache_addAll_lookup _ _ _ _ _ name H).
    rewrite decide_True by reflexivity. intros [x Hx].
    destruct (caches st !! name); [eauto|discriminate].
  - rewrite (cache_addAll_lookup _ _ _ _ _ name H).
    rewrite decide_True by reflexivity. intros [x ->]. simpl. eauto.
Qed.

(** A change inside one cache keeps the invariant when the metadata key
    of that cache still holds metadata of its manual. *)
Lemma sameOutside_consistent name st st' :
  Consistent st → sameOutside name st st' →
  (∀ id cache r, name = "manual-" +:+ id →
                 caches st' !! name = Some cache →
                 cache !! (name +:+ "-metadata") = Some r →
                 ∃ metadata, r = Json metadata ∧ md_id metadata = id) →
  Consistent st'.
Proof.
  intros [Hn Hm] (Hnames & Hout & Hsome) Hkey. split.
  - intros n. rewrite Hnames, Hn.
    destruct (decide (n = name)) as [->|Hne]; [tauto|].
    rewrite Hout by exact Hne. tauto.
  - intros id cache r Hc Hr.
    destruct (decide ("manual-" +:+ id = name)) as [E|Hne].
    + eapply Hkey; [symmetry; exact E|rewrite <- E; exact Hc|].
      rewrite <- E. exact Hr.
    + rewrite Hout in Hc by exact Hne. eapply Hm; eassumption.
Qed.

Lemma manual_files_relative id fs :
  MANUAL_FILES !! id = Some fs →
  Forall (λ f, startsWith f "./" = true) fs.
Proof.
  intros H. apply elem_of_list_to_map_2 in H.
  repeat (apply elem_of_cons in H as [[= -> ->]|H];
          [repeat constructor|]).
  inversion H.
Qed.

Lemma metadata_key_not_core_file id :
  ("manual-" +:+ id) +:+ "-metadata" ∉ default [] (MANUAL_FILES !! id).
Proof.
  destruct (MANUAL_FILES !! id) as [fs|] eqn:E; simpl;
    [|apply not_elem_of_nil].
  intros Hin. apply manual_files_relative in E.
  rewrite Forall_forall in E. specialize (E _ Hin).
  lazy in E. discriminate.
Qed.

Lemma cacheManual_consistent env id files st :
  Consistent st → Consistent (fst (cacheManual env id files st)).
Proof.
  intros Hst. unfold cacheManual.
  set (name := "manual-" +:+ id).
  pose proof (caches_open_consistent name st Hst) as H1.
  set (st1 := caches_open name st) in *.
  case_bool_decide; [exact H1|].
  destruct (cache_addAll (net env) name _ st1) as [st2|] eqn:E2;
    [|exact H1].
  pose proof (cache_addAll_sameOutside _ _ _ _ _ E2) as S2.
  assert (H2 : Consistent st2).
  { apply (sameOutside_consistent name st1); [exact H1|exact S2|].
    intros id0 cache r Hname Hc Hr.
    apply manual_name_inj in Hname. subst id0.
    rewrite (cache_addAll_lookup _ _ _ _ _ name E2) in Hc.
    rewrite decide_True in Hc by reflexivity.
    destruct (caches st1 !! name) as [cache1|] eqn:E1; [|discriminate].
    injection Hc as <-.
    rewrite stored_lookup_other in Hr by apply metadata_key_not_core_file.
    eapply (metadata_tagged _ H1); eassumption. }
  match goal with
  | |- context [match ?a with Some _ => _ | None => _ end] =>
      destruct a as [st3|] eqn:E3
  end; [|exact H2].
  simpl.
  assert (S3 : sameOutside name st2 st3).
  { destruct files as [[|f fs]|]; try (injection E3 as <-;
      apply sameOutside_refl).
    eapply cache_addAll_sameOutside, E3. }
  apply (sameOutside_consistent name st2); [exact H2| |].
  - eapply sameOutside_trans; [exact S3|apply cache_put_sameOutside].
  - intros id0 cache r Hname Hc Hr.
    apply manual_name_inj in Hname. subst id0.
    rewrite cache_put_lookup, decide_True in Hc by reflexivity.
    destruct (caches st3 !! name) as [cache3|]; [|discriminate].
    injection Hc as <-. rewrite lookup_insert_eq in Hr.
    injection Hr as <-. eexists. split; reflexivity.
Qed.

Lemma core_cache_not_manual id : CORE_CACHE_NAME ≠ "manual-" +:+ id.
Proof. intros H. lazy in H. discriminate. Qed.

Lemma onInstall_consistent env ws :
  Consistent (storage ws) → Consistent (storage (onInstall env ws)).
Proof.
  intros H. unfold onInstall.
  pose proof (caches_open_consistent CORE_CACHE_NAME _ H) as H1.
  destruct (cache_addAll _ _ _ _) as [st2|] eqn:E; simpl; [|exact H1].
  apply (sameOutside_consistent CORE_CACHE_NAME _ st2 H1).
  - eapply cache_addAll_sameOutside, E.
  - intros id cache r Hname. destruct (core_cache_not_manual id Hname).
Qed.

Lemma readMetadata_consistent name st :
  Consistent st → name ∈ names st → startsWith name "manual-" = true →
  ∃ metadata, readMetadata name st = (st, Some metadata) ∧
              md_id metadata = replaceFirst "manual-" "" name.
Proof.
  intros H Hin Hpre.
  apply name_startsWith_spec in Hpre as [id ->].
  apply (names_listed _ H) in Hin as [cache Hc].
  unfold readMetadata, caches_open. rewrite Hc. cbv zeta. rewrite Hc.
  rewrite (replaceFirst_prefix "manual-" id). simpl.
  destruct (cache !! (("manual-" +:+ id) +:+ "-metadata")) as [r|] eqn:Er.
  - destruct (metadata_tagged _ H id cache r Hc Er) as (m & -> & Hm).
    exists m. split; [reflexivity|exact Hm].
  - eexists. split; reflexivity.
Qed.

Lemma readManuals_consistent l st :
  Consistent st →
  Forall (λ name, name ∈ names st ∧ startsWith name "manual-" = true) l →
  ∃ manuals, readManuals l st = (st, Some manuals) ∧
             map md_id manuals = map (replaceFirst "manual-" "") l.
Proof.
  intros H. induction 1 as [|name l [Hin Hpre] _ IH]; simpl.
  - exists []. split; reflexivity.
  - destruct (readMetadata_consistent name st H Hin Hpre) as (m & -> & Hm).
    destruct IH as (ms & -> & Hms). exists (m :: ms). simpl.
    split; [reflexivity|]. rewrite Hm, Hms. reflexivity.
Qed.

Lemma getOfflineManuals_consistent st :
  Consistent st →
  ∃ manuals,
    getOfflineManuals st = (st, OfflineManuals manuals) ∧
    map md_id manuals =
      map (replaceFirst "manual-" "")
          (List.filter (λ name, startsWith name "manual-") (names st)).
Proof.
  intros H. unfold getOfflineManuals.
  destruct (readManuals_consistent
              (List.filter (λ name, startsWith name "manual-") (names st))
              st H) as (ms & -> & Hms).
  - rewrite Forall_forall. intros name Hn.
    apply list_elem_of_In, List.filter_In in Hn as [Hn Hp].
    split; [apply list_elem_of_In, Hn|exact Hp].
  - exists ms. split; [reflexivity|exact Hms].
Qed.

Lemma onMessage_consistent env msg ws :
  Consistent (storage ws) →
  Consistent (storage (fst (onMessage env msg ws))).
Proof.
  intros H. unfold onMessage, post, withStorage.
  repeat match goal with
         | |- context [if String.eqb ?a ?b then _ else _] =>
             destruct (String.eqb a b)
         end; simpl; try exact H.
  - apply cacheManual_consistent, H.
  - unfold removeManual.
    pose proof (caches_delete_consistent ("manual-" +:+ manualId msg) _ H).
    destruct (caches_delete _ _). assumption.
  - destruct (getOfflineManuals_consistent _ H) as (ms & -> & _). exact H.
Qed.

Lemma step_consistent ws t :
  Consistent (storage ws) → Consistent (storage (step ws t)).
Proof.
  intros H. destruct t as [env| |env msg|]; simpl.
  - apply onInstall_consistent, H.
  - apply (delete_some_consistent
             (λ n, negb (String.eqb n CORE_CACHE_NAME) &&
                   negb (startsWith n "manual-"))), H.
  - apply onMessage_consistent, H.
  - apply (delete_some_consistent (λ _, true)), H.
Qed.

Lemma run_consistent ts : Consistent (storage (run ts)).
Proof.
  unfold run.
  assert (G : ∀ ws, Consistent (storage ws) →
                    Consistent (storage (fold_left step ts ws))).
  { induction ts as [|t ts IH]; intros ws H; simpl; [exact H|].
    apply IH, step_consistent, H. }
  apply G, consistent_noCaches.
Qed.

Lemma reportedOffline_consistent ws id :
  Consistent (storage ws) →
  id ∈ reportedOffline ws ↔ manualCacheExists ws id.
Proof.
  intros H. unfold reportedOffline, manualCacheExists.
  destruct (getOfflineManuals_consistent _ H) as (ms & -> & Hms). simpl.
  rewrite Hms, <- (names_listed _ H), list_elem_of_fmap. split.
  - intros (name & -> & Hn).
    apply list_elem_of_In, List.filter_In in Hn as [Hn Hp].
    apply name_startsWith_spec in Hp as [id' ->].
    rewrite replaceFirst_prefix. apply list_elem_of_In, Hn.
  - intros Hn. exists ("manual-" +:+ id). split.
    + rewrite replaceFirst_prefix. reflexivity.
    + apply list_elem_of_In, List.filter_In. split.
      * apply list_elem_of_In, Hn.
      * apply name_startsWith_spec. eexists. reflexivity.
Qed.

(** C6, as the specification states it, fails: after a [cache-manual]
    request whose fetches fail, [get-offline-manuals] reports the manual
    although its cache is empty and has no metadata entry. *)
Lemma offline_invariant_refuted :
  let ws := run [Receive Examples.offlineEnv Examples.downloadRequest] in
  snd (onMessage Examples.offlineEnv Examples.downloadRequest initial)
    = Some (CacheManualFailed "HRN113-001") ∧
  caches (storage ws) !! "manual-HRN113-001" = Some ∅ ∧
  "HRN113-001" ∈ reportedOffline ws ∧
  ¬ taggedCacheExists ws "HRN113-001" ∧
  ¬ (∀ ts id, id ∈ reportedOffline (run ts) ↔ taggedCacheExists (run ts) id).
Proof.
  assert (Hc : caches (storage (run [Receive Examples.offlineEnv
                                       Examples.downloadRequest]))
               !! "manual-HRN113-001" = Some ∅)
    by (vm_compute; reflexivity).
  assert (Hr : "HRN113-001" ∈ reportedOffline
                 (run [Receive Examples.offlineEnv
                         Examples.downloadRequest])).
  { apply reportedOffline_consistent; [apply run_consistent|].
    unfold manualCacheExists. change ("manual-" +:+ "HRN113-001")
      with "manual-HRN113-001". rewrite Hc. eauto. }
  assert (Ht : ¬ taggedCacheExists
                 (run [Receive Examples.offlineEnv
                         Examples.downloadRequest]) "HRN113-001").
  { intros (cache & m & Hcache & Hne & _).
    change ("manual-" +:+ "HRN113-001") with "manual-HRN113-001" in Hcache.
    rewrite Hc in Hcache. injection Hcache as <-. apply Hne. reflexivity. }
  cbv zeta. split; [vm_compute; reflexivity|].
  split; [exact Hc|]. split; [exact Hr|]. split; [exact Ht|].
  intros Hall. apply Ht, Hall, Hr.
Qed.

(** C6, amended: in every reachable state of the cache subsystem,
    [get-offline-manuals] reports a manual identifier if and only if a
    cache named [manual-<id>] exists in the storage, whether or not the
    cache is empty or holds a metadata entry (a cache without one is
    reported with a zero-filled record); the request always succeeds
    and leaves the storage as it is. *)
Theorem offline_set_is_manual_caches (ts : list Transition) (id : string) :
  (id ∈ reportedOffline (run ts) ↔ manualCacheExists (run ts) id) ∧
  ∃ manuals,
    getOfflineManuals (storage (run ts)) =
      (storage (run ts), OfflineManuals manuals).
Proof.
  split.
  - apply reportedOffline_consistent, run_consistent.
  - destruct (getOfflineManuals_consistent _ (run_consistent ts))
      as (ms & E & _).
    exists ms. exact E.
Qed.

(** C9, as the specification states it, fails: a request with the
    action "skip-waiting" is answered as an unknown action and the
    waiting worker stays waiting. *)
Lemma skip_waiting_refuted :
  onMessage Examples.offlineEnv Examples.skipWaitingRequest initial =
    (initial, Some (ErrorReply "Unknown action: skip-waiting")) ∧
  lifecycle (fst (onMessage Examples.offlineEnv Examples.skipWaitingRequest
                            initial)) = Waiting.
Proof. split; reflexivity. Qed.

(** C9, amended: the action name that the worker accepts, and that
    [performUpdate] sends to a waiting worker, is "skipWaiting": on it
    the worker activates at once, posts no reply and leaves the caches
    alone; the message that [performUpdate] posts when a worker is
    waiting after the update is that one. *)
Theorem skipWaiting_action (env : Env) (id : string)
  (fs : option (list string)) (port : bool) (ws : WorkerState)
  (active updated waiting : bool) (c : Offline.Coordinator) :
  onMessage env {| action := "skipWaiting"; manualId := id; files := fs;
                   hasPort := port |} ws =
    ({| storage := storage ws; lifecycle := Active |}, None) ∧
  List.filter (λ e, match e with
                    | Offline.PostToWaiting _ => true
                    | _ => false
                    end)
              (Offline.performUpdate active updated waiting c) =
    (if Offline.swRegistration c && active &&
        negb (Offline.serviceWorkerFailed c) && updated && waiting
     then [Offline.PostToWaiting "skipWaiting"] else []) ∧
  onMessage env (Offline.delivered "skipWaiting") ws =
    ({| storage := storage ws; lifecycle := Active |}, None).
Proof.
  split; [reflexivity|]. split; [|reflexivity].
  unfold Offline.performUpdate.
  destruct (Offline.swRegistration c), active,
    (Offline.serviceWorkerFailed c), updated, waiting; reflexivity.
Qed.

End WorkerFacts.
(** ** The offline coordinator *)
Section OfflineFacts.
Import Offline.
Local Open Scope string_scope.

(** *** Sets *)

Lemma set_add_elem x y s : y ∈ set_add x s ↔ y = x ∨ y ∈ s.
Proof.
  unfold set_add. case_bool_decide as Hx.
  - split; [tauto|]. intros [->|H]; assumption.
  - rewrite elem_of_app, list_elem_of_singleton. tauto.
Qed.

Lemma set_of_array_fold l acc x :
  x ∈ fold_left (λ s x, set_add x s) l acc ↔ x ∈ acc ∨ x ∈ l.
Proof.
  revert acc; induction l as [|y l IH]; intros acc; simpl.
  - rewrite elem_of_nil. tauto.
  - rewrite IH, set_add_elem, elem_of_cons. tauto.
Qed.

Lemma set_of_array_elem l x : x ∈ set_of_array l ↔ x ∈ l.
Proof.
  unfold set_of_array. rewrite set_of_array_fold, elem_of_nil. tauto.
Qed.

Lemma set_of_array_NoDup_fold l acc :
  NoDup acc → NoDup (fold_left (λ s x, set_add x s) l acc).
Proof.
  revert acc; induction l as [|y l IH]; intros acc Hacc; simpl;
    [exact Hacc|].
  apply IH. unfold set_add. case_bool_decide as Hy; [exact Hacc|].
  apply NoDup_app. split; [exact Hacc|]. split.
  - intros z Hz Hz'. apply list_elem_of_singleton in Hz' as ->. contradiction.
  - apply NoDup_singleton.
Qed.

Lemma set_of_array_NoDup l : NoDup (set_of_array l).
Proof. apply set_of_array_NoDup_fold, NoDup_nil_2. Qed.

(** An array without repetitions, such as [Array.from(set)], gives back
    the set it came from, in the same order. *)
Lemma set_of_array_fold_NoDup l acc :
  NoDup (acc ++ l) → fold_left (λ s x, set_add x s) l acc = (acc ++ l)%list.
Proof.
  revert acc; induction l as [|y l IH]; intros acc H; simpl.
  - rewrite app_nil_r. reflexivity.
  - assert (Hy : y ∉ acc).
    { apply NoDup_app in H as (_ & H & _). intros Hin.
      apply (H y Hin). left. }
    unfold set_add at 2. rewrite bool_decide_eq_false_2 by exact Hy.
    rewrite IH; rewrite <- app_assoc; [reflexivity|exact H].
Qed.

Lemma set_of_array_Array_from l : NoDup l → set_of_array l = l.
Proof. intros H. apply (set_of_array_fold_NoDup l []). exact H. Qed.

(** *** [loadOfflineManuals] *)


(** *** [downloadManual] *)

(** What one step does to [pendingDownloads]. *)
Lemma downloadStep_in_flight id ph input c :
  inFlight ph = true →
  (inFlight (downloadStep id ph input c).1.1 = true ∧
   (downloadStep id ph input c).1.2 = c) ∨
  (inFlight (downloadStep id ph input c).1.1 = false ∧
   pendingDownloads (downloadStep id ph input c).1.2 =
     pendingDownloads c ∖ {[id]}).
Proof.
  destruct ph; try discriminate; intros _;
    destruct input as [|fs|[|]|[r|] st]; simpl; auto.
  - destruct (swRegistration c); simpl; auto.
  - destruct (success r); [destruct st|]; simpl; auto.
Qed.

Lemma downloadStep_not_in_flight id ph input c :
  inFlight ph = false →
  (inFlight (downloadStep id ph input c).1.1 = false ∧
   (downloadStep id ph input c).1.2 = c) ∨
  ((id ∉ pendingDownloads c) ∧
   inFlight (downloadStep id ph input c).1.1 = true ∧
   pendingDownloads (downloadStep id ph input c).1.2 =
     {[id]} ∪ pendingDownloads c).
Proof.
  destruct ph; try discriminate; intros _; destruct input; simpl; auto.
  case_bool_decide as Hp; simpl; auto.
  destruct (serviceWorkerFailed c || negb (swRegistration c)); simpl; auto.
Qed.


(** *** Interleaved calls *)

Lemma Guarded_place c ts ts' es es' k id ph input :
  Guarded {| coordinator := c; tasks := ts; effects := es |} →
  ts !! k = Some {| task_manual := id; task_phase := ph |} ∨
  (ts !! k = None ∧ inFlight ph = false) →
  (∀ m, m ≠ k → ts' !! m = ts !! m) →
  ts' !! k = Some {| task_manual := id;
                     task_phase := (downloadStep id ph input c).1.1 |} →
  Guarded {| coordinator := (downloadStep id ph input c).1.2;
             tasks := ts'; effects := es' |}.
Proof.
  intros [I1 I2] Hk Hother Hnew. simpl in I1, I2.
  assert (Hold : ∀ m t, m ≠ k → ts' !! m = Some t → ts !! m = Some t).
  { intros m t Hm Ht. rewrite <- (Hother m Hm). exact Ht. }
  destruct (inFlight ph) eqn:Eph.
  - destruct Hk as [Hk|[_ Hk]]; [|discriminate].
    destruct (downloadStep_in_flight id ph input c Eph)
      as [[Hfl Hc]|[Hfl Hp]].
    + rewrite Hc. split; simpl.
      * intros n t Hn Ht. destruct (decide (n = k)) as [->|Hne].
        -- rewrite Hnew in Hn. injection Hn as <-. simpl.
           apply (I1 k _ Hk Eph).
        -- apply (I1 n t (Hold n t Hne Hn) Ht).
      * intros n m t u Hn Hm Ht Hu Hid.
        assert (G : ∀ i v, ts' !! i = Some v →
                    inFlight (task_phase v) = true →
                    ∃ v', ts !! i = Some v' ∧
                          inFlight (task_phase v') = true ∧
                          task_manual v' = task_manual v).
        { intros i v Hi Hv. destruct (decide (i = k)) as [->|Hne].
          - rewrite Hnew in Hi. injection Hi as <-.
            eexists. split; [exact Hk|]. split; [exact Eph|reflexivity].
          - exists v. split; [apply Hold; assumption|]. split; auto. }
        destruct (G n t Hn Ht) as (t' & Hn' & Ht' & Et).
        destruct (G m u Hm Hu) as (u' & Hm' & Hu' & Eu).
        apply (I2 n m t' u' Hn' Hm' Ht' Hu'). congruence.
    + split; simpl.
      * intros n t Hn Ht. destruct (decide (n = k)) as [->|Hne].
        -- rewrite Hnew in Hn. injection Hn as <-. simpl in Ht. congruence.
        -- pose proof (I1 n t (Hold n t Hne Hn) Ht) as Hin.
           rewrite Hp. apply elem_of_difference. split; [exact Hin|].
           intros Heq. apply elem_of_singleton in Heq.
           apply Hne.
           apply (I2 n k t _ (Hold n t Hne Hn) Hk Ht Eph). exact Heq.
      * intros n m t u Hn Hm Ht Hu Hid.
        destruct (decide (n = k)) as [->|Hn'].
        { rewrite Hnew in Hn. injection Hn as <-. simpl in Ht. congruence. }
        destruct (decide (m = k)) as [->|Hm'].
        { rewrite Hnew in Hm. injection Hm as <-. simpl in Hu. congruence. }
        apply (I2 n m t u); auto.
  - destruct (downloadStep_not_in_flight id ph input c Eph)
      as [[Hfl Hc]|(Hnp & Hfl & Hp)].
    + rewrite Hc. split; simpl.
      * intros n t Hn Ht. destruct (decide (n = k)) as [->|Hne].
        -- rewrite Hnew in Hn. injection Hn as <-. simpl in Ht. congruence.
        -- apply (I1 n t (Hold n t Hne Hn) Ht).
      * intros n m t u Hn Hm Ht Hu Hid.
        destruct (decide (n = k)) as [->|Hn'].
        { rewrite Hnew in Hn. injection Hn as <-. simpl in Ht. congruence. }
        destruct (decide (m = k)) as [->|Hm'].
        { rewrite Hnew in Hm. injection Hm as <-. simpl in Hu. congruence. }
        apply (I2 n m t u); auto.
    + split; simpl.
      * intros n t Hn Ht. rewrite Hp. apply elem_of_union.
        destruct (decide (n = k)) as [->|Hne].
        -- rewrite Hnew in Hn. injection Hn as <-. simpl.
           left. apply elem_of_singleton. reflexivity.
        -- right. apply (I1 n t (Hold n t Hne Hn) Ht).
      * intros n m t u Hn Hm Ht Hu Hid.
        destruct (decide (n = k)) as [->|Hn'];
          destruct (decide (m = k)) as [->|Hm']; [reflexivity| | |].
        -- rewrite Hnew in Hn. injection Hn as <-. simpl in Hid.
           destruct Hnp. rewrite Hid.
           apply (I1 m u (Hold m u Hm' Hm) Hu).
        -- rewrite Hnew in Hm. injection Hm as <-. simpl in Hid.
           destruct Hnp. rewrite <- Hid.
           apply (I1 n t (Hold n t Hn' Hn) Ht).
        -- apply (I2 n m t u); auto.
Qed.

Lemma systemStep_Guarded s e : Guarded s → Guarded (systemStep s e).
Proof.
  destruct s as [c ts es]. intros H.
  destruct e as [id|n input|offline stored]; cbn [systemStep tasks];
    [| |exact H].
  - unfold advance. cbn [coordinator tasks effects].
    destruct (downloadStep id NotStarted Call c) as [[ph' c'] es'] eqn:E.
    cbn [coordinator tasks effects].
    pose proof (Guarded_place c ts
                  (ts ++ [{| task_manual := id; task_phase := ph' |}])
                  es (es ++ es') (length ts) id NotStarted Call H) as G.
    rewrite E in G. simpl in G. apply G.
    + right. split; [apply lookup_ge_None_2; lia|reflexivity].
    + intros m Hm. destruct (decide (m < length ts)).
      * apply lookup_app_l. assumption.
      * rewrite !lookup_ge_None_2; [reflexivity|lia|].
        rewrite length_app. simpl. lia.
    + rewrite lookup_app_r by lia. rewrite Nat.sub_diag. reflexivity.
  - destruct (ts !! n) as [[id ph]|] eqn:En; [|exact H].
    unfold advance. cbn [coordinator tasks effects task_manual task_phase].
    destruct (downloadStep id ph input c) as [[ph' c'] es'] eqn:E.
    cbn [coordinator tasks effects].
    pose proof (Guarded_place c ts
                  (<[n := {| task_manual := id; task_phase := ph' |}]> ts)
                  es (es ++ es') n id ph input H) as G.
    rewrite E in G. simpl in G. apply G.
    + left. exact En.
    + intros m Hm. apply list_lookup_insert_ne. congruence.
    + apply list_lookup_insert_eq. eapply lookup_lt_Some, En.
Qed.

Lemma runSystem_Guarded c0 events : Guarded (runSystem c0 events).
Proof.
  unfold runSystem.
  assert (G : ∀ s, Guarded s → Guarded (fold_left systemStep events s)).
  { induction events as [|e events IH]; intros s H; simpl; [exact H|].
    apply IH, systemStep_Guarded, H. }
  apply G. split; simpl.
  - intros n t Hn. rewrite lookup_nil in Hn. discriminate.
  - intros n m t u Hn. rewrite lookup_nil in Hn. discriminate.
Qed.

Lemma inFlightFor_pending id s :
  Guarded s → inFlightFor id s ≠ [] → id ∈ pendingDownloads (coordinator s).
Proof.
  intros [I1 _] Hne. unfold inFlightFor in Hne.
  destruct (List.filter _ (tasks s)) as [|t l] eqn:E; [contradiction|].
  assert (Hin : In t (List.filter
                        (λ t, String.eqb (task_manual t) id &&
                              inFlight (task_phase t)) (tasks s)))
    by (rewrite E; left; reflexivity).
  apply List.filter_In in Hin as [Hin Ht].
  apply andb_true_iff in Ht as [Hid Hfl].
  apply String.eqb_eq in Hid as <-.
  apply list_elem_of_In, list_elem_of_lookup in Hin as [n Hn].
  apply (I1 n t Hn Hfl).
Qed.

Lemma not_pending_after_delete (id : string) (p : gset string) :
  id ∉ p ∖ {[id]}.
Proof.
  intros H. apply elem_of_difference in H as [_ H].
  apply H, elem_of_singleton. reflexivity.
Qed.

(** *** An uninterrupted call *)





End OfflineFacts.
(** ** More about the results of [search] *)
Section RankingFacts.
Import Search Ranking.
Variable toLowerCase : jsstring → jsstring.

(** *** The tokenizer *)

Lemma forallb_rev {A} (f : A → bool) l : forallb f (rev l) = forallb f l.
Proof.
  induction l as [|x l IH]; simpl; [reflexivity|].
  rewrite forallb_app, IH. simpl. rewrite andb_true_r. apply andb_comm.
Qed.

Lemma flush_class (cls : codeunit → bool) cur :
  forallb cls cur = true →
  Forall (λ t, t ≠ [] ∧ forallb cls t = true) (flush cur).
Proof.
  intros H. destruct cur as [|c cur]; simpl; [constructor|].
  repeat constructor.
  - intros E. apply app_eq_nil in E as [_ E]. discriminate.
  - rewrite forallb_app, forallb_rev. simpl in *.
    apply andb_true_iff in H as [Hc Hcur]. rewrite Hcur, Hc. reflexivity.
Qed.

Lemma matchRuns_class (cls : codeunit → bool) s cur :
  forallb cls cur = true →
  Forall (λ t, t ≠ [] ∧ forallb cls t = true) (matchRuns cls s cur).
Proof.
  revert cur; induction s as [|c s IH]; intros cur H; simpl.
  - apply flush_class, H.
  - destruct (cls c) eqn:E.
    + apply IH. simpl. rewrite E, H. reflexivity.
    + apply Forall_app. split; [apply flush_class, H|].
      apply IH. reflexivity.
Qed.

Lemma concat_flush cur : concat (flush cur) = rev cur.
Proof. destruct cur; simpl; [reflexivity|]. apply app_nil_r. Qed.

Lemma matchRuns_concat (cls : codeunit → bool) s cur :
  concat (matchRuns cls s cur) = (rev cur ++ List.filter cls s)%list.
Proof.
  revert cur; induction s as [|c s IH]; intros cur; simpl.
  - rewrite concat_flush, app_nil_r. reflexivity.
  - destruct (cls c).
    + rewrite IH. simpl. rewrite <- app_assoc. reflexivity.
    + rewrite concat_app, concat_flush, IH. reflexivity.
Qed.

Lemma matchRuns_split (cls : codeunit → bool) a c b cur :
  cls c = false →
  matchRuns cls (a ++ c :: b) cur =
  (matchRuns cls a cur ++ matchRuns cls b [])%list.
Proof.
  intros Hc. revert cur; induction a as [|x a IH]; intros cur; simpl.
  - rewrite Hc. reflexivity.
  - destruct (cls x); [apply IH|].
    rewrite IH, <- app_assoc. reflexivity.
Qed.

Lemma matchRuns_word (cls : codeunit → bool) s cur :
  forallb cls s = true →
  matchRuns cls s cur = flush (rev s ++ cur).
Proof.
  revert cur; induction s as [|c s IH]; intros cur H; simpl; [reflexivity|].
  simpl in H. apply andb_true_iff in H as [Hc Hs]. rewrite Hc, IH by exact Hs.
  rewrite <- app_assoc. reflexivity.
Qed.

(** X1: The words that [s.match(/[cls]+/g) || []] gives are not empty and
    consist of code units of the class, and one after the other they are
    the code units of the class in [s], in order. *)
Theorem matchAll_words (cls : codeunit → bool) (s : jsstring) :
  Forall (λ t, t ≠ [] ∧ forallb cls t = true) (matchAll cls s) ∧
  concat (matchAll cls s) = List.filter cls s.
Proof.
  split.
  - apply matchRuns_class. reflexivity.
  - unfold matchAll. rewrite matchRuns_concat. reflexivity.
Qed.

(** X2: The words are the maximal runs: a string of code units of the class
    is one word, and a code unit outside the class separates the words
    before it from the words after it. *)
Theorem matchAll_maximal_runs (cls : codeunit → bool) (w a b : jsstring)
  (c : codeunit) :
  w ≠ [] → forallb cls w = true → cls c = false →
  matchAll cls w = [w] ∧
  matchAll cls (a ++ c :: b) = (matchAll cls a ++ matchAll cls b)%list ∧
  matchAll cls (a ++ c :: w) = (matchAll cls a ++ [w])%list.
Proof.
  intros Hw Hcls Hc.
  assert (E : matchAll cls w = [w]).
  { unfold matchAll. rewrite matchRuns_word by exact Hcls.
    rewrite app_nil_r.
    assert (F : ∀ cur : jsstring, cur ≠ [] → flush cur = [rev cur])
      by (intros [|x l] Hne; [contradiction|reflexivity]).
    rewrite F, rev_involutive; [reflexivity|].
    intros Er. apply (f_equal (@rev _)) in Er.
    rewrite rev_involutive in Er. contradiction. }
  split; [exact E|]. split.
  - apply matchRuns_split, Hc.
  - unfold matchAll in *. rewrite matchRuns_split by exact Hc.
    rewrite E. reflexivity.
Qed.

Lemma matchAll_maximal_runs_witness :
  matchAll danishWordPattern (lit "motor") = [lit "motor"] ∧
  matchAll danishWordPattern (lit "m113" ++ 32%N :: lit "motor") =
    (matchAll danishWordPattern (lit "m113") ++ [lit "motor"])%list.
Proof.
  destruct (matchAll_maximal_runs danishWordPattern (lit "motor")
              (lit "m113") [] 32%N) as (H1 & _ & H3).
  - discriminate.
  - reflexivity.
  - reflexivity.
  - split; [exact H1|exact H3].
Defined.

(** *** Queries without a word of three letters *)

Lemma collectMatches_short w qws :
  Forall (λ word, length word < 3) qws →
  collectMatches w qws = emptyMatches.
Proof.
  intros H. unfold collectMatches. generalize emptyMatches.
  induction H as [|q qws Hq _ IH]; intros pm0; simpl; [reflexivity|].
  unfold matchQueryWord at 2.
  apply Nat.ltb_lt in Hq. rewrite Hq. apply IH.
Qed.

(** X3: [search] returns no result for a query none of whose words has three
    letters (in particular for a query without letters). *)
Theorem search_short_words (words : option WordIndex) (pages : list Page)
  (query : jsstring) :
  Forall (λ word, length word < 3) (searchQueryWords toLowerCase query) →
  search toLowerCase words pages query = [].
Proof.
  intros H. destruct words as [w|]; [|reflexivity].
  unfold search. rewrite collectMatches_short by exact H. reflexivity.
Qed.

(** *** What [pageMatches] records *)

Lemma firstContext_app_touched p l l' :
  onPage p l ≠ [] → firstContext p (l ++ l') = firstContext p l.
Proof.
  unfold firstContext. rewrite onPage_app.
  destruct (onPage p l); [contradiction|reflexivity].
Qed.

Lemma onPage_other p t :
  pageId (t_occurrence t) ≠ p → onPage p [t] = [].
Proof.
  intros H. unfold onPage. simpl.
  destruct (pageId (t_occurrence t) =? p)%N eqn:E; [|reflexivity].
  apply N.eqb_eq in E. contradiction.
Qed.

Lemma onPage_same t : onPage (pageId (t_occurrence t)) [t] = [t].
Proof. unfold onPage. simpl. rewrite N.eqb_refl. reflexivity. Qed.

Lemma recorded_step done pm t :
  recorded done pm → recorded (done ++ [t]) (applyTriple pm t).
Proof.
  intros (Hnd & Hdom & Hnone & Hsome).
  unfold applyTriple, addMatch.
  remember (pageId (t_occurrence t)) as k eqn:Hk.
  destruct (props pm !! k) as [e|] eqn:E; unfold recorded;
    cbn [props created].
  - split; [exact Hnd|]. split; [|split].
    + intros p. rewrite Hdom. destruct (decide (p = k)) as [->|Hne].
      * rewrite lookup_alter_eq, E. simpl. split; eauto.
      * rewrite lookup_alter_ne by congruence. reflexivity.
    + intros p Hp. destruct (decide (p = k)) as [->|Hne].
      * rewrite lookup_alter_eq, E in Hp. discriminate.
      * rewrite lookup_alter_ne in Hp by congruence.
        rewrite onPage_app, (Hnone p Hp), onPage_other by congruence.
        reflexivity.
    + intros p e' Hp. destruct (decide (p = k)) as [->|Hne].
      * rewrite lookup_alter_eq, E in Hp. injection Hp as <-.
        destruct (Hsome k e E) as (Ht & Hid & Hc & Hw). simpl.
        rewrite firstContext_app_touched by exact Ht.
        rewrite onPage_app, map_app, Hk, onPage_same, <- Hk. simpl.
        repeat split; try assumption; [|rewrite Hw; reflexivity].
        intros C. apply app_eq_nil in C as [_ C]. discriminate.
      * rewrite lookup_alter_ne in Hp by congruence.
        destruct (Hsome p e' Hp) as (Ht & Hid & Hc & Hw).
        rewrite firstContext_app_touched by exact Ht.
        rewrite onPage_app, onPage_other, app_nil_r by congruence.
        repeat split; assumption.
  - assert (Hfresh : k ∉ created pm).
    { intros Hin. apply Hdom in Hin as [x Hx]. congruence. }
    split; [|split; [|split]].
    + apply NoDup_app. split; [exact Hnd|]. split; [|apply NoDup_singleton].
      intros x Hx Hx'. apply list_elem_of_singleton in Hx' as ->.
      contradiction.
    + intros p. rewrite elem_of_app, list_elem_of_singleton, Hdom.
      destruct (decide (p = k)) as [->|Hne].
      * rewrite lookup_alter_eq, lookup_insert_eq. simpl.
        split; [eauto|]. intros _. right. reflexivity.
      * rewrite lookup_alter_ne, lookup_insert_ne by congruence.
        split; [|tauto]. intros [H|H]; [exact H|contradiction].
    + intros p Hp. destruct (decide (p = k)) as [->|Hne].
      * rewrite lookup_alter_eq, lookup_insert_eq in Hp. discriminate.
      * rewrite lookup_alter_ne, lookup_insert_ne in Hp by congruence.
        rewrite onPage_app, (Hnone p Hp), onPage_other by congruence.
        reflexivity.
    + intros p e' Hp. destruct (decide (p = k)) as [->|Hne].
      * rewrite lookup_alter_eq, lookup_insert_eq in Hp.
        injection Hp as <-. simpl. unfold firstContext.
        rewrite onPage_app, (Hnone k E), Hk, onPage_same. simpl.
        repeat split; try reflexivity. discriminate.
      * rewrite lookup_alter_ne, lookup_insert_ne in Hp by congruence.
        destruct (Hsome p e' Hp) as (Ht & Hid & Hc & Hw).
        rewrite firstContext_app_touched by exact Ht.
        rewrite onPage_app, onPage_other, app_nil_r by congruence.
        repeat split; assumption.
Qed.

Lemma recorded_fold ts done pm :
  recorded done pm → recorded (done ++ ts) (fold_left applyTriple ts pm).
Proof.
  revert done pm; induction ts as [|t ts IH]; intros done pm H; simpl.
  - rewrite app_nil_r. exact H.
  - replace (done ++ t :: ts)%list with ((done ++ [t]) ++ ts)%list
      by (rewrite <- app_assoc; reflexivity).
    apply IH, recorded_step, H.
Qed.

Lemma collectMatches_recorded w qws :
  recorded (contributions w qws) (collectMatches w qws).
Proof.
  rewrite collectMatches_contributions.
  apply (recorded_fold _ [] emptyMatches).
  split; [apply NoDup_nil_2|]. split; [|split]; simpl.
  - intros p. rewrite lookup_empty. split.
    + intros H. inversion H.
    + intros [x Hx]. discriminate.
  - reflexivity.
  - intros p e H. rewrite lookup_empty in H. discriminate.
Qed.

(** *** The keys of [pageMatches] *)

Lemma insertAsc_Permutation k l : Permutation (insertAsc k l) (k :: l).
Proof.
  induction l as [|x l IH]; simpl; [reflexivity|].
  destruct (k <=? x)%N; [reflexivity|].
  rewrite IH. apply perm_swap.
Qed.

Lemma sortAsc_Permutation l : Permutation (sortAsc l) l.
Proof.
  induction l as [|k l IH]; simpl; [reflexivity|].
  rewrite insertAsc_Permutation, IH. reflexivity.
Qed.

Lemma insertAsc_sorted k l :
  StronglySorted N.le l → StronglySorted N.le (insertAsc k l).
Proof.
  induction 1 as [|x l Hs IH Hx]; simpl.
  - repeat constructor.
  - destruct (k <=? x)%N eqn:E.
    + apply N.leb_le in E. constructor; [constructor; assumption|].
      constructor; [exact E|].
      eapply List.Forall_impl; [|exact Hx]. simpl. intros; lia.
    + apply N.leb_gt in E. constructor; [exact IH|].
      rewrite insertAsc_Permutation. constructor; [lia|exact Hx].
Qed.

Lemma sortAsc_sorted l : StronglySorted N.le (sortAsc l).
Proof.
  induction l as [|k l IH]; simpl; [constructor|].
  apply insertAsc_sorted, IH.
Qed.

Lemma filter_partition_Permutation {A} (f : A → bool) l :
  Permutation (List.filter f l ++ List.filter (λ x, negb (f x)) l) l.
Proof.
  induction l as [|x l IH]; simpl; [reflexivity|].
  destruct (f x); simpl.
  - constructor. exact IH.
  - rewrite <- Permutation_middle. constructor. exact IH.
Qed.

Lemma matchKeys_Permutation pm : Permutation (matchKeys pm) (created pm).
Proof.
  unfold matchKeys. rewrite sortAsc_Permutation.
  apply filter_partition_Permutation.
Qed.

Lemma StronglySorted_le_lt l :
  StronglySorted N.le l → NoDup l → StronglySorted N.lt l.
Proof.
  induction 1 as [|x l Hs IH Hx]; intros Hnd; [constructor|].
  apply NoDup_cons in Hnd as [Hx' Hnd]. constructor; [apply IH, Hnd|].
  rewrite List.Forall_forall in *. intros y Hy.
  specialize (Hx y Hy). assert (x ≠ y).
  { intros ->. apply Hx', list_elem_of_In, Hy. }
  lia.
Qed.

(** *** The array [results] *)

(** The page ids of [results]: the keys for which a result is pushed. *)
Lemma collectResults_pageIds pm pages query :
  map r_pageId (collectResults toLowerCase pm pages query) =
  List.filter (λ key, bool_decide
                        (is_Some (resultFor toLowerCase pm pages query key)))
              (matchKeys pm).
Proof.
  unfold collectResults. induction (matchKeys pm) as [|k l IH]; simpl;
    [reflexivity|].
  destruct (resultFor toLowerCase pm pages query k) as [r|] eqn:E.
  - rewrite bool_decide_eq_true_2 by eauto.
    simpl. f_equal; [|exact IH].
    apply resultFor_Some in E as (_ & _ & _ & _ & E & _). exact E.
  - rewrite bool_decide_eq_false_2 by (intros [x Hx]; discriminate).
    exact IH.
Qed.

Lemma NoDup_filter {A} (f : A → bool) l : NoDup l → NoDup (List.filter f l).
Proof.
  induction 1 as [|x l Hx Hnd IH]; simpl; [constructor|].
  destruct (f x); [|exact IH]. constructor; [|exact IH].
  intros Hin. apply Hx. apply list_elem_of_In in Hin.
  apply List.filter_In in Hin as [Hin _]. apply list_elem_of_In, Hin.
Qed.

Lemma map_filter_sublist {A B} (g : A → B) (f : A → bool) l :
  NoDup (map g l) → NoDup (map g (List.filter f l)).
Proof.
  induction l as [|x l IH]; simpl; intros H; [constructor|].
  apply NoDup_cons in H as [Hx Hnd]. destruct (f x); simpl; [|auto].
  constructor; [|auto].
  intros Hin. apply Hx. apply list_elem_of_In, in_map_iff in Hin
    as (y & Ey & Hy).
  apply List.filter_In in Hy as [Hy _].
  apply list_elem_of_In, in_map_iff. eauto.
Qed.

Lemma map_firstn_NoDup {A B} (g : A → B) n l :
  NoDup (map g l) → NoDup (map g (firstn n l)).
Proof.
  revert n; induction l as [|x l IH]; intros [|n] H; simpl;
    try constructor.
  - simpl in H. apply NoDup_cons in H as [Hx Hnd]. intros Hin. apply Hx.
    apply list_elem_of_In, in_map_iff in Hin as (y & Ey & Hy).
    apply list_elem_of_In, in_map_iff. exists y. split; [exact Ey|].
    rewrite <- (firstn_skipn n l). apply in_or_app. left. exact Hy.
  - simpl in H. apply NoDup_cons in H as [_ Hnd]. apply IH, Hnd.
Qed.

(** X4: A page is in [results] exactly when some contributing triple is on
    it, the page is loaded and its weight sum is at least 4; no page is
    there twice, nor is one twice in what [search] returns; and an index
    word without occurrences, or a pair that does not match, puts no
    page there. *)
Theorem search_results_pages (w : WordIndex) (pages : list Page)
  (query : jsstring) (p : N) :
  let ts := contributions w (searchQueryWords toLowerCase query) in
  let results :=
    collectResults toLowerCase
      (collectMatches w (searchQueryWords toLowerCase query)) pages query in
  (p ∈ map r_pageId results ↔
   touched p ts ∧ is_Some (pages !! N.to_nat p) ∧ 4 ≤ weightSum p ts) ∧
  NoDup (map r_pageId results) ∧
  NoDup (map r_pageId (search toLowerCase (Some w) pages query)).
Proof.
  cbv zeta.
  set (qws := searchQueryWords toLowerCase query).
  pose proof (collectMatches_recorded w qws) as (Hnd & Hdom & Hnone & Hsome).
  pose proof (collectMatches_accumulated w qws) as Hacc.
  assert (Hkeys : NoDup (matchKeys (collectMatches w qws)))
    by (rewrite matchKeys_Permutation; exact Hnd).
  assert (Hres : NoDup (map r_pageId
                   (collectResults toLowerCase (collectMatches w qws)
                                   pages query)))
    by (rewrite collectResults_pageIds; apply NoDup_filter, Hkeys).
  split; [|split; [exact Hres|]].
  - rewrite collectResults_pageIds, list_elem_of_In, List.filter_In,
      <- list_elem_of_In, matchKeys_Permutation, Hdom, bool_decide_eq_true.
    unfold resultFor. specialize (Hacc p).
    destruct (props (collectMatches w qws) !! p) as [e|] eqn:E.
    + destruct Hacc as (Hs & _ & Ht).
      destruct (pages !! N.to_nat p) as [pg|].
      * destruct (4 <=? pm_score e) eqn:E4.
        -- apply Nat.leb_le in E4. rewrite <- Hs. split; [|eauto].
           intros _. repeat split; eauto.
        -- apply Nat.leb_gt in E4. rewrite <- Hs. split.
           ++ intros [_ [x Hx]]. discriminate.
           ++ intros (_ & _ & H4). lia.
      * split.
        -- intros [_ [x Hx]]. discriminate.
        -- intros (_ & [x Hx] & _). discriminate.
    + split.
      * intros [[x Hx] _]. discriminate.
      * intros (Ht & _). contradiction.
  - unfold search. apply map_firstn_NoDup, map_filter_sublist.
    rewrite (Permutation_map r_pageId (sortByFinalScore_Permutation _)).
    exact Hres.
Qed.

Lemma resultFor_details pm pages query key r :
  resultFor toLowerCase pm pages query key = Some r →
  ∃ m pg, props pm !! key = Some m ∧ pages !! N.to_nat key = Some pg ∧
          r_matchedWords r = pm_matchedWords m ∧
          r_context r =
            getSearchContext toLowerCase (orEmpty (pm_context m)) query ∧
          r_displayTitle r =
            (lit "Side " ++ chapter pg ++ lit "-" ++ page pg)%list.
Proof.
  unfold resultFor.
  destruct (props pm !! key) as [m|]; [|discriminate].
  destruct (pages !! N.to_nat key) as [pg|]; [|discriminate].
  destruct (4 <=? pm_score m); [|discriminate].
  intros [= <-]. exists m, pg. repeat split.
Qed.

Lemma weighted_bounds t : weighted t → 2 ≤ t_weight t ≤ 10.
Proof.
  unfold weighted, scoreBonus.
  repeat match goal with
         | |- context [if ?b then _ else _] => destruct b
         end; intros [= <-]; lia.
Qed.

Lemma weightSum_bounds p ts :
  Forall weighted ts →
  2 * length (onPage p ts) ≤ weightSum p ts ≤ 10 * length (onPage p ts).
Proof.
  intros H. unfold weightSum.
  assert (G : Forall weighted (onPage p ts)).
  { rewrite List.Forall_forall in *. intros t Ht.
    apply List.filter_In in Ht as [Ht _]. apply H, Ht. }
  induction G as [|t l Ht _ IH]; simpl; [lia|].
  apply weighted_bounds in Ht. lia.
Qed.

(** X5: What a result of [search] carries: [matchedWords] lists the index
    word of every contributing triple on the page, in the order of the
    loops; the score lies between 2 and 10 times their number; the
    context is extracted from the context of the first of these
    occurrences; and the title names the chapter and page of the loaded
    page with that id. *)
Theorem search_result_details (w : WordIndex) (pages : list Page)
  (query : jsstring) :
  let ts := contributions w (searchQueryWords toLowerCase query) in
  Forall
    (λ r, r_matchedWords r = map t_index (onPage (r_pageId r) ts) ∧
          2 * length (r_matchedWords r) ≤ r_score r ≤
            10 * length (r_matchedWords r) ∧
          r_context r =
            getSearchContext toLowerCase
              (orEmpty (firstContext (r_pageId r) ts)) query ∧
          ∃ pg, pages !! N.to_nat (r_pageId r) = Some pg ∧
                r_displayTitle r =
                  (lit "Side " ++ chapter pg ++ lit "-" ++ page pg)%list)
    (search toLowerCase (Some w) pages query).
Proof.
  cbv zeta. unfold search.
  eapply Forall_ranked; [apply sortByFinalScore_Permutation|].
  apply collectResults_Forall. intros key r Hr.
  pose proof (collectMatches_recorded w (searchQueryWords toLowerCase query))
    as (_ & _ & _ & Hsome).
  pose proof (collectMatches_accumulated w
                (searchQueryWords toLowerCase query) key) as Hacc.
  pose proof (resultFor_details _ _ _ _ _ Hr)
    as (m & pg & Hm & Hpg & Hw & Hc & Ht).
  apply resultFor_Some in Hr as (m' & _ & Hm' & _ & Hid & Hs & _).
  rewrite Hm in Hm'. injection Hm' as <-.
  destruct (Hsome key m Hm) as (_ & _ & Hctx & Hwords).
  rewrite Hm in Hacc. destruct Hacc as (Hsum & _ & _).
  rewrite Hid, Hw, Hc, Ht, Hs, Hctx, Hwords, Hsum, length_map.
  split; [reflexivity|]. split.
  - apply weightSum_bounds, contributions_weighted.
  - split; [reflexivity|]. exists pg. split; [exact Hpg|reflexivity].
Qed.

(** *** Results of equal final score *)

Lemma insertByScore_ranked r l :
  StronglySorted rankedBefore l →
  Forall (λ y, (r_pageId r < r_pageId y)%N) l →
  StronglySorted rankedBefore (insertByScore r l).
Proof.
  induction 1 as [|x l Hs IH Hx]; intros Hr; simpl.
  - repeat constructor.
  - apply Forall_cons in Hr as [Hrx Hrl].
    destruct (r_finalScore x <=? r_finalScore r) eqn:E.
    + apply Nat.leb_le in E. constructor; [constructor; assumption|].
      constructor.
      * unfold rankedBefore. lia.
      * rewrite List.Forall_forall in *. intros y Hy.
        specialize (Hx y Hy). specialize (Hrl y Hy).
        unfold rankedBefore in *. lia.
    + apply Nat.leb_gt in E. constructor; [apply IH, Hrl|].
      rewrite insertByScore_Permutation. constructor; [|exact Hx].
      unfold rankedBefore. lia.
Qed.

Lemma sortByFinalScore_ranked l :
  StronglySorted N.lt (map r_pageId l) →
  StronglySorted rankedBefore (sortByFinalScore l).
Proof.
  induction l as [|r l IH]; simpl; intros H; [constructor|].
  apply StronglySorted_inv in H as [Hl Hr].
  apply insertByScore_ranked; [apply IH, Hl|].
  rewrite sortByFinalScore_Permutation.
  rewrite List.Forall_forall in *. intros y Hy. apply Hr.
  apply in_map. exact Hy.
Qed.

(** X6: With at most 2^32 - 1 pages loaded (an array holds no more), results
    of equal final score come in the order of their page ids: [search]
    returns its results by decreasing final score and, among equal final
    scores, by increasing page id, whatever the order in which the pages
    were matched. *)
Theorem search_ties_by_page_id (w : WordIndex) (pages : list Page)
  (query : jsstring) :
  (N.of_nat (length pages) <= MAX_ARRAY_LENGTH)%N →
  StronglySorted rankedBefore (search toLowerCase (Some w) pages query).
Proof.
  intros Hlen. unfold search.
  apply StronglySorted_firstn, StronglySorted_filter, sortByFinalScore_ranked.
  set (pm := collectMatches w (searchQueryWords toLowerCase query)).
  pose proof (collectMatches_recorded w (searchQueryWords toLowerCase query))
    as (Hnd & _).
  fold pm in Hnd.
  rewrite collectResults_pageIds. unfold matchKeys.
  rewrite List.filter_app.
  assert (Hrest :
    List.filter (λ key, bool_decide
                   (is_Some (resultFor toLowerCase pm pages query key)))
      (List.filter (λ k, negb (isArrayIndex k)) (created pm)) = []).
  { apply filter_none. rewrite List.Forall_forall. intros k Hk.
    apply List.filter_In in Hk as [_ Hk].
    apply bool_decide_eq_false_2. intros [r Hr].
    apply resultFor_Some in Hr as (_ & pg & _ & Hpg & _).
    apply lookup_lt_Some in Hpg.
    unfold isArrayIndex in Hk. apply negb_true_iff, N.ltb_ge in Hk.
    unfold MAX_ARRAY_LENGTH in Hlen. lia. }
  rewrite Hrest, app_nil_r.
  apply StronglySorted_filter, StronglySorted_le_lt; [apply sortAsc_sorted|].
  rewrite sortAsc_Permutation. apply NoDup_filter, Hnd.
Qed.

End RankingFacts.

Lemma search_short_words_witness :
  Forall (λ word, length word < 3)
         (Search.searchQueryWords latin1ToLowerCase (lit "af en 12-V")) ∧
  Search.search latin1ToLowerCase (Some Examples.udstoedningIndex)
                Examples.twoPages (lit "af en 12-V") = [].
Proof.
  assert (H : Forall (λ word, length word < 3)
                (Search.searchQueryWords latin1ToLowerCase
                   (lit "af en 12-V")))
    by (vm_compute; repeat constructor).
  split; [exact H|].
  exact (search_short_words latin1ToLowerCase _ _ _ H).
Defined.

Lemma search_ties_by_page_id_witness :
  (N.of_nat (length Cases.threePages) <= Ranking.MAX_ARRAY_LENGTH)%N ∧
  StronglySorted Ranking.rankedBefore
    (Search.search latin1ToLowerCase (Some Cases.motorIndex)
                   Cases.threePages (lit "Motor")) ∧
  map (λ r, (Search.r_pageId r, Search.r_finalScore r))
      (Search.search latin1ToLowerCase (Some Cases.motorIndex)
                     Cases.threePages (lit "Motor")) =
    [(0%N, 15); (2%N, 15); (1%N, 6)].
Proof.
  assert (H : (N.of_nat (length Cases.threePages) <=
                 Ranking.MAX_ARRAY_LENGTH)%N)
    by (vm_compute; discriminate).
  split; [exact H|].
  split; [exact (search_ties_by_page_id latin1ToLowerCase _ _ _ H)|].
  vm_compute. reflexivity.
Defined.

(** ** The context extractor: what it returns and where it cuts *)
Section ContextShape.
Import Search.
Variable toLowerCase : jsstring → jsstring.

Lemma substring_slice (s : jsstring) a b :
  a ≤ b → b ≤ length s →
  substring s a b = firstn (b - a) (skipn a s) ∧
  s = firstn a s ++ substring s a b ++ skipn b s.
Proof.
  intros Hab Hb. unfold substring.
  rewrite (Nat.min_l a), (Nat.min_l b), (Nat.min_l a b), (Nat.max_r a b)
    by lia.
  split; [reflexivity|].
  rewrite <- (firstn_skipn a s) at 1. f_equal.
  rewrite <- (firstn_skipn (b - a) (skipn a s)) at 1. f_equal.
  rewrite skipn_skipn. f_equal. lia.
Qed.

Lemma includes_skipn (s p : jsstring) j :
  includes (skipn j s) p = true → includes s p = true.
Proof.
  revert s. induction j as [|j IH]; intros s; [simpl; auto|].
  destruct s as [|c s]; [simpl; auto|].
  intros H. simpl in H. apply IH in H.
  cbn [includes]. rewrite H. apply orb_true_r.
Qed.

Lemma substring_prefix (word : jsstring) n :
  substring word 0 (Nat.min n (length word)) = firstn n word.
Proof.
  destruct (substring_slice word 0 (Nat.min n (length word))) as [E _];
    [lia|lia|].
  rewrite E, Nat.sub_0_r. change (skipn 0 word) with word.
  destruct (Nat.le_ge_cases n (length word)).
  - rewrite Nat.min_l by lia. reflexivity.
  - rewrite Nat.min_r by lia. rewrite firstn_all.
    symmetry. apply firstn_all2. lia.
Qed.

(** X7: The [j] loop of the fallback pass adds nothing to its first round: a
    word has a hit in a window exactly when the window has at least
    three code units and contains the first three code units of the word
    (the whole word when it is shorter). *)
Theorem partialHit_prefix (window word : jsstring) :
  partialHit window word = true ↔
  3 ≤ length window ∧ includesSpec window (firstn 3 word).
Proof.
  unfold partialHit. rewrite substring_prefix, existsb_exists. split.
  - intros (j & Hj & H). apply in_seq in Hj. split; [lia|].
    apply includes_spec. apply (includes_skipn _ _ j).
    unfold substringFrom in H.
    destruct (substring_slice window j (length window)) as [E _];
      [lia|lia|].
    rewrite E in H. rewrite firstn_all2 in H; [exact H|].
    rewrite length_skipn. lia.
  - intros [Hlen H]. exists 0. split; [apply in_seq; lia|].
    unfold substringFrom.
    destruct (substring_slice window 0 (length window)) as [E _];
      [lia|lia|].
    rewrite E, Nat.sub_0_r. change (skipn 0 window) with window.
    rewrite firstn_all. apply includes_spec, H.
Qed.

Lemma bestWindow_first textLower starts queryWords :
  let score := λ i, windowScore (windowAt textLower i) queryWords in
  let best := bestWindow textLower starts queryWords in
  (Forall (λ j, score j = 0) starts ∧ best = (0, 0)) ∨
  (0 < snd best ∧ score (fst best) = snd best ∧
   ∃ before after, starts = before ++ fst best :: after ∧
     Forall (λ j, score j < snd best) before ∧
     Forall (λ j, score j ≤ snd best) after).
Proof.
  cbv zeta. unfold bestWindow.
  set (score := λ i, windowScore (windowAt textLower i) queryWords).
  set (f := λ (best : nat * nat) (i : nat),
              if snd best <? score i then (i, score i) else best).
  change (let best := fold_left f starts (0, 0) in
          (Forall (λ j, score j = 0) starts ∧ best = (0, 0)) ∨
          (0 < snd best ∧ score (fst best) = snd best ∧
           ∃ before after, starts = before ++ fst best :: after ∧
             Forall (λ j, score j < snd best) before ∧
             Forall (λ j, score j ≤ snd best) after)).
  induction starts as [|i l IH] using rev_ind; cbv zeta.
  - left. split; [constructor|reflexivity].
  - rewrite fold_left_app. cbn [fold_left].
    cbv zeta in IH. set (best := fold_left f l (0, 0)) in *.
    assert (Ef : f best i =
                 if snd best <? score i then (i, score i) else best)
      by reflexivity.
    rewrite Ef. clear Ef. destruct (snd best <? score i) eqn:E.
    + apply Nat.ltb_lt in E. right. cbn [fst snd].
      split; [lia|]. split; [reflexivity|].
      exists l, []. split; [reflexivity|]. split; [|constructor].
      destruct IH as [[H0 _]|(_ & Hs & before & after & Hl & Hb & Ha)].
      * eapply List.Forall_impl; [|exact H0]. cbv beta. intros; lia.
      * rewrite Hl. apply Forall_app. split.
        -- eapply List.Forall_impl; [|exact Hb]. cbv beta. intros; lia.
        -- constructor; [lia|].
           eapply List.Forall_impl; [|exact Ha]. cbv beta. intros; lia.
    + apply Nat.ltb_ge in E.
      destruct IH as [[H0 Hbest]|(Hpos & Hs & before & after & Hl & Hb & Ha)].
      * left. split; [|exact Hbest].
        apply Forall_app. split; [exact H0|].
        rewrite Hbest in E. simpl in E. repeat constructor. lia.
      * right. split; [exact Hpos|]. split; [exact Hs|].
        exists before, (after ++ [i]). split.
        -- rewrite Hl, <- app_assoc. reflexivity.
        -- split; [exact Hb|]. apply Forall_app. split; [exact Ha|].
           repeat constructor. exact E.
Qed.

Lemma find_first {A} (f : A → bool) (l : list A) :
  match find f l with
  | Some x => f x = true ∧
              ∃ before after, l = before ++ x :: after ∧
                              Forall (λ y, f y = false) before
  | None => Forall (λ y, f y = false) l
  end.
Proof.
  induction l as [|y l IH]; simpl; [constructor|].
  destruct (f y) eqn:E.
  - split; [exact E|]. exists [], l. split; [reflexivity|constructor].
  - destruct (find f l) as [x|].
    + destruct IH as (Hx & before & after & -> & Hb).
      split; [exact Hx|]. exists (y :: before), after.
      split; [reflexivity|]. constructor; assumption.
    + constructor; assumption.
Qed.

(** X8: Which window [getSearchContext] settles on. With the score of a
    window start being the number of query words its window includes:
    when some window scores above 0, the chosen start is the first one,
    in loop order, with the highest score; when every window scores 0,
    it is the first start whose window has a partial hit for some query
    word; and when there is none either (or no window at all), it
    is 0. *)
Theorem bestIndexOf_choice (text query : jsstring) :
  let queryWords := contextQueryWords toLowerCase query in
  let textLower := toLowerCase text in
  let starts := windowStarts (length text) in
  let score := λ i, windowScore (windowAt textLower i) queryWords in
  let hit := λ i, existsb (partialHit (windowAt textLower i)) queryWords in
  let i := bestIndexOf toLowerCase text query in
  (0 < score i ∧
   ∃ before after, starts = before ++ i :: after ∧
     Forall (λ j, score j < score i) before ∧
     Forall (λ j, score j ≤ score i) after) ∨
  (Forall (λ j, score j = 0) starts ∧ hit i = true ∧
   ∃ before after, starts = before ++ i :: after ∧
     Forall (λ j, hit j = false) before) ∨
  (Forall (λ j, score j = 0) starts ∧
   Forall (λ j, hit j = false) starts ∧ i = 0).
Proof.
  cbv zeta. unfold bestIndexOf.
  set (queryWords := contextQueryWords toLowerCase query).
  set (starts := windowStarts (length text)).
  pose proof (bestWindow_first (toLowerCase text) starts queryWords) as H.
  cbv zeta in H.
  destruct H as [[H0 Hbest]|(Hpos & Hs & before & after & Hl & Hb & Ha)].
  - rewrite Hbest. cbn [fst snd Nat.eqb]. right.
    unfold firstPartialWindow.
    pose proof (find_first
      (λ i, existsb (partialHit (windowAt (toLowerCase text) i)) queryWords)
      starts) as Hf.
    destruct (find _ starts) as [i|].
    + left. destruct Hf as (Hi & Hrest). auto.
    + right. auto.
  - left. destruct (snd _ =? 0) eqn:E; [apply Nat.eqb_eq in E; lia|].
    rewrite Hs. split; [exact Hpos|]. eauto.
Qed.

(** X9: The returned context is a slice of the text: the text splits into a
    part before, the slice and a part after; the slice is not empty, has
    at most 150 code units and starts 25 code units before the chosen
    window (at 0 when that is less than 25 in); "..." stands in for
    each part left out that is not empty. The result has at most 156
    code units, and a text of at most 125 code units is returned
    whole. *)
Theorem getSearchContext_slice (text query : jsstring) :
  text ≠ [] →
  ∃ before slice after,
    text = before ++ slice ++ after ∧
    slice ≠ [] ∧ length slice ≤ 150 ∧
    length before = bestIndexOf toLowerCase text query - 25 ∧
    getSearchContext toLowerCase text query =
      match before with [] => [] | _ :: _ => ellipsis end ++ slice ++
      match after with [] => [] | _ :: _ => ellipsis end ∧
    length (getSearchContext toLowerCase text query) ≤ 156 ∧
    (length text ≤ 125 → getSearchContext toLowerCase text query = text).
Proof.
  intros Hne.
  assert (Hlen : 0 < length text)
    by (destruct text; [congruence|simpl; lia]).
  remember (getSearchContext toLowerCase text query) as res eqn:G.
  assert (G' : res =
    let bestIndex := bestIndexOf toLowerCase text query in
    let start := Nat.max 0 (bestIndex - 25) in
    let end_ := Nat.min (length text) (bestIndex + 125) in
    let context := substring text start end_ in
    let context := if 0 <? start then (ellipsis ++ context)%list
                   else context in
    if end_ <? length text then (context ++ ellipsis)%list else context)
    by (rewrite G; destruct text; [congruence|reflexivity]).
  clear G. cbv zeta in G'.
  set (i := bestIndexOf toLowerCase text query) in *.
  pose proof (bestIndexOf_range toLowerCase text query) as Hi. fold i in Hi.
  rewrite Nat.max_r in G' by lia.
  set (start := i - 25) in *.
  set (end_ := Nat.min (length text) (i + 125)) in *.
  destruct (substring_slice text start end_) as [Es Et];
    [unfold start, end_; lia|unfold end_; lia|].
  set (slice := substring text start end_) in *.
  assert (Lb : length (firstn start text) = start)
    by (apply firstn_length_le; unfold start; lia).
  assert (La : length (skipn end_ text) = length text - end_)
    by apply length_skipn.
  assert (Ls : length slice = end_ - start).
  { rewrite Es, length_firstn, length_skipn. unfold start, end_. lia. }
  assert (Ea : res =
               (match firstn start text with
                | [] => []
                | _ :: _ => ellipsis
                end ++ slice ++
                match skipn end_ text with
                | [] => []
                | _ :: _ => ellipsis
                end)%list).
  { rewrite G'.
    destruct (0 <? start) eqn:E1; destruct (end_ <? length text) eqn:E2;
      [apply Nat.ltb_lt in E1|apply Nat.ltb_lt in E1|
       apply Nat.ltb_ge in E1|apply Nat.ltb_ge in E1];
      [apply Nat.ltb_lt in E2|apply Nat.ltb_ge in E2|
       apply Nat.ltb_lt in E2|apply Nat.ltb_ge in E2];
      destruct (firstn start text); simpl in Lb; try lia;
      destruct (skipn end_ text); simpl in La; try lia;
      rewrite ?app_nil_r, <- ?app_assoc; reflexivity. }
  clear G'.
  exists (firstn start text), slice, (skipn end_ text).
  split; [exact Et|].
  split; [intros E0; rewrite E0 in Ls; simpl in Ls; unfold start, end_ in Ls;
          lia|].
  split; [rewrite Ls; unfold start, end_; lia|].
  split; [exact Lb|].
  split; [exact Ea|].
  split.
  - rewrite Ea, !length_app, Ls.
    assert (L3 : length ellipsis = 3) by reflexivity.
    clear Ea Lb La Et.
    destruct (firstn start text), (skipn end_ text); cbn [length];
      rewrite ?L3; unfold start, end_; lia.
  - intros Hshort. rewrite Ea.
    assert (E1 : firstn start text = []).
    { destruct (firstn start text); [reflexivity|].
      simpl in Lb. unfold start in Lb. lia. }
    assert (E2 : skipn end_ text = []).
    { destruct (skipn end_ text); [reflexivity|].
      simpl in La. unfold end_ in La. lia. }
    rewrite E1, E2 in Et |- *. symmetry. exact Et.
Qed.

End ContextShape.

Lemma getSearchContext_slice_witness :
  Examples.udstoedningContext ≠ [] ∧
  ∃ before slice after,
    Examples.udstoedningContext = before ++ slice ++ after ∧
    slice ≠ [] ∧ length slice ≤ 150 ∧
    length before =
      Search.bestIndexOf latin1ToLowerCase Examples.udstoedningContext
        (lit "motor") - 25 ∧
    Search.getSearchContext latin1ToLowerCase Examples.udstoedningContext
        (lit "motor") =
      match before with [] => [] | _ :: _ => Search.ellipsis end ++ slice ++
      match after with [] => [] | _ :: _ => Search.ellipsis end ∧
    length (Search.getSearchContext latin1ToLowerCase
              Examples.udstoedningContext (lit "motor")) ≤ 156 ∧
    (length Examples.udstoedningContext ≤ 125 →
     Search.getSearchContext latin1ToLowerCase Examples.udstoedningContext
       (lit "motor") = Examples.udstoedningContext).
Proof.
  assert (H : Examples.udstoedningContext ≠ [])
    by (vm_compute; discriminate).
  split; [exact H|].
  exact (getSearchContext_slice latin1ToLowerCase _ (lit "motor") H).
Defined.

(** ** The cache controller: what each request does to the storage *)
Section WorkerRequests.
Import Worker.
Local Open Scope string_scope.

Lemma stored_snoc urls u cache :
  stored (urls ++ [u]) cache = <[u := Fetched u]> (stored urls cache).
Proof. unfold stored. rewrite fold_left_app. reflexivity. Qed.

Lemma stored_lookup_in urls cache u :
  u ∈ urls → stored urls cache !! u = Some (Fetched u).
Proof.
  induction urls as [|v urls IH] using rev_ind; intros Hin;
    [inversion Hin|].
  rewrite stored_snoc. destruct (decide (u = v)) as [->|Hne].
  - apply lookup_insert_eq.
  - rewrite lookup_insert_ne by congruence. apply IH.
    apply elem_of_app in Hin as [Hin|Hin]; [exact Hin|].
    apply list_elem_of_singleton in Hin. congruence.
Qed.

Lemma stored_keeps urls cache key :
  is_Some (cache !! key) → is_Some (stored urls cache !! key).
Proof.
  induction urls as [|v urls IH] using rev_ind; intros H; [exact H|].
  rewrite stored_snoc. destruct (decide (key = v)) as [->|Hne].
  - rewrite lookup_insert_eq. eauto.
  - rewrite lookup_insert_ne by congruence. apply IH, H.
Qed.

Lemma caches_open_lookup name st n :
  caches (caches_open name st) !! n =
  if decide (n = name) then Some (default ∅ (caches st !! name))
  else caches st !! n.
Proof.
  unfold caches_open. destruct (caches st !! name) as [cache|] eqn:E.
  - destruct (decide (n = name)) as [->|]; [exact E|reflexivity].
  - simpl. destruct (decide (n = name)) as [->|Hne].
    + apply lookup_insert_eq.
    + apply lookup_insert_ne. congruence.
Qed.

Lemma cache_addAll_Some net name urls st :
  is_Some (cache_addAll net name urls st) ↔
  Forall (λ u, net u = true) urls.
Proof.
  unfold cache_addAll. rewrite List.Forall_forall, <- forallb_forall.
  destruct (forallb net urls); split; eauto.
  - intros [x Hx]. discriminate.
  - discriminate.
Qed.

Lemma cacheManual_changes (env : Env) (id : string)
  (files : option (list string)) (st : CacheStorage) :
  let name := "manual-" +:+ id in
  let st' := fst (cacheManual env id files st) in
  let old := default ∅ (caches st !! name) in
  (∀ n, n ≠ name → caches st' !! n = caches st !! n) ∧
  names st' = names (caches_open name st) ∧
  ∃ cache,
    caches st' !! name = Some cache ∧
    (∀ key, is_Some (old !! key) → is_Some (cache !! key)) ∧
    (∀ key, key ∉ default [] (MANUAL_FILES !! id) →
            key ∉ default [] files →
            key ≠ name +:+ "-metadata" →
            cache !! key = old !! key).
Proof.
  cbv zeta. unfold cacheManual.
  set (name := "manual-" +:+ id).
  set (core := default [] (MANUAL_FILES !! id)).
  set (st1 := caches_open name st).
  set (old := default ∅ (caches st !! name)).
  set (Frame := λ (urls : list string) (st' : CacheStorage),
    (∀ n, n ≠ name → caches st' !! n = caches st !! n) ∧
    names st' = names st1 ∧
    ∃ cache,
      caches st' !! name = Some cache ∧
      (∀ key, is_Some (old !! key) → is_Some (cache !! key)) ∧
      (∀ key, key ∉ urls → cache !! key = old !! key)).
  assert (F1 : Frame [] st1).
  { split; [|split; [reflexivity|]].
    - intros n Hne. unfold st1.
      rewrite caches_open_lookup, decide_False by exact Hne. reflexivity.
    - exists old. unfold st1.
      rewrite caches_open_lookup, decide_True by reflexivity. auto. }
  assert (Fadd : ∀ urls more st2 st3,
            Frame urls st2 →
            cache_addAll (net env) name more st2 = Some st3 →
            Frame (urls ++ more)%list st3).
  { intros urls more st2 st3 (Ho & Hn & c & Hc & Hk & Hs) E.
    split; [|split].
    - intros n Hne. rewrite (cache_addAll_lookup _ _ _ _ _ n E).
      rewrite decide_False by exact Hne. apply Ho, Hne.
    - rewrite (cache_addAll_names _ _ _ _ _ E). exact Hn.
    - exists (stored more c).
      rewrite (cache_addAll_lookup _ _ _ _ _ name E).
      rewrite decide_True, Hc by reflexivity.
      split; [reflexivity|]. split.
      + intros key H. apply stored_keeps, Hk, H.
      + intros key H. apply not_elem_of_app in H as [H1 H2].
        rewrite stored_lookup_other by exact H2. apply Hs, H1. }
  assert (Fput : ∀ urls key r st2,
            Frame urls st2 →
            Frame (urls ++ [key])%list (cache_put name key r st2)).
  { intros urls key r st2 (Ho & Hn & c & Hc & Hk & Hs).
    split; [|split].
    - intros n Hne. rewrite cache_put_lookup, decide_False by exact Hne.
      apply Ho, Hne.
    - exact Hn.
    - exists (<[key := r]> c).
      rewrite cache_put_lookup, decide_True, Hc by reflexivity.
      split; [reflexivity|]. split.
      + intros k H. destruct (decide (k = key)) as [->|Hne].
        * rewrite lookup_insert_eq. eauto.
        * rewrite lookup_insert_ne by congruence. apply Hk, H.
      + intros k H. apply not_elem_of_app in H as [H1 H2].
        rewrite lookup_insert_ne; [apply Hs, H1|].
        intros ->. apply H2, list_elem_of_here. }
  assert (Fweak : ∀ urls st',
            Frame urls st' →
            (∀ key, key ∉ core → key ∉ default [] files →
                    key ≠ name +:+ "-metadata" → key ∉ urls) →
            (∀ n, n ≠ name → caches st' !! n = caches st !! n) ∧
            names st' = names st1 ∧
            ∃ cache,
              caches st' !! name = Some cache ∧
              (∀ key, is_Some (old !! key) → is_Some (cache !! key)) ∧
              (∀ key, key ∉ core → key ∉ default [] files →
                      key ≠ name +:+ "-metadata" →
                      cache !! key = old !! key)).
  { intros urls st' (Ho & Hn & c & Hc & Hk & Hs) Hsub.
    split; [exact Ho|]. split; [exact Hn|].
    exists c. split; [exact Hc|]. split; [exact Hk|].
    intros key H1 H2 H3. apply Hs, Hsub; assumption. }
  case_bool_decide as Hproto.
  { apply (Fweak [] _ F1). intros key _ _ _. apply not_elem_of_nil. }
  destruct (cache_addAll (net env) name core st1) as [st2|] eqn:E2; cycle 1.
  { apply (Fweak [] _ F1). intros key _ _ _. apply not_elem_of_nil. }
  pose proof (Fadd _ _ _ _ F1 E2) as F2.
  destruct files as [[|f fs]|]; cbn [fst].
  - apply (Fweak _ _ (Fput _ _ _ _ F2)).
    intros key H1 _ H3. rewrite !not_elem_of_app, list_elem_of_singleton.
    split; [split; [apply not_elem_of_nil|exact H1]|exact H3].
  - match goal with
    | |- context [cache_addAll (net env) name ?more st2] =>
        destruct (cache_addAll (net env) name more st2) as [st3|] eqn:E3;
        [pose proof (Fadd _ _ _ _ F2 E3) as F3|]
    end; cbn [fst].
    + apply (Fweak _ _ (Fput _ _ _ _ F3)).
      intros key H1 H2 H3. change (key ∉ f :: fs) in H2.
      rewrite !not_elem_of_app, list_elem_of_singleton.
      rewrite not_elem_of_cons in H2.
      repeat split;
        [apply not_elem_of_nil|exact H1|
         rewrite ?not_elem_of_cons; tauto|exact H3].
    + apply (Fweak _ _ F2). intros key H1 _ _.
      rewrite not_elem_of_app. split; [apply not_elem_of_nil|exact H1].
  - apply (Fweak _ _ (Fput _ _ _ _ F2)).
    intros key H1 _ H3. rewrite !not_elem_of_app, list_elem_of_singleton.
    split; [split; [apply not_elem_of_nil|exact H1]|exact H3].
Qed.

(** X14: [cacheManual] works on the cache of its manual only: every other
    cache is as it was, no name of a cache is lost, and in its own
    cache (which exists afterwards, whatever the outcome) no entry is
    removed, and an entry under a key that is neither one of the files
    nor the metadata key is left as it was. *)
Theorem cacheManual_frame (env : Env) (id : string)
  (files : option (list string)) (st : CacheStorage) :
  let name := "manual-" +:+ id in
  let st' := fst (cacheManual env id files st) in
  let old := default ∅ (caches st !! name) in
  (∀ n, n ≠ name → caches st' !! n = caches st !! n) ∧
  names st' = names (caches_open name st) ∧
  (∀ n, n ∈ names st → n ∈ names st') ∧
  ∃ cache,
    caches st' !! name = Some cache ∧
    (∀ key, is_Some (old !! key) → is_Some (cache !! key)) ∧
    (∀ key, key ∉ default [] (MANUAL_FILES !! id) →
            key ∉ default [] files →
            key ≠ name +:+ "-metadata" →
            cache !! key = old !! key).
Proof.
  cbv zeta.
  destruct (cacheManual_changes env id files st) as (H1 & H2 & H3).
  split; [exact H1|]. split; [exact H2|]. split; [|exact H3].
  intros n Hn. rewrite H2. unfold caches_open.
  destruct (caches st !! ("manual-" +:+ id)); [exact Hn|].
  cbn [names]. apply elem_of_app. left. exact Hn.
Qed.


Lemma cacheManual_result (env : Env) (id : string)
  (files : option (list string)) (st : CacheStorage) :
  let name := "manual-" +:+ id in
  let core := default [] (MANUAL_FILES !! id) in
  let r := cacheManual env id files st in
  let count := length core + length (default [] files) in
  (snd r = CacheManualDone id count ∨ snd r = CacheManualFailed id) ∧
  (id ∈ OBJECT_PROTOTYPE_KEYS ∨ ¬ Forall (λ u, net env u = true) core →
   snd r = CacheManualFailed id) ∧
  (snd r = CacheManualDone id count →
   ∃ cache,
     caches (fst r) !! name = Some cache ∧
     cache !! (name +:+ "-metadata") =
       Some (Json {| md_id := id; md_cachedAt := now env;
                     md_version := Some CACHE_VERSION;
                     md_fileCount := count |}) ∧
     ∀ u, u ∈ core → cache !! u = Some (Fetched u)) ∧
  (id ∉ OBJECT_PROTOTYPE_KEYS →
   Forall (λ u, net env u = true) core →
   Forall (λ u, net env u = true) (default [] files) →
   snd r = CacheManualDone id count).
Proof.
  cbv zeta. unfold cacheManual.
  set (name := "manual-" +:+ id).
  set (core := default [] (MANUAL_FILES !! id)).
  set (st1 := caches_open name st).
  case_bool_decide as Hproto.
  { cbn [snd]. split; [right; reflexivity|]. split; [reflexivity|].
    split; [discriminate|]. intros; first [contradiction|congruence]. }
  destruct (cache_addAll (net env) name core st1) as [st2|] eqn:E2; cycle 1.
  { cbn [snd]. split; [right; reflexivity|]. split; [reflexivity|].
    split; [discriminate|]. intros _ Hcore _. exfalso.
    apply (cache_addAll_Some _ name _ st1) in Hcore as [x Hx].
    rewrite E2 in Hx. discriminate. }
  assert (Hcore : Forall (λ u, net env u = true) core)
    by (apply (cache_addAll_Some _ name _ st1); rewrite E2; eauto).
  assert (H2 : ∃ c2, caches st2 !! name = Some c2 ∧
                     ∀ u, u ∈ core → c2 !! u = Some (Fetched u)).
  { rewrite (cache_addAll_lookup _ _ _ _ _ name E2).
    rewrite decide_True by reflexivity. unfold st1.
    rewrite caches_open_lookup, decide_True by reflexivity.
    eexists. split; [reflexivity|]. intros u Hu.
    apply stored_lookup_in, Hu. }
  assert (Hput : ∀ st3,
    (∃ c3, caches st3 !! name = Some c3 ∧
           ∀ u, u ∈ core → c3 !! u = Some (Fetched u)) →
    ∀ r, ∃ cache,
      caches (cache_put name (name +:+ "-metadata") r st3) !! name =
        Some cache ∧
      cache !! (name +:+ "-metadata") = Some r ∧
      ∀ u, u ∈ core → cache !! u = Some (Fetched u)).
  { intros st3 (c3 & Hc3 & Hu3) r.
    rewrite cache_put_lookup, decide_True, Hc3 by reflexivity.
    eexists. split; [reflexivity|]. split; [apply lookup_insert_eq|].
    intros u Hu. rewrite lookup_insert_ne; [apply Hu3, Hu|].
    intros <-. exact (metadata_key_not_core_file id Hu). }
  destruct files as [[|f fs]|]; cbn [fst snd md_fileCount].
  - split; [left; reflexivity|]. split; [tauto|].
    split; [|reflexivity]. intros _. apply Hput, H2.
  - match goal with
    | |- context [cache_addAll (net env) name ?more st2] =>
        destruct (cache_addAll (net env) name more st2) as [st3|] eqn:E3
    end; cbn [fst snd md_fileCount].
    + split; [left; reflexivity|]. split; [tauto|].
      split; [|reflexivity]. intros _. apply Hput. destruct H2 as (c2 & Hc2 & Hu2).
      rewrite (cache_addAll_lookup _ _ _ _ _ name E3).
      rewrite decide_True, Hc2 by reflexivity.
      eexists. split; [reflexivity|]. intros u Hu.
      match goal with
      | |- stored ?more c2 !! u = _ =>
          destruct (decide (u ∈ more)) as [Hin|Hnin];
          [apply stored_lookup_in, Hin
          |rewrite stored_lookup_other by exact Hnin; apply Hu2, Hu]
      end.
    + split; [right; reflexivity|]. split; [reflexivity|].
      split; [discriminate|]. intros _ _ Hfs. exfalso.
      match type of E3 with
      | cache_addAll _ _ ?more _ = None =>
          assert (G : is_Some (cache_addAll (net env) name more st2))
            by (apply cache_addAll_Some;
                first [exact Hfs
                      |apply Forall_cons in Hfs as [_ Hfs']; exact Hfs'])
      end.
      rewrite E3 in G. destruct G as [x Hx]. discriminate.
  - split; [left; reflexivity|]. split; [tauto|].
    split; [|reflexivity]. intros _. apply Hput, H2.
Qed.

(** X15: What a successful [cacheManual] leaves. The answer is a success
    with the file count (the number of files listed for the manual in
    [MANUAL_FILES] plus the number of requested files) or a failure. It
    is a failure when the identifier is the name of a property of
    [Object.prototype] or one of the listed files cannot be fetched.
    After a success the cache of the manual holds the metadata record
    of this call under the metadata key and every listed file under its
    URL. *)
Theorem cacheManual_success (env : Env) (id : string)
  (files : option (list string)) (st : CacheStorage) :
  let name := "manual-" +:+ id in
  let core := default [] (MANUAL_FILES !! id) in
  let r := cacheManual env id files st in
  let count := length core + length (default [] files) in
  (snd r = CacheManualDone id count ∨ snd r = CacheManualFailed id) ∧
  (id ∈ OBJECT_PROTOTYPE_KEYS ∨ ¬ Forall (λ u, net env u = true) core →
   snd r = CacheManualFailed id) ∧
  (snd r = CacheManualDone id count →
   ∃ cache,
     caches (fst r) !! name = Some cache ∧
     cache !! (name +:+ "-metadata") =
       Some (Json {| md_id := id; md_cachedAt := now env;
                     md_version := Some CACHE_VERSION;
                     md_fileCount := count |}) ∧
     ∀ u, u ∈ core → cache !! u = Some (Fetched u)).
Proof.
  cbv zeta.
  destruct (cacheManual_result env id files st) as (H1 & H2 & H3 & _).
  split; [exact H1|]. split; [exact H2|].
  intros Hdone. destruct (H3 Hdone) as (cache & Hc & Hm & Hu).
  exists cache. split; [exact Hc|]. split; [exact Hm|exact Hu].
Qed.

(** *** Deleting caches *)

Lemma caches_delete_lookup name st n :
  caches (fst (caches_delete name st)) !! n =
  if decide (n = name) then None else caches st !! n.
Proof.
  unfold caches_delete. destruct (caches st !! name) eqn:E; cbn [fst caches].
  - destruct (decide (n = name)) as [->|Hne].
    + apply lookup_delete_eq.
    + apply lookup_delete_ne. congruence.
  - destruct (decide (n = name)) as [->|Hne]; [exact E|reflexivity].
Qed.

Lemma caches_delete_deleted name st :
  snd (caches_delete name st) = bool_decide (is_Some (caches st !! name)).
Proof.
  unfold caches_delete. destruct (caches st !! name) eqn:E; cbn [snd].
  - symmetry. apply bool_decide_eq_true_2. eauto.
  - symmetry. apply bool_decide_eq_false_2. intros [x Hx]. discriminate.
Qed.

Lemma filter_all {A} (p : A → bool) (l : list A) :
  (∀ x, In x l → p x = true) → List.filter p l = l.
Proof.
  induction l as [|x l IH]; intros H; simpl; [reflexivity|].
  rewrite (H x) by (left; reflexivity).
  rewrite IH; [reflexivity|]. intros y Hy. apply H. right. exact Hy.
Qed.

Lemma filter_filter {A} (p q : A → bool) (l : list A) :
  List.filter p (List.filter q l) = List.filter (λ x, q x && p x) l.
Proof.
  induction l as [|x l IH]; simpl; [reflexivity|].
  destruct (q x); simpl; [destruct (p x)|]; rewrite IH; reflexivity.
Qed.

Lemma caches_delete_names name st :
  Consistent st →
  names (fst (caches_delete name st)) =
  List.filter (λ n, negb (String.eqb n name)) (names st).
Proof.
  intros H. unfold caches_delete.
  destruct (caches st !! name) eqn:E; cbn [fst names]; [reflexivity|].
  symmetry. apply filter_all. intros x Hx.
  apply negb_true_iff, String.eqb_neq. intros ->.
  apply list_elem_of_In, (names_listed _ H) in Hx as [c Hc]. congruence.
Qed.

(** Deleting, in the order of a list, the caches of the list that a
    test selects. *)
Lemma delete_some_result (f : string → bool) l st :
  Consistent st →
  let st' :=
    fold_left (λ st n, if f n then fst (caches_delete n st) else st) l st in
  (∀ n, caches st' !! n =
        if f n && bool_decide (n ∈ l) then None else caches st !! n) ∧
  names st' =
    List.filter (λ n, negb (f n && bool_decide (n ∈ l))) (names st).
Proof.
  cbv zeta. revert st. induction l as [|a l IH]; intros st H.
  - simpl. split.
    + intros n. rewrite andb_false_r. reflexivity.
    + symmetry. apply filter_all. intros x _. rewrite andb_false_r.
      reflexivity.
  - cbn [fold_left].
    set (st1 := if f a then fst (caches_delete a st) else st).
    assert (H1 : Consistent st1).
    { unfold st1. destruct (f a); [apply caches_delete_consistent|]; exact H. }
    assert (L1 : ∀ n, caches st1 !! n =
                      if f a && bool_decide (n = a) then None
                      else caches st !! n).
    { intros n. unfold st1. destruct (f a) eqn:Ea; [|reflexivity].
      rewrite caches_delete_lookup. cbn [andb].
      destruct (decide (n = a)) as [->|Hne].
      - rewrite bool_decide_eq_true_2 by reflexivity. reflexivity.
      - rewrite bool_decide_eq_false_2 by exact Hne. reflexivity. }
    assert (N1 : names st1 =
                 List.filter (λ n, negb (f a && bool_decide (n = a)))
                             (names st)).
    { unfold st1. destruct (f a) eqn:Ea.
      - rewrite caches_delete_names by exact H. apply filter_ext.
        intros n. cbn [andb]. f_equal.
        destruct (decide (n = a)) as [->|Hne].
        + rewrite String.eqb_refl, bool_decide_eq_true_2 by reflexivity.
          reflexivity.
        + rewrite bool_decide_eq_false_2 by exact Hne.
          apply String.eqb_neq, Hne.
      - symmetry. apply filter_all. reflexivity. }
    destruct (IH st1 H1) as [IHl IHn]. split.
    + intros n. rewrite IHl, L1.
      destruct (decide (n = a)) as [->|Hne].
      * rewrite (bool_decide_eq_true_2 (a = a)) by reflexivity.
        rewrite (bool_decide_eq_true_2 (a ∈ a :: l))
          by apply list_elem_of_here.
        destruct (f a); cbn [andb]; [|reflexivity].
        destruct (bool_decide _); reflexivity.
      * rewrite (bool_decide_eq_false_2 (n = a)) by exact Hne.
        rewrite andb_false_r.
        rewrite (bool_decide_ext (n ∈ a :: l) (n ∈ l)); [reflexivity|].
        rewrite elem_of_cons. tauto.
    + rewrite IHn, N1, filter_filter. apply filter_ext. intros n.
      destruct (decide (n = a)) as [->|Hne].
      * rewrite (bool_decide_eq_true_2 (a = a)) by reflexivity.
        rewrite (bool_decide_eq_true_2 (a ∈ a :: l))
          by apply list_elem_of_here.
        destruct (f a); cbn [andb negb]; [reflexivity|].
        reflexivity.
      * rewrite (bool_decide_eq_false_2 (n = a)) by exact Hne.
        rewrite andb_false_r. cbn [negb andb].
        rewrite (bool_decide_ext (n ∈ a :: l) (n ∈ l)); [reflexivity|].
        rewrite elem_of_cons. tauto.
Qed.

(** The requests as the listener handles them. *)
Lemma remove_request_handled env id fs ws :
  onMessage env {| action := "remove-manual"; manualId := id; files := fs;
                   hasPort := true |} ws =
  ({| storage := fst (caches_delete ("manual-" +:+ id) (storage ws));
      lifecycle := lifecycle ws |},
   Some (RemoveManualDone
           (snd (caches_delete ("manual-" +:+ id) (storage ws))) id)).
Proof.
  unfold onMessage, post, withStorage, removeManual.
  cbn [action manualId hasPort String.eqb Ascii.eqb Bool.eqb andb].
  destruct (caches_delete _ _). reflexivity.
Qed.

Lemma cache_request_handled env id fs ws :
  onMessage env {| action := "cache-manual"; manualId := id; files := fs;
                   hasPort := true |} ws =
  ({| storage := fst (cacheManual env id fs (storage ws));
      lifecycle := lifecycle ws |},
   Some (snd (cacheManual env id fs (storage ws)))).
Proof. reflexivity. Qed.

Lemma step_run ts t : step (run ts) t = run (ts ++ [t]).
Proof. unfold run. rewrite fold_left_app. reflexivity. Qed.

(** X16: What a [remove-manual] request does in a reachable state: the
    worker answers with [success] exactly when the manual was reported
    offline before; afterwards the manual is not reported offline, every
    other manual is reported as before, and no cache other than the one
    of the manual has changed. *)
Theorem removeManual_effect (ts : list Transition) (env : Env)
  (id : string) (fs : option (list string)) :
  let ws := run ts in
  let msg := {| action := "remove-manual"; manualId := id; files := fs;
                hasPort := true |} in
  let r := onMessage env msg ws in
  snd r = Some (RemoveManualDone (bool_decide (id ∈ reportedOffline ws)) id) ∧
  (id ∉ reportedOffline (fst r)) ∧
  (∀ id', id' ≠ id →
          (id' ∈ reportedOffline (fst r) ↔ id' ∈ reportedOffline ws)) ∧
  (∀ n, n ≠ "manual-" +:+ id →
        caches (storage (fst r)) !! n = caches (storage ws) !! n) ∧
  lifecycle (fst r) = lifecycle ws.
Proof.
  cbv zeta.
  pose proof (run_consistent ts) as H.
  pose proof (run_consistent
                (ts ++ [Receive env
                          {| action := "remove-manual"; manualId := id;
                             files := fs; hasPort := true |}])) as H'.
  unfold run in H'. rewrite fold_left_app in H'. cbn [fold_left step] in H'.
  fold (run ts) in H'. revert H'.
  set (ws := run ts) in *.
  rewrite remove_request_handled. cbn [fst snd storage lifecycle].
  intros H'.
  set (ws' := {| storage := fst (caches_delete ("manual-" +:+ id)
                                               (storage ws));
                 lifecycle := lifecycle ws |}) in *.
  assert (L : ∀ n, caches (storage ws') !! n =
                   if decide (n = "manual-" +:+ id) then None
                   else caches (storage ws) !! n)
    by (intros n; apply caches_delete_lookup).
  split; [|split; [|split; [|split]]].
  - rewrite caches_delete_deleted. do 2 f_equal.
    apply bool_decide_ext. rewrite (reportedOffline_consistent ws id H).
    reflexivity.
  - rewrite (reportedOffline_consistent ws' id H').
    unfold manualCacheExists. rewrite L, decide_True by reflexivity.
    intros [x Hx]. discriminate.
  - intros id' Hne.
    rewrite (reportedOffline_consistent ws' id' H'),
            (reportedOffline_consistent ws id' H).
    unfold manualCacheExists. rewrite L, decide_False; [reflexivity|].
    intros Heq. apply manual_name_inj in Heq. contradiction.
  - intros n Hne. rewrite L, decide_False by exact Hne. reflexivity.
  - reflexivity.
Qed.

(** X17: Activation in a reachable state: the worker becomes the active one;
    a cache survives exactly when it is the core cache of this version
    or its name starts with "manual-", and every other cache is gone;
    the manuals reported offline are the same, in the same order. *)
Theorem onActivate_caches (ts : list Transition) :
  let ws := run ts in
  let keep := λ n, String.eqb n CORE_CACHE_NAME || startsWith n "manual-" in
  lifecycle (onActivate ws) = Active ∧
  (∀ n, caches (storage (onActivate ws)) !! n =
        if keep n then caches (storage ws) !! n else None) ∧
  names (storage (onActivate ws)) = List.filter keep (names (storage ws)) ∧
  reportedOffline (onActivate ws) = reportedOffline ws.
Proof.
  cbv zeta.
  pose proof (run_consistent ts) as H.
  pose proof (run_consistent (ts ++ [Activate])) as H'.
  unfold run in H'. rewrite fold_left_app in H'. cbn [fold_left step] in H'.
  fold (run ts) in H'.
  set (ws := run ts) in *.
  destruct (delete_some_result
              (λ n, negb (String.eqb n CORE_CACHE_NAME) &&
                    negb (startsWith n "manual-"))
              (names (storage ws)) (storage ws) H) as [L N].
  cbv zeta in L, N.
  assert (N' : names (storage (onActivate ws)) =
               List.filter
                 (λ n, String.eqb n CORE_CACHE_NAME || startsWith n "manual-")
                 (names (storage ws))).
  { cbn [onActivate storage]. rewrite N.
    rewrite !(filter_ext_in_iff _ _).
    intros n Hn. apply list_elem_of_In in Hn.
    rewrite bool_decide_eq_true_2 by exact Hn.
    destruct (String.eqb n CORE_CACHE_NAME), (startsWith n "manual-");
      reflexivity. }
  split; [reflexivity|]. split; [|split; [exact N'|]].
  - intros n. cbn [onActivate storage]. rewrite L.
    destruct (String.eqb n CORE_CACHE_NAME), (startsWith n "manual-");
      cbn [negb andb orb]; try reflexivity.
    case_bool_decide as Hn; [reflexivity|].
    destruct (caches (storage ws) !! n) eqn:E; [|reflexivity].
    exfalso. apply Hn, (names_listed _ H). eauto.
  - unfold reportedOffline.
    destruct (getOfflineManuals_consistent _ H) as (ms & -> & Hms).
    destruct (getOfflineManuals_consistent _ H') as (ms' & -> & Hms').
    cbn [snd]. rewrite Hms, Hms', N', filter_filter. f_equal.
    apply filter_ext. intros n.
    destruct (String.eqb n CORE_CACHE_NAME), (startsWith n "manual-");
      reflexivity.
Qed.

Lemma clearCaches_empties_lemma (ts : list Transition) :
  storage (clearCaches (run ts)) = noCaches ∧
  reportedOffline (clearCaches (run ts)) = [].
Proof.
  pose proof (run_consistent ts) as H.
  set (ws := run ts) in *.
  destruct (delete_some_result (λ _, true) (names (storage ws))
                               (storage ws) H) as [L N].
  cbv zeta in L, N.
  assert (E : storage (clearCaches ws) = noCaches).
  { cbn [clearCaches storage].
    destruct (fold_left _ _ _) as [c n] eqn:Ef. cbn [caches names] in L, N.
    unfold noCaches. f_equal.
    - apply map_eq. intros k. rewrite L, lookup_empty. cbn [andb].
      case_bool_decide as Hk; [reflexivity|].
      destruct (caches (storage ws) !! k) eqn:Ek; [|reflexivity].
      exfalso. apply Hk, (names_listed _ H). eauto.
    - rewrite N. apply filter_none. rewrite List.Forall_forall.
      intros k Hk. apply list_elem_of_In in Hk.
      rewrite bool_decide_eq_true_2 by exact Hk. reflexivity. }
  split; [exact E|]. unfold reportedOffline. rewrite E. reflexivity.
Qed.

(** X18: Deleting all caches, as [performUpdate] does, in a reachable state
    leaves the storage without any cache, so that no manual is reported
    offline afterwards. *)
Theorem clearCaches_empties (ts : list Transition) :
  storage (clearCaches (run ts)) = noCaches ∧
  reportedOffline (clearCaches (run ts)) = [] ∧
  lifecycle (clearCaches (run ts)) = lifecycle (run ts) ∧
  ∀ id, ¬ manualCacheExists (clearCaches (run ts)) id.
Proof.
  destruct (clearCaches_empties_lemma ts) as (E & Hrep).
  split; [exact E|]. split; [exact Hrep|]. split; [reflexivity|].
  intros id [x Hx]. rewrite E in Hx. cbn [caches noCaches] in Hx.
  rewrite lookup_empty in Hx. discriminate.
Qed.

(** X19: Which requests are answered: the worker posts a reply exactly when
    the message came with a port and its action is not "skipWaiting". *)
Theorem onMessage_replies (env : Env) (msg : Message) (ws : WorkerState) :
  is_Some (snd (onMessage env msg ws)) ↔
  hasPort msg = true ∧ action msg ≠ "skipWaiting".
Proof.
  unfold onMessage, post.
  repeat match goal with
         | |- context [if String.eqb ?a ?b then _ else _] =>
             destruct (String.eqb a b) eqn:?
         end; cbn [snd];
    repeat match goal with
           | H : String.eqb _ _ = true |- _ => apply String.eqb_eq in H
           | H : String.eqb _ _ = false |- _ => apply String.eqb_neq in H
           end.
  all: destruct (hasPort msg);
         (split;
          [intros [x Hx]; try discriminate;
           (split; [reflexivity|congruence])
          |intros [Hp Hn]; try discriminate; try contradiction;
           exact (ex_intro _ _ eq_refl)]).
Qed.

(** X20: Only [cache-manual] and [remove-manual] requests write to the cache
    storage: in a reachable state a message with any other action
    leaves every cache and the list of cache names as they are. *)
Theorem onMessage_storage (ts : list Transition) (env : Env)
  (msg : Message) :
  action msg ≠ "cache-manual" → action msg ≠ "remove-manual" →
  storage (fst (onMessage env msg (run ts))) = storage (run ts).
Proof.
  intros H1 H2. apply String.eqb_neq in H1, H2.
  unfold onMessage. rewrite H1, H2.
  repeat match goal with
         | |- context [if String.eqb ?a ?b then _ else _] =>
             destruct (String.eqb a b)
         end; try reflexivity.
  cbn [post fst withStorage storage].
  destruct (getOfflineManuals_consistent _ (run_consistent ts))
    as (ms & -> & _).
  reflexivity.
Qed.

(** X29: Installation in a reachable state. The core cache exists
    afterwards; when every core file can be fetched it holds each of
    them under its URL and the worker skips the waiting phase; when one
    cannot, the failure is swallowed, nothing is added and the worker
    stays as it was. No other cache is touched, and the manuals
    reported offline are the same. *)
Theorem onInstall_effect (ts : list Transition) (env : Env) :
  let ws := run ts in
  let ws' := onInstall env ws in
  (lifecycle ws' = Active ↔
   lifecycle ws = Active ∨ Forall (λ u, net env u = true) CORE_FILES) ∧
  (∃ cache,
     caches (storage ws') !! CORE_CACHE_NAME = Some cache ∧
     (Forall (λ u, net env u = true) CORE_FILES →
      ∀ u, u ∈ CORE_FILES → cache !! u = Some (Fetched u)) ∧
     (¬ Forall (λ u, net env u = true) CORE_FILES →
      cache = default ∅ (caches (storage ws) !! CORE_CACHE_NAME))) ∧
  (∀ n, n ≠ CORE_CACHE_NAME →
        caches (storage ws') !! n = caches (storage ws) !! n) ∧
  reportedOffline ws' = reportedOffline ws.
Proof.
  cbv zeta.
  pose proof (run_consistent ts) as H.
  pose proof (run_consistent (ts ++ [Install env])) as H'.
  rewrite <- step_run in H'. cbn [step] in H'.
  set (ws := run ts) in *.
  assert (Hrep : reportedOffline (onInstall env ws) = reportedOffline ws).
  { unfold reportedOffline.
    destruct (getOfflineManuals_consistent _ H) as (ms & -> & Hms).
    destruct (getOfflineManuals_consistent _ H') as (ms' & -> & Hms').
    cbn [snd]. rewrite Hms, Hms'. f_equal.
    assert (N : names (storage (onInstall env ws)) =
                names (caches_open CORE_CACHE_NAME (storage ws))).
    { unfold onInstall.
      destruct (cache_addAll _ _ _ _) as [st2|] eqn:E; cbn [storage];
        [|reflexivity].
      apply (cache_addAll_names _ _ _ _ _ E). }
    rewrite N. unfold caches_open.
    destruct (caches (storage ws) !! CORE_CACHE_NAME); [reflexivity|].
    cbn [names]. rewrite List.filter_app. cbn [List.filter].
    change (startsWith CORE_CACHE_NAME "manual-") with false.
    apply app_nil_r. }
  unfold onInstall in *.
  pose proof (cache_addAll_Some (net env) CORE_CACHE_NAME CORE_FILES
                (caches_open CORE_CACHE_NAME (storage ws))) as Hsome.
  destruct (cache_addAll (net env) CORE_CACHE_NAME CORE_FILES
              (caches_open CORE_CACHE_NAME (storage ws)))
    as [st2|] eqn:E.
  - assert (Hall : Forall (λ u, net env u = true) CORE_FILES)
      by (apply Hsome; eauto).
    cbn [skipWaiting storage lifecycle].
    split; [split; [auto|reflexivity]|]. split; [|split; [|exact Hrep]].
    + rewrite (cache_addAll_lookup _ _ _ _ _ CORE_CACHE_NAME E).
      rewrite decide_True by reflexivity.
      rewrite caches_open_lookup, decide_True by reflexivity.
      eexists. split; [reflexivity|]. split; [|contradiction].
      intros _ u Hu. apply stored_lookup_in, Hu.
    + intros n Hne. rewrite (cache_addAll_lookup _ _ _ _ _ n E).
      rewrite decide_False by exact Hne.
      rewrite caches_open_lookup, decide_False by exact Hne. reflexivity.
  - assert (Hnot : ¬ Forall (λ u, net env u = true) CORE_FILES).
    { intros Hall. apply Hsome in Hall as [x Hx]. discriminate. }
    cbn [storage lifecycle].
    split; [split; [auto|intros [Hl|Hall]; [exact Hl|contradiction]]|].
    split; [|split; [|exact Hrep]].
    + rewrite caches_open_lookup, decide_True by reflexivity.
      eexists. split; [reflexivity|]. split; [contradiction|reflexivity].
    + intros n Hne.
      rewrite caches_open_lookup, decide_False by exact Hne. reflexivity.
Qed.

End WorkerRequests.

Lemma onMessage_storage_witness :
  Worker.action Examples.skipWaitingRequest ≠ "cache-manual"%string ∧
  Worker.action Examples.skipWaitingRequest ≠ "remove-manual"%string ∧
  Worker.storage
    (fst (Worker.onMessage Examples.offlineEnv Examples.skipWaitingRequest
            (Worker.run [Worker.Receive Examples.offlineEnv
                           Examples.downloadRequest]))) =
  Worker.storage
    (Worker.run [Worker.Receive Examples.offlineEnv
                   Examples.downloadRequest]).
Proof.
  assert (H1 : Worker.action Examples.skipWaitingRequest ≠
               "cache-manual"%string) by (vm_compute; discriminate).
  assert (H2 : Worker.action Examples.skipWaitingRequest ≠
               "remove-manual"%string) by (vm_compute; discriminate).
  split; [exact H1|]. split; [exact H2|].
  exact (onMessage_storage _ Examples.offlineEnv _ H1 H2).
Defined.

(** ** The coordinator and the worker together *)
Section SessionFacts.
Import Offline Session.
Local Open Scope string_scope.

Lemma set_delete_elem x y s : y ∈ set_delete x s ↔ y ∈ s ∧ y ≠ x.
Proof.
  unfold set_delete.
  rewrite list_elem_of_In, List.filter_In, <- list_elem_of_In.
  rewrite negb_true_iff, String.eqb_neq. reflexivity.
Qed.

Lemma set_delete_absent x s : x ∉ s → set_delete x s = s.
Proof.
  intros H. apply filter_all. intros y Hy.
  apply negb_true_iff, String.eqb_neq. intros ->.
  apply H, list_elem_of_In, Hy.
Qed.

Lemma set_delete_add x s : x ∉ s → set_delete x (set_add x s) = s.
Proof.
  intros H. unfold set_add. rewrite bool_decide_eq_false_2 by exact H.
  unfold set_delete. rewrite List.filter_app. cbn [List.filter].
  rewrite String.eqb_refl. cbn [negb]. rewrite app_nil_r.
  apply set_delete_absent, H.
Qed.

(** X21: What [removeManual] of the coordinator does. It never touches
    [pendingDownloads]. It returns [true] exactly when no download of
    the manual is pending, there is a registration, the worker answers
    with success and the offline set can be stored; then the manual is
    taken out of the offline set, the other manuals stay in it, and the
    mirror is the new set. When it returns [false] the mirror is as it
    was, and so is the whole coordinator unless the worker answered
    with success and storing the set threw: then the manual has been
    taken out of the offline set all the same. It posts a request
    unless a download is pending or the request is rejected before it
    is posted. *)
Theorem removeManual_outcomes (id : string) (outcome : SendOutcome)
  (stored : bool) (c : Coordinator) :
  let r := removeManual id outcome stored c in
  let answered :=
    (id ∉ pendingDownloads c) ∧ swRegistration c = true ∧
    ∃ reply, outcome = Replied reply ∧ success reply = true in
  pendingDownloads r.1.2 = pendingDownloads c ∧
  (r.1.1 = true ↔ answered ∧ stored = true) ∧
  (r.1.1 = true →
   offlineManuals r.1.2 = set_delete id (offlineManuals c) ∧
   mirror r.1.2 = Some (offlineManuals r.1.2) ∧
   (id ∉ offlineManuals r.1.2) ∧
   ∀ x, x ≠ id → (x ∈ offlineManuals r.1.2 ↔ x ∈ offlineManuals c)) ∧
  (r.1.1 = false → mirror r.1.2 = mirror c) ∧
  (r.1.1 = false → ¬ (answered ∧ stored = false) → r.1.2 = c) ∧
  (answered → stored = false →
   r.1.1 = false ∧
   offlineManuals r.1.2 = set_delete id (offlineManuals c) ∧
   (id ∉ offlineManuals r.1.2)) ∧
  (existsb isPost r.2 = true ↔
   (id ∉ pendingDownloads c) ∧ swRegistration c = true ∧
   outcome ≠ Unavailable).
Proof.
  cbv zeta. unfold removeManual, settles.
  case_bool_decide as Hp.
  { cbn [fst snd existsb]. split; [reflexivity|].
    split; [split; [discriminate|intros ((H & _) & _); contradiction]|].
    split; [discriminate|]. split; [reflexivity|]. split; [reflexivity|].
    split; [intros (H & _); contradiction|].
    split; [discriminate|intros (H & _); contradiction]. }
  destruct (swRegistration c) eqn:Er; cycle 1.
  { cbn [fst snd posted app existsb isPost orb].
    split; [reflexivity|].
    split; [split; [discriminate|intros ((_ & H & _) & _); discriminate]|].
    split; [discriminate|]. split; [reflexivity|]. split; [reflexivity|].
    split; [intros (_ & H & _); discriminate|].
    split; [discriminate|intros (_ & H & _); discriminate]. }
  assert (Hdel : (id ∉ set_delete id (offlineManuals c)) ∧
                 ∀ x, x ≠ id → (x ∈ set_delete id (offlineManuals c) ↔
                                x ∈ offlineManuals c)).
  { split.
    - rewrite set_delete_elem. tauto.
    - intros x Hx. rewrite set_delete_elem. tauto. }
  assert (Hposted : ∀ o, o ≠ Unavailable →
            ∀ es, existsb isPost (posted "remove-manual" id o ++ es) = true).
  { intros o Ho es. destruct o; [contradiction|reflexivity|reflexivity]. }
  destruct outcome as [| |reply];
    [| |destruct (success reply) eqn:Es; [destruct stored|]];
    cbn [fst snd pendingDownloads saveOfflineManuals withOffline
         offlineManuals mirror].
  - cbn [posted app existsb isPost orb]. split; [reflexivity|].
    split; [split; [discriminate|
                    intros ((_ & _ & r & H & _) & _); discriminate]|].
    split; [discriminate|]. split; [reflexivity|]. split; [reflexivity|].
    split; [intros (_ & _ & r & H & _); discriminate|].
    split; [discriminate|intros (_ & _ & H); contradiction].
  - split; [reflexivity|].
    split; [split; [discriminate|
                    intros ((_ & _ & r & H & _) & _); discriminate]|].
    split; [discriminate|]. split; [reflexivity|]. split; [reflexivity|].
    split; [intros (_ & _ & r & H & _); discriminate|].
    split; [intros _; repeat split; [exact Hp|discriminate]|].
    intros _. apply Hposted. discriminate.
  - split; [reflexivity|].
    split; [split; [intros _|reflexivity]|].
    { repeat split; [exact Hp|]. exists reply. auto. }
    split; [intros _; split; [reflexivity|split; [reflexivity|exact Hdel]]|].
    split; [discriminate|]. split; [discriminate|].
    split; [discriminate|].
    split; [intros _; repeat split; [exact Hp|discriminate]|].
    intros _. apply Hposted. discriminate.
  - split; [reflexivity|].
    split; [split; [discriminate|intros (_ & H); discriminate]|].
    split; [discriminate|]. split; [reflexivity|].
    split.
    { intros _ H. exfalso. apply H. repeat split; [exact Hp|].
      exists reply. auto. }
    split; [intros _ _; split; [reflexivity|split; [reflexivity|apply Hdel]]|].
    split; [intros _; repeat split; [exact Hp|discriminate]|].
    intros _. apply Hposted. discriminate.
  - split; [reflexivity|].
    split; [split; [discriminate|]|].
    { intros ((_ & _ & r & [= <-] & H) & _). congruence. }
    split; [discriminate|]. split; [reflexivity|]. split; [reflexivity|].
    split; [intros (_ & _ & r & [= <-] & H); congruence|].
    split; [intros _; repeat split; [exact Hp|discriminate]|].
    intros _. apply Hposted. discriminate.
Qed.

(** *** Toggling with an active worker *)

Lemma downloadManual_ready id files reply stored c :
  id ∉ pendingDownloads c →
  serviceWorkerFailed c = false → swRegistration c = true →
  let r := downloadManual id files true (Some reply) stored c in
  r.1.1 = Returned (success reply && stored) ∧
  existsb isPost r.2 = true ∧
  swRegistration r.1.2 = true ∧ serviceWorkerFailed r.1.2 = false ∧
  pendingDownloads r.1.2 = ({[id]} ∪ pendingDownloads c) ∖ {[id]} ∧
  offlineManuals r.1.2 =
    (if success reply then set_add id (offlineManuals c)
     else offlineManuals c) ∧
  mirror r.1.2 =
    (if success reply && stored then Some (set_add id (offlineManuals c))
     else mirror c).
Proof.
  intros Hp Ef Er. cbv zeta.
  unfold downloadManual. cbn [fold_left fst snd downloadStep].
  rewrite bool_decide_eq_false_2 by exact Hp.
  rewrite Ef, Er. cbn [orb negb fst snd downloadStep withPending
                       swRegistration].
  rewrite Er. cbn [fst snd downloadStep].
  destruct (success reply); [destruct stored|];
    cbn [fst snd downloadStep downloadFailed app existsb isPost orb andb
         withPending saveOfflineManuals withOffline swRegistration
         serviceWorkerFailed pendingDownloads offlineManuals mirror];
    repeat split; assumption.
Qed.

Lemma toggle_absent env id files stored c ws :
  id ∉ offlineManuals c → id ∉ pendingDownloads c →
  serviceWorkerFailed c = false → swRegistration c = true →
  let cm := Worker.cacheManual env id (Some files) (Worker.storage ws) in
  let r := toggle env id files stored c ws in
  r.1.1 = success cm.2 && stored ∧
  r.2 = {| Worker.storage := cm.1; Worker.lifecycle := Worker.lifecycle ws |} ∧
  swRegistration r.1.2 = true ∧ serviceWorkerFailed r.1.2 = false ∧
  (id ∉ pendingDownloads r.1.2) ∧
  offlineManuals r.1.2 =
    (if success cm.2 then set_add id (offlineManuals c)
     else offlineManuals c) ∧
  mirror r.1.2 =
    (if success cm.2 && stored then Some (set_add id (offlineManuals c))
     else mirror c).
Proof.
  intros Ho Hp Ef Er. cbv zeta. unfold toggle, toggleOfflineStatus.
  rewrite !bool_decide_eq_false_2 by exact Ho.
  unfold cacheRequest. rewrite cache_request_handled. cbn [fst snd].
  destruct (downloadManual_ready id files
              (Worker.cacheManual env id (Some files) (Worker.storage ws)).2
              stored c Hp Ef Er) as (H1 & H2 & H3 & H4 & H5 & H6 & H7).
  cbv zeta in *. rewrite H1, H2. cbn [returned].
  repeat split; try assumption.
  rewrite H5. apply not_pending_after_delete.
Qed.

Lemma toggle_present env id files stored c ws :
  id ∈ offlineManuals c → id ∉ pendingDownloads c →
  swRegistration c = true →
  let del := Worker.caches_delete ("manual-" +:+ id) (Worker.storage ws) in
  let r := toggle env id files stored c ws in
  r.1.1 = del.2 && stored ∧
  r.2 = {| Worker.storage := del.1; Worker.lifecycle := Worker.lifecycle ws |} ∧
  r.1.2 =
    (if del.2
     then if stored
          then saveOfflineManuals
                 (withOffline c (set_delete id (offlineManuals c)))
          else withOffline c (set_delete id (offlineManuals c))
     else c).
Proof.
  intros Ho Hp Er. cbv zeta. unfold toggle, toggleOfflineStatus.
  rewrite !bool_decide_eq_true_2 by exact Ho.
  unfold removeRequest. rewrite remove_request_handled. cbn [fst snd].
  unfold removeManual, settles, outcomeOf.
  rewrite bool_decide_eq_false_2 by exact Hp. rewrite Er.
  cbn [success].
  destruct (Worker.caches_delete _ _) as [st' [|]]; [destruct stored|];
    cbn [fst snd posted app existsb isPost orb andb]; repeat split.
Qed.

(** X22: Downloading through [toggleOfflineStatus] with an active worker
    in a reachable state, for a manual that is not in the offline set
    and has no download pending. The call returns [true] exactly when
    the worker answers with success and the offline set can be stored.
    When it returns [true], the manual has been added to the offline
    set and the mirror, the worker reports it offline, and its cache is
    not empty and holds the metadata entry. When it returns [false],
    the mirror is as before, and so is the offline set unless the
    worker answered with success and storing the set threw: then the
    manual is in the offline set and reported by the worker all the
    same. In every case no download of the manual is pending
    afterwards. The worker answers with success when the identifier is
    not the name of a property of [Object.prototype] and every file can
    be fetched. *)
Theorem toggle_download (ts : list Worker.Transition) (env : Worker.Env)
  (id : string) (files : list string) (stored : bool) (c : Coordinator) :
  id ∉ offlineManuals c → id ∉ pendingDownloads c →
  serviceWorkerFailed c = false → swRegistration c = true →
  let r := toggle env id files stored c (Worker.run ts) in
  let answer :=
    (Worker.cacheManual env id (Some files)
                        (Worker.storage (Worker.run ts))).2 in
  r.1.1 = success answer && stored ∧
  (success answer = true →
   offlineManuals r.1.2 = (offlineManuals c ++ [id])%list ∧
   id ∈ Worker.reportedOffline r.2 ∧
   Worker.taggedCacheExists r.2 id) ∧
  (r.1.1 = true → mirror r.1.2 = Some (offlineManuals r.1.2)) ∧
  (r.1.1 = false → mirror r.1.2 = mirror c) ∧
  (success answer = false → offlineManuals r.1.2 = offlineManuals c) ∧
  (id ∉ pendingDownloads r.1.2) ∧
  (id ∉ Worker.OBJECT_PROTOTYPE_KEYS →
   Forall (λ u, Worker.net env u = true)
          (default [] (Worker.MANUAL_FILES !! id) ++ files) →
   success answer = true).
Proof.
  intros Ho Hp Ef Er. cbv zeta.
  destruct (toggle_absent env id files stored c (Worker.run ts) Ho Hp Ef Er)
    as (H1 & H2 & _ & _ & H5 & H6 & H7).
  cbv zeta in *.
  destruct (cacheManual_result env id (Some files)
              (Worker.storage (Worker.run ts))) as (R1 & _ & R3 & R4).
  cbv zeta in *.
  set (cm := Worker.cacheManual env id (Some files)
               (Worker.storage (Worker.run ts))) in *.
  set (r := toggle env id files stored c (Worker.run ts)) in *.
  split; [exact H1|].
  split; [|split; [|split; [|split; [|split; [exact H5|]]]]].
  - intros Hs. rewrite Hs in H6.
    assert (Hdone : cm.2 = Worker.CacheManualDone id
                     (length (default [] (Worker.MANUAL_FILES !! id)) +
                      length (default [] (Some files)))).
    { destruct R1 as [R|R]; [exact R|]. rewrite R in Hs. discriminate. }
    destruct (R3 Hdone) as (cache & Hc & Hm & _).
    assert (Htag : Worker.taggedCacheExists r.2 id).
    { exists cache. eexists. rewrite H2. cbn [Worker.storage].
      split; [exact Hc|]. split; [|exact Hm].
      intros ->. rewrite lookup_empty in Hm. discriminate. }
    split; [|split; [|exact Htag]].
    + rewrite H6. unfold set_add.
      rewrite bool_decide_eq_false_2 by exact Ho. reflexivity.
    + apply reportedOffline_consistent.
      * rewrite H2. cbn [Worker.storage].
        apply cacheManual_consistent, run_consistent.
      * destruct Htag as (x & _ & Hx & _). exists x. exact Hx.
  - intros Ht. rewrite H1 in Ht. rewrite Ht in H7.
    apply andb_true_iff in Ht as [Hs _]. rewrite Hs in H6.
    rewrite H6, H7. reflexivity.
  - intros Hf. rewrite H1 in Hf. rewrite Hf in H7. exact H7.
  - intros Hs. rewrite Hs in H6. exact H6.
  - intros Hproto Hall. apply Forall_app in Hall as [Hcore Hfiles].
    rewrite (R4 Hproto Hcore Hfiles). reflexivity.
Qed.

(** X23: Removing through [toggleOfflineStatus] with an active worker in
    a reachable state, for a manual that is in the offline set and has
    no download pending. The call returns [true] exactly when the
    worker reported the manual offline and the offline set can be
    stored. When the worker reported the manual, it leaves the offline
    set, and the mirror is the new set if it can be stored and as
    before if not. When the worker did not report it - the offline set
    was out of step with the caches - the coordinator is as it was and
    the manual stays in the offline set. In every case the worker does
    not report the manual afterwards. *)
Theorem toggle_remove (ts : list Worker.Transition) (env : Worker.Env)
  (id : string) (files : list string) (stored : bool) (c : Coordinator) :
  id ∈ offlineManuals c → id ∉ pendingDownloads c →
  swRegistration c = true →
  let ws := Worker.run ts in
  let r := toggle env id files stored c ws in
  r.1.1 = bool_decide (id ∈ Worker.reportedOffline ws) && stored ∧
  (id ∈ Worker.reportedOffline ws →
   offlineManuals r.1.2 = set_delete id (offlineManuals c) ∧
   (id ∉ offlineManuals r.1.2) ∧
   mirror r.1.2 =
     (if stored then Some (offlineManuals r.1.2) else mirror c)) ∧
  (id ∉ Worker.reportedOffline ws → r.1.2 = c ∧ id ∈ offlineManuals r.1.2) ∧
  (id ∉ Worker.reportedOffline r.2).
Proof.
  intros Ho Hp Er. cbv zeta.
  destruct (toggle_present env id files stored c (Worker.run ts) Ho Hp Er)
    as (H1 & H2 & H3).
  cbv zeta in *.
  pose proof (run_consistent ts) as Hc.
  pose proof (caches_delete_deleted ("manual-" +:+ id)
                (Worker.storage (Worker.run ts))) as Hdel.
  assert (Hrep : id ∈ Worker.reportedOffline (Worker.run ts) ↔
                 is_Some (Worker.caches (Worker.storage (Worker.run ts))
                            !! ("manual-" +:+ id)))
    by (apply reportedOffline_consistent, Hc).
  split; [|split; [|split]].
  - rewrite H1, Hdel. f_equal. apply bool_decide_ext. symmetry. exact Hrep.
  - intros Hin. apply Hrep in Hin.
    rewrite bool_decide_eq_true_2 in Hdel by exact Hin.
    rewrite Hdel in H3. rewrite H3.
    destruct stored;
      cbn [offlineManuals mirror saveOfflineManuals withOffline];
      (split; [reflexivity|]); (split; [|reflexivity]);
      rewrite set_delete_elem; tauto.
  - intros Hnin. rewrite Hrep in Hnin.
    rewrite bool_decide_eq_false_2 in Hdel by exact Hnin.
    rewrite Hdel in H3. rewrite H3. split; [reflexivity|exact Ho].
  - rewrite H2. rewrite reportedOffline_consistent
      by (cbn [Worker.storage]; apply caches_delete_consistent, Hc).
    unfold Worker.manualCacheExists. cbn [Worker.storage].
    rewrite caches_delete_lookup, decide_True by reflexivity.
    intros [x Hx]. discriminate.
Qed.

Lemma filter_snoc_absent (name : string) (l : list string) :
  name ∉ l →
  List.filter (λ n, negb (String.eqb n name)) (l ++ [name]) = l.
Proof.
  intros H. rewrite List.filter_app. cbn [List.filter].
  rewrite String.eqb_refl. cbn [negb]. rewrite app_nil_r.
  apply filter_all. intros y Hy.
  apply negb_true_iff, String.eqb_neq. intros ->.
  apply H, list_elem_of_In, Hy.
Qed.

(** X24: Toggling twice: for a manual that is not in the offline set,
    with everything in working order (no download pending, a registered
    and active worker in a reachable state, an identifier that is not
    the name of a property of [Object.prototype], every file fetchable
    at the first toggle, the offline set storable at both), the first
    toggle downloads the manual and the second one removes it again:
    both return [true], and in between the coordinator and the worker
    both have the manual offline. At the end the offline set is the one
    at the start and the mirror holds it - so the mirror is as at the
    start if it was in step with the set then, and is brought in step
    if it was absent or stale. The worker then reports the manuals it
    reported at the start other than this one - so its report is as at
    the start if it did not report the manual then, and has lost it if
    a cache of the manual had been left behind. *)
Theorem toggle_twice (ts : list Worker.Transition) (env env' : Worker.Env)
  (id : string) (files files' : list string) (c : Coordinator) :
  id ∉ offlineManuals c → id ∉ pendingDownloads c →
  serviceWorkerFailed c = false → swRegistration c = true →
  id ∉ Worker.OBJECT_PROTOTYPE_KEYS →
  Forall (λ u, Worker.net env u = true)
         (default [] (Worker.MANUAL_FILES !! id) ++ files) →
  let r1 := toggle env id files true c (Worker.run ts) in
  let r2 := toggle env' id files' true r1.1.2 r1.2 in
  r1.1.1 = true ∧ id ∈ offlineManuals r1.1.2 ∧
  id ∈ Worker.reportedOffline r1.2 ∧
  r2.1.1 = true ∧
  offlineManuals r2.1.2 = offlineManuals c ∧
  mirror r2.1.2 = Some (offlineManuals c) ∧
  (mirror c = Some (offlineManuals c) → mirror r2.1.2 = mirror c) ∧
  (∀ x, x ∈ Worker.reportedOffline r2.2 ↔
        x ∈ Worker.reportedOffline (Worker.run ts) ∧ x ≠ id) ∧
  (id ∉ Worker.reportedOffline (Worker.run ts) →
   Worker.reportedOffline r2.2 = Worker.reportedOffline (Worker.run ts)).
Proof.
  intros Ho Hp Ef Er Hproto Hall. cbv zeta.
  apply Forall_app in Hall as [Hcore Hfiles].
  destruct (toggle_absent env id files true c (Worker.run ts) Ho Hp Ef Er)
    as (H1 & H2 & H3 & _ & H5 & H6 & H7).
  cbv zeta in *.
  destruct (cacheManual_result env id (Some files)
              (Worker.storage (Worker.run ts))) as (_ & _ & R3 & R4).
  cbv zeta in *.
  pose proof (R4 Hproto Hcore Hfiles) as Hdone.
  destruct (R3 Hdone) as (cache & Hcache & _).
  pose proof (cacheManual_changes env id (Some files)
                (Worker.storage (Worker.run ts))) as Hframe.
  pose proof (run_consistent ts) as Hc0.
  pose proof (cacheManual_consistent env id (Some files)
                (Worker.storage (Worker.run ts)) Hc0) as Hc1.
  set (cm := Worker.cacheManual env id (Some files)
               (Worker.storage (Worker.run ts))) in *.
  set (r1 := toggle env id files true c (Worker.run ts)) in *.
  rewrite Hdone in H1, H6, H7. cbn [success andb] in H1, H6, H7.
  assert (Hin : id ∈ offlineManuals r1.1.2).
  { rewrite H6. unfold set_add. rewrite bool_decide_eq_false_2 by exact Ho.
    apply elem_of_app. right. apply list_elem_of_here. }
  destruct (toggle_present env' id files' true r1.1.2 r1.2 Hin H5 H3)
    as (G1 & G2 & G3).
  cbv zeta in *.
  set (r2 := toggle env' id files' true r1.1.2 r1.2) in *.
  assert (Hdel : (Worker.caches_delete ("manual-" +:+ id)
                    (Worker.storage r1.2)).2 = true).
  { rewrite caches_delete_deleted. apply bool_decide_eq_true_2.
    rewrite H2. cbn [Worker.storage]. eauto. }
  rewrite Hdel in G1, G3. cbn [andb] in G1.
  assert (Hc2 : Worker.Consistent (Worker.storage r2.2))
    by (rewrite G2; cbn [Worker.storage]; apply caches_delete_consistent;
        rewrite H2; exact Hc1).
  assert (Hmirror : mirror r2.1.2 = Some (offlineManuals c)).
  { rewrite G3. cbn [mirror saveOfflineManuals withOffline offlineManuals].
    rewrite H6, (set_delete_add _ _ Ho). reflexivity. }
  split; [exact H1|]. split; [exact Hin|]. split.
  { apply reportedOffline_consistent.
    - rewrite H2. exact Hc1.
    - rewrite H2. exists cache. exact Hcache. }
  split; [exact G1|].
  split.
  { rewrite G3. cbn [offlineManuals saveOfflineManuals withOffline].
    rewrite H6. apply set_delete_add, Ho. }
  split; [exact Hmirror|].
  split; [intros Hm; rewrite Hm; exact Hmirror|].
  split.
  - intros x.
    rewrite (reportedOffline_consistent _ _ Hc2).
    rewrite (reportedOffline_consistent (Worker.run ts)) by exact Hc0.
    unfold Worker.manualCacheExists. rewrite G2. cbn [Worker.storage].
    rewrite caches_delete_lookup, H2. cbn [Worker.storage].
    destruct (decide ("manual-" +:+ x = "manual-" +:+ id)) as [Heq|Hne].
    + apply manual_name_inj in Heq. split; [intros [y Hy]; discriminate|].
      intros [_ Hx]. contradiction.
    + destruct Hframe as (Hother & _). cbv zeta in Hother.
      rewrite (Hother _ Hne). split.
      * intros Hx. split; [exact Hx|]. intros ->. apply Hne. reflexivity.
      * intros [Hx _]. exact Hx.
  - intros Hnot.
    rewrite (reportedOffline_consistent _ _ Hc0) in Hnot.
    unfold Worker.manualCacheExists in Hnot.
    assert (Habsent : Worker.caches (Worker.storage (Worker.run ts))
                        !! ("manual-" +:+ id) = None).
    { destruct (Worker.caches (Worker.storage (Worker.run ts))
                  !! ("manual-" +:+ id)) eqn:E; [|reflexivity].
      exfalso. apply Hnot. eauto. }
    assert (Hname : "manual-" +:+ id ∉
                    Worker.names (Worker.storage (Worker.run ts))).
    { intros Hn. apply (Worker.names_listed _ Hc0) in Hn as [x Hx].
      congruence. }
    unfold Worker.reportedOffline.
    destruct (getOfflineManuals_consistent _ Hc0) as (ms & -> & Hms).
    destruct (getOfflineManuals_consistent _ Hc2) as (ms' & -> & Hms').
    cbn [snd]. rewrite Hms, Hms'. do 2 f_equal.
    rewrite G2. cbn [Worker.storage].
    rewrite caches_delete_names by (rewrite H2; exact Hc1).
    rewrite H2. cbn [Worker.storage].
    destruct Hframe as (_ & Hnames & _). cbv zeta in Hnames.
    rewrite Hnames. unfold Worker.caches_open. rewrite Habsent.
    cbn [Worker.names]. apply filter_snoc_absent, Hname.
Qed.


End SessionFacts.

Lemma toggle_download_witness :
  ("HRN113-001"%string ∉ Offline.offlineManuals Examples.idle) ∧
  ("HRN113-001"%string ∉ Offline.pendingDownloads Examples.idle) ∧
  Offline.serviceWorkerFailed Examples.idle = false ∧
  Offline.swRegistration Examples.idle = true ∧
  (Session.toggle Cases.onlineEnv "HRN113-001" Cases.pageImages false
                  Examples.idle (Worker.run Cases.cached737)).1.1 = false ∧
  Offline.offlineManuals
    (Session.toggle Cases.onlineEnv "HRN113-001" Cases.pageImages false
                    Examples.idle (Worker.run Cases.cached737)).1.2 =
    ["HRN113-001"%string] ∧
  Offline.mirror
    (Session.toggle Cases.onlineEnv "HRN113-001" Cases.pageImages false
                    Examples.idle (Worker.run Cases.cached737)).1.2 = None ∧
  (Session.toggle Cases.onlineEnv "HRN113-001" Cases.pageImages true
                  Examples.idle (Worker.run Cases.cached737)).1.1 = true ∧
  (Session.toggle Examples.offlineEnv "HRN113-001" Cases.pageImages true
                  Examples.idle (Worker.run Cases.cached737)).1.1 = false.
Proof.
  assert (Ho : "HRN113-001"%string ∉ Offline.offlineManuals Examples.idle)
    by (intros H; inversion H).
  assert (Hp : "HRN113-001"%string ∉ Offline.pendingDownloads Examples.idle)
    by (intros H; vm_compute in H; discriminate).
  assert (Ef : Offline.serviceWorkerFailed Examples.idle = false)
    by reflexivity.
  assert (Er : Offline.swRegistration Examples.idle = true) by reflexivity.
  assert (Hproto : "HRN113-001"%string ∉ Worker.OBJECT_PROTOTYPE_KEYS)
    by (apply (bool_decide_unpack _); vm_compute; exact I).
  assert (Hall : Forall (λ u, Worker.net Cases.onlineEnv u = true)
                   (default [] (Worker.MANUAL_FILES !! "HRN113-001"%string) ++
                    Cases.pageImages))
    by (apply List.Forall_forall; intros; reflexivity).
  split; [exact Ho|]. split; [exact Hp|]. split; [exact Ef|].
  split; [exact Er|].
  destruct (toggle_download Cases.cached737 Cases.onlineEnv "HRN113-001"
              Cases.pageImages false Examples.idle Ho Hp Ef Er)
    as (H1 & H2 & _ & H4 & _ & _ & H7).
  cbv zeta in *.
  pose proof (H7 Hproto Hall) as Hs.
  rewrite Hs in H1. cbn [andb] in H1.
  split; [exact H1|]. split; [exact (proj1 (H2 Hs))|].
  split; [exact (H4 H1)|].
  destruct (toggle_download Cases.cached737 Cases.onlineEnv "HRN113-001"
              Cases.pageImages true Examples.idle Ho Hp Ef Er)
    as (G1 & _ & _ & _ & _ & _ & G7).
  destruct (toggle_download Cases.cached737 Examples.offlineEnv "HRN113-001"
              Cases.pageImages true Examples.idle Ho Hp Ef Er)
    as (F1 & _).
  cbv zeta in *.
  rewrite (G7 Hproto Hall) in G1.
  split; [exact G1|]. rewrite F1. vm_compute. reflexivity.
Defined.

Lemma toggle_remove_witness :
  "HRN113-001"%string ∈ Offline.offlineManuals Cases.listing ∧
  ("HRN113-001"%string ∉ Offline.pendingDownloads Cases.listing) ∧
  Offline.swRegistration Cases.listing = true ∧
  "HRN113-001"%string ∈ Worker.reportedOffline (Worker.run Cases.cached113) ∧
  (Session.toggle Cases.onlineEnv "HRN113-001" [] true
                  Cases.listing (Worker.run Cases.cached113)).1.1 = true ∧
  Offline.offlineManuals
    (Session.toggle Cases.onlineEnv "HRN113-001" [] true
                    Cases.listing (Worker.run Cases.cached113)).1.2 = [] ∧
  (Session.toggle Cases.onlineEnv "HRN113-001" [] true
                  Cases.listing (Worker.run [])).1.1 = false.
Proof.
  assert (Ho : "HRN113-001"%string ∈ Offline.offlineManuals Cases.listing)
    by apply list_elem_of_here.
  assert (Hp : "HRN113-001"%string ∉ Offline.pendingDownloads Cases.listing)
    by (intros H; vm_compute in H; discriminate).
  assert (Er : Offline.swRegistration Cases.listing = true) by reflexivity.
  assert (Hin : "HRN113-001"%string ∈
                Worker.reportedOffline (Worker.run Cases.cached113))
    by (apply (bool_decide_unpack _); vm_compute; exact I).
  assert (Hnin : "HRN113-001"%string ∉ Worker.reportedOffline (Worker.run []))
    by (apply (bool_decide_unpack _); vm_compute; exact I).
  split; [exact Ho|]. split; [exact Hp|]. split; [exact Er|].
  split; [exact Hin|].
  destruct (toggle_remove Cases.cached113 Cases.onlineEnv "HRN113-001" []
              true Cases.listing Ho Hp Er) as (H1 & H2 & _).
  destruct (toggle_remove [] Cases.onlineEnv "HRN113-001" []
              true Cases.listing Ho Hp Er) as (G1 & _).
  cbv zeta in *.
  rewrite bool_decide_eq_true_2 in H1 by exact Hin.
  rewrite bool_decide_eq_false_2 in G1 by exact Hnin.
  split; [exact H1|]. split; [|exact G1].
  rewrite (proj1 (H2 Hin)). reflexivity.
Defined.

Lemma toggle_twice_witness :
  ("HRN113-001"%string ∉ Offline.offlineManuals Cases.saved) ∧
  ("HRN113-001"%string ∉ Offline.pendingDownloads Cases.saved) ∧
  Offline.serviceWorkerFailed Cases.saved = false ∧
  Offline.swRegistration Cases.saved = true ∧
  ("HRN113-001"%string ∉ Worker.OBJECT_PROTOTYPE_KEYS) ∧
  Forall (λ u, Worker.net Cases.onlineEnv u = true)
         (default [] (Worker.MANUAL_FILES !! "HRN113-001"%string) ++
          Cases.pageImages) ∧
  Offline.mirror Cases.saved = Some (Offline.offlineManuals Cases.saved) ∧
  ("HRN113-001"%string ∉ Worker.reportedOffline (Worker.run Cases.cached737)) ∧
  Worker.reportedOffline (Worker.run Cases.cached737) =
    ["HRN737-012"%string] ∧
  Offline.offlineManuals
    (Session.toggle Examples.offlineEnv "HRN113-001" [] true
       (Session.toggle Cases.onlineEnv "HRN113-001" Cases.pageImages true
                       Cases.saved (Worker.run Cases.cached737)).1.2
       (Session.toggle Cases.onlineEnv "HRN113-001" Cases.pageImages true
                       Cases.saved (Worker.run Cases.cached737)).2).1.2 =
    Offline.offlineManuals Cases.saved ∧
  Offline.mirror
    (Session.toggle Examples.offlineEnv "HRN113-001" [] true
       (Session.toggle Cases.onlineEnv "HRN113-001" Cases.pageImages true
                       Cases.saved (Worker.run Cases.cached737)).1.2
       (Session.toggle Cases.onlineEnv "HRN113-001" Cases.pageImages true
                       Cases.saved (Worker.run Cases.cached737)).2).1.2 =
    Offline.mirror Cases.saved ∧
  Worker.reportedOffline
    (Session.toggle Examples.offlineEnv "HRN113-001" [] true
       (Session.toggle Cases.onlineEnv "HRN113-001" Cases.pageImages true
                       Cases.saved (Worker.run Cases.cached737)).1.2
       (Session.toggle Cases.onlineEnv "HRN113-001" Cases.pageImages true
                       Cases.saved (Worker.run Cases.cached737)).2).2 =
    Worker.reportedOffline (Worker.run Cases.cached737).
Proof.
  assert (Ho : "HRN113-001"%string ∉ Offline.offlineManuals Cases.saved)
    by (intros H; inversion H).
  assert (Hp : "HRN113-001"%string ∉ Offline.pendingDownloads Cases.saved)
    by (intros H; vm_compute in H; discriminate).
  assert (Ef : Offline.serviceWorkerFailed Cases.saved = false)
    by reflexivity.
  assert (Er : Offline.swRegistration Cases.saved = true) by reflexivity.
  assert (Hproto : "HRN113-001"%string ∉ Worker.OBJECT_PROTOTYPE_KEYS)
    by (apply (bool_decide_unpack _); vm_compute; exact I).
  assert (Hall : Forall (λ u, Worker.net Cases.onlineEnv u = true)
                   (default [] (Worker.MANUAL_FILES !! "HRN113-001"%string) ++
                    Cases.pageImages))
    by (apply List.Forall_forall; intros; reflexivity).
  assert (Hm : Offline.mirror Cases.saved =
               Some (Offline.offlineManuals Cases.saved)) by reflexivity.
  assert (Hnot : "HRN113-001"%string ∉
                 Worker.reportedOffline (Worker.run Cases.cached737))
    by (apply (bool_decide_unpack _); vm_compute; exact I).
  assert (Hrep : Worker.reportedOffline (Worker.run Cases.cached737) =
                 ["HRN737-012"%string]) by (vm_compute; reflexivity).
  split; [exact Ho|]. split; [exact Hp|]. split; [exact Ef|].
  split; [exact Er|]. split; [exact Hproto|]. split; [exact Hall|].
  split; [exact Hm|]. split; [exact Hnot|]. split; [exact Hrep|].
  destruct (toggle_twice Cases.cached737 Cases.onlineEnv Examples.offlineEnv
              "HRN113-001" Cases.pageImages [] Cases.saved
              Ho Hp Ef Er Hproto Hall)
    as (_ & _ & _ & _ & H5 & _ & H7 & _ & H9).
  cbv zeta in *.
  split; [exact H5|]. split; [exact (H7 Hm)|exact (H9 Hnot)].
Defined.

(** ** The coordinator: pending downloads and update checks *)
Section CoordinatorFacts.
Import Offline Session.
Local Open Scope string_scope.

Lemma Accounted_place c ts ts' es es' k id ph input :
  Accounted {| coordinator := c; tasks := ts; effects := es |} →
  ts !! k = Some {| task_manual := id; task_phase := ph |} ∨
  (ts !! k = None ∧ inFlight ph = false) →
  (∀ m, m ≠ k → ts' !! m = ts !! m) →
  ts' !! k = Some {| task_manual := id;
                     task_phase := (downloadStep id ph input c).1.1 |} →
  Accounted {| coordinator := (downloadStep id ph input c).1.2;
               tasks := ts'; effects := es' |}.
Proof.
  intros I Hk Hother Hnew. unfold Accounted in *.
  cbn [coordinator tasks] in *.
  assert (Hkeep : ∀ x n t, ts !! n = Some t → n ≠ k →
                    task_manual t = x → inFlight (task_phase t) = true →
                    ∃ n' t', ts' !! n' = Some t' ∧ task_manual t' = x ∧
                             inFlight (task_phase t') = true).
  { intros x n t Hn Hne Hx Ht. exists n, t.
    rewrite (Hother n Hne). auto. }
  destruct (inFlight ph) eqn:Eph.
  - destruct Hk as [Hk|[_ Hk]]; [|discriminate].
    destruct (downloadStep_in_flight id ph input c Eph)
      as [[Hfl Hc]|[Hfl Hp]].
    + rewrite Hc. intros x Hx. destruct (I x Hx) as (n & t & Hn & Hm & Ht).
      destruct (decide (n = k)) as [->|Hne]; [|eapply Hkeep; eassumption].
      rewrite Hk in Hn. injection Hn as <-. cbn [task_manual] in Hm.
      eexists k, _. split; [exact Hnew|]. split; [exact Hm|exact Hfl].
    + intros x Hx. rewrite Hp in Hx.
      apply elem_of_difference in Hx as [Hx Hne].
      destruct (I x Hx) as (n & t & Hn & Hm & Ht).
      apply (Hkeep x n t Hn); [|exact Hm|exact Ht].
      intros ->. rewrite Hk in Hn. injection Hn as <-.
      apply Hne, elem_of_singleton. symmetry. exact Hm.
  - assert (Hnk : ∀ n t, ts !! n = Some t →
                    inFlight (task_phase t) = true → n ≠ k).
    { intros n t Hn Ht ->. destruct Hk as [Hk|[Hk _]].
      - rewrite Hk in Hn. injection Hn as <-. cbn [task_phase] in Ht.
        congruence.
      - congruence. }
    destruct (downloadStep_not_in_flight id ph input c Eph)
      as [[Hfl Hc]|(Hnp & Hfl & Hp)].
    + rewrite Hc. intros x Hx. destruct (I x Hx) as (n & t & Hn & Hm & Ht).
      apply (Hkeep x n t Hn); [eapply Hnk; eassumption|exact Hm|exact Ht].
    + intros x Hx. rewrite Hp in Hx. apply elem_of_union in Hx as [Hx|Hx].
      * apply elem_of_singleton in Hx as ->.
        eexists k, _. split; [exact Hnew|]. split; [reflexivity|exact Hfl].
      * destruct (I x Hx) as (n & t & Hn & Hm & Ht).
        apply (Hkeep x n t Hn); [eapply Hnk; eassumption|exact Hm|exact Ht].
Qed.

Lemma systemStep_Accounted s e : Accounted s → Accounted (systemStep s e).
Proof.
  destruct s as [c ts es]. intros H.
  destruct e as [id|n input|offline stored]; cbn [systemStep tasks];
    [| |exact H].
  - unfold advance. cbn [coordinator tasks effects].
    destruct (downloadStep id NotStarted Call c) as [[ph' c'] es'] eqn:E.
    cbn [coordinator tasks effects].
    pose proof (Accounted_place c ts
                  (ts ++ [{| task_manual := id; task_phase := ph' |}])
                  es (es ++ es') (length ts) id NotStarted Call H) as G.
    rewrite E in G. simpl in G. apply G.
    + right. split; [apply lookup_ge_None_2; lia|reflexivity].
    + intros m Hm. destruct (decide (m < length ts)).
      * apply lookup_app_l. assumption.
      * rewrite !lookup_ge_None_2; [reflexivity|lia|].
        rewrite length_app. simpl. lia.
    + rewrite lookup_app_r by lia. rewrite Nat.sub_diag. reflexivity.
  - destruct (ts !! n) as [[id ph]|] eqn:En; [|exact H].
    unfold advance. cbn [coordinator tasks effects task_manual task_phase].
    destruct (downloadStep id ph input c) as [[ph' c'] es'] eqn:E.
    cbn [coordinator tasks effects].
    pose proof (Accounted_place c ts
                  (<[n := {| task_manual := id; task_phase := ph' |}]> ts)
                  es (es ++ es') n id ph input H) as G.
    rewrite E in G. simpl in G. apply G.
    + left. exact En.
    + intros m Hm. apply list_lookup_insert_ne. congruence.
    + apply list_lookup_insert_eq. eapply lookup_lt_Some, En.
Qed.

Lemma runSystem_Accounted c0 events : Accounted (runSystem c0 events).
Proof.
  unfold runSystem.
  assert (G : ∀ s, Accounted s → Accounted (fold_left systemStep events s)).
  { induction events as [|e events IH]; intros s H; simpl; [exact H|].
    apply IH, systemStep_Accounted, H. }
  apply G. intros id Hid. cbn in Hid.
  apply not_elem_of_empty in Hid. contradiction.
Qed.

(** Two elements that pass a filter sit at two places of the list. *)
Lemma filter_two {A} (p : A → bool) (l : list A) a b rest :
  List.filter p l = a :: b :: rest →
  ∃ n m, n ≠ m ∧ l !! n = Some a ∧ l !! m = Some b ∧
         p a = true ∧ p b = true.
Proof.
  revert a b rest. induction l as [|x l IH]; intros a b rest; simpl;
    [discriminate|].
  destruct (p x) eqn:Ex.
  - intros [= -> Hrest].
    assert (Hin : In b (List.filter p l)) by (rewrite Hrest; left; reflexivity).
    apply List.filter_In in Hin as [Hin Hb].
    apply list_elem_of_In, list_elem_of_lookup in Hin as [m Hm].
    exists 0, (S m). repeat split; [lia|exact Hm|exact Ex|exact Hb].
  - intros H. destruct (IH _ _ _ H) as (n & m & Hne & Hn & Hm & Ha & Hb).
    exists (S n), (S m). repeat split; [lia|exact Hn|exact Hm|exact Ha|exact Hb].
Qed.

(** X26: However calls of [downloadManual] and the other operations are
    interleaved, a manual is in [pendingDownloads] exactly while a call
    for it is in flight, and then exactly one call is: no entry is left
    behind when a call returns. *)
Theorem pending_iff_in_flight (c0 : Coordinator)
  (events : list SystemEvent) (id : string) :
  length (inFlightFor id (runSystem c0 events)) =
    (if bool_decide (id ∈ pendingDownloads (coordinator (runSystem c0 events)))
     then 1 else 0) ∧
  (id ∈ pendingDownloads (coordinator (runSystem c0 events)) ↔
   inFlightFor id (runSystem c0 events) ≠ []).
Proof.
  pose proof (runSystem_Guarded c0 events) as G.
  pose proof (runSystem_Accounted c0 events) as A.
  set (s := runSystem c0 events) in *.
  assert (Hiff : id ∈ pendingDownloads (coordinator s) ↔
                 inFlightFor id s ≠ []).
  { split; [|apply inFlightFor_pending, G].
    intros Hid. destruct (A id Hid) as (n & t & Hn & Hm & Ht).
    assert (Hin : In t (inFlightFor id s)).
    { apply List.filter_In. split.
      - apply list_elem_of_In, list_elem_of_lookup. eauto.
      - rewrite Hm, String.eqb_refl, Ht. reflexivity. }
    intros E. rewrite E in Hin. exact Hin. }
  split; [|exact Hiff].
  case_bool_decide as Hp.
  - apply Hiff in Hp.
    destruct (inFlightFor id s) as [|a [|b rest]] eqn:E;
      [contradiction|reflexivity|].
    exfalso. apply filter_two in E
      as (n & m & Hne & Hn & Hm & Ha & Hb).
    apply andb_true_iff in Ha as [Ha1 Ha2].
    apply andb_true_iff in Hb as [Hb1 Hb2].
    apply String.eqb_eq in Ha1, Hb1.
    destruct G as [_ G2]. apply Hne.
    apply (G2 n m a b Hn Hm Ha2 Hb2). congruence.
  - destruct (inFlightFor id s) eqn:E; [reflexivity|].
    exfalso. apply Hp, Hiff. discriminate.
Qed.

(** *** The rate limit of [checkForUpdates] *)

Lemma checkForUpdates_cases now outcome u :
  (passes now u = false ∧ checkForUpdates now outcome u = (u, [])) ∨
  (passes now u = true ∧ isOnline u = true ∧
   (lastUpdateCheck u = 0 ∨ oneHour ≤ now - lastUpdateCheck u)%Z ∧
   (checkForUpdates now outcome u).1 =
     {| isOnline := isOnline u; lastUpdateCheck := now |} ∧
   (length (List.filter isPost (checkForUpdates now outcome u).2) ≤ 1)%nat ∧
   (existsb isPost (checkForUpdates now outcome u).2 = true ↔
    outcome ≠ Unavailable)).
Proof.
  unfold checkForUpdates, passes.
  destruct (isOnline u); cbn [negb andb]; [|left; split; reflexivity].
  destruct (rateLimited now u) eqn:E; cbn [negb];
    [left; split; reflexivity|].
  right. split; [reflexivity|]. split; [reflexivity|]. split.
  { unfold rateLimited in E. apply andb_false_iff in E as [E|E].
    - apply negb_false_iff, Z.eqb_eq in E. left. exact E.
    - apply Z.ltb_ge in E. right. exact E. }
  split; [reflexivity|]. cbn [snd].
  destruct outcome as [| |[? ?|?|? ?|?| |[|] ?| |?]]; cbn;
    (split; [lia|]); split; congruence.
Qed.

(** X27: The rate limit of [checkForUpdates], with a clock that is
    positive and never goes back. The calls that get past the limit -
    those that record their clock value in [lastUpdateCheck] - read
    clock values at least one hour apart, and the first of them at
    least an hour after the check recorded before, if there is one. A
    call that does not get past the limit, or is made while offline,
    does nothing and leaves the state as it is; a call that gets past
    it posts at most one [check-version] request (which it does later
    than the clock value it read, after waiting for the worker), and
    starts the hour even if its request is rejected before it is
    posted. *)
Theorem checkForUpdates_rate_limit (calls : list (Z * SendOutcome))
  (u : UpdateState) :
  StronglySorted Z.le (map fst calls) →
  Forall (λ call, (0 < call.1 ∧ lastUpdateCheck u ≤ call.1)%Z) calls →
  let log := checkLog calls u in
  StronglySorted (λ t t', (oneHour ≤ t' - t)%Z) (passedAt log) ∧
  Forall (λ t, (lastUpdateCheck u = 0 ∨ oneHour ≤ t - lastUpdateCheck u)%Z)
         (passedAt log) ∧
  Forall (λ entry, entry.1.2 = false → entry.2 = []) log ∧
  Forall (λ entry, (length (List.filter isPost entry.2) ≤ 1)%nat) log ∧
  (isOnline u = false → passedAt log = []).
Proof.
  cbv zeta.
  revert u. induction calls as [|[now outcome] rest IH]; intros u Hs Hc.
  { repeat split; constructor. }
  cbn [map fst] in Hs. apply StronglySorted_inv in Hs as [Hs Hnow].
  apply Forall_cons in Hc as [[Hpos Hlast] Hc]. cbn [fst] in Hpos, Hlast.
  cbn [checkLog]. unfold passedAt. cbn [List.filter fst snd].
  fold (passedAt (checkLog rest (checkForUpdates now outcome u).1)).
  destruct (checkForUpdates_cases now outcome u)
    as [[Hpass E]|(Hpass & Hon & Hgap & Hu & Hone & Hpost)].
  - rewrite E, Hpass. cbn [fst snd].
    destruct (IH u Hs Hc) as (I1 & I2 & I3 & I4 & I5).
    split; [exact I1|]. split; [exact I2|].
    split; [constructor; [reflexivity|exact I3]|].
    split; [constructor; [cbn; lia|exact I4]|].
    exact I5.
  - rewrite Hu, Hpass.
    assert (Hc' : Forall (λ call, (0 < call.1 ∧ now ≤ call.1)%Z) rest).
    { rewrite List.Forall_forall in *. intros call Hin.
      split; [apply Hc, Hin|]. apply Hnow, in_map, Hin. }
    destruct (IH {| isOnline := isOnline u; lastUpdateCheck := now |} Hs Hc')
      as (I1 & I2 & I3 & I4 & _).
    cbn [lastUpdateCheck] in I2.
    assert (I2' : Forall (λ t, (oneHour ≤ t - now)%Z)
                    (passedAt (checkLog rest
                       {| isOnline := isOnline u;
                          lastUpdateCheck := now |}))).
    { eapply List.Forall_impl; [|exact I2]. cbv beta. intros t Ht. lia. }
    assert (I2'' : Forall (λ t, (lastUpdateCheck u = 0 ∨
                                 oneHour ≤ t - lastUpdateCheck u)%Z)
                     (passedAt (checkLog rest
                        {| isOnline := isOnline u;
                           lastUpdateCheck := now |}))).
    { eapply List.Forall_impl; [|exact I2']. cbv beta. intros t Ht.
      right. unfold oneHour in *. lia. }
    cbn [map fst snd].
    split; [constructor; [exact I1|exact I2']|].
    split; [constructor; [exact Hgap|exact I2'']|].
    split; [constructor; [discriminate|exact I3]|].
    split; [constructor; [exact Hone|exact I4]|].
    intros Hoff. congruence.
Qed.

End CoordinatorFacts.

Lemma checkForUpdates_rate_limit_witness :
  StronglySorted Z.le (map fst Cases.updateChecks) ∧
  Forall (λ call,
            (0 < call.1 ∧
             Session.lastUpdateCheck
               {| Session.isOnline := true;
                  Session.lastUpdateCheck := 0 |} ≤ call.1)%Z)
         Cases.updateChecks ∧
  StronglySorted (λ t t', (Session.oneHour ≤ t' - t)%Z)
    (Session.passedAt
       (Session.checkLog Cases.updateChecks
          {| Session.isOnline := true; Session.lastUpdateCheck := 0 |})) ∧
  Session.passedAt
    (Session.checkLog Cases.updateChecks
       {| Session.isOnline := true; Session.lastUpdateCheck := 0 |}) =
    [1000%Z; 3601000%Z].
Proof.
  assert (Hs : StronglySorted Z.le (map fst Cases.updateChecks))
    by (repeat constructor; cbn; lia).
  assert (Hc : Forall (λ call,
                 (0 < call.1 ∧
                  Session.lastUpdateCheck
                    {| Session.isOnline := true;
                       Session.lastUpdateCheck := 0 |} ≤ call.1)%Z)
                 Cases.updateChecks)
    by (repeat constructor; cbn; lia).
  split; [exact Hs|]. split; [exact Hc|].
  destruct (checkForUpdates_rate_limit _ _ Hs Hc) as (H & _).
  split; [exact H|]. vm_compute. reflexivity.
Defined.

(** ** Page navigation *)
Section ViewerFacts.
Import Viewer.

Lemma navigateToPage_cases length pageId cur :
  ((0 ≤ pageId < Z.of_nat length)%Z ∧
   navigateToPage length pageId cur = Some pageId) ∨
  (¬ (0 ≤ pageId < Z.of_nat length)%Z ∧
   navigateToPage length pageId cur = cur).
Proof.
  unfold navigateToPage.
  destruct (pageId <? 0)%Z eqn:E1; cbn [orb].
  - apply Z.ltb_lt in E1. right. split; [lia|reflexivity].
  - apply Z.ltb_ge in E1.
    destruct (Z.of_nat length <=? pageId)%Z eqn:E2.
    + apply Z.leb_le in E2. right. split; [lia|reflexivity].
    + apply Z.leb_gt in E2. left. split; [lia|reflexivity].
Qed.

Lemma navigateToPage_inRange length pageId cur :
  inRange length cur → inRange length (navigateToPage length pageId cur).
Proof.
  intros H. destruct (navigateToPage_cases length pageId cur)
    as [[Hr ->]|[_ ->]]; [exact Hr|exact H].
Qed.

Lemma handle_inRange length cur e :
  inRange length cur → inRange length (handle length cur e).
Proof.
  intros H. destruct e as [| |onInput key|sx ex sy ey d|pageId];
    cbn [handle].
  - apply navigateToPage_inRange, H.
  - apply navigateToPage_inRange, H.
  - unfold handleKeyboard. destruct onInput; [exact H|].
    destruct key, cur; try exact H; apply navigateToPage_inRange, H.
  - unfold handleSwipe. destruct cur as [p|]; [|exact H].
    destruct (_ && _); [|exact H].
    destruct (0 <? _)%Z; apply navigateToPage_inRange, H.
  - apply navigateToPage_inRange, H.
Qed.

(** X12: Whatever the user does, [currentPage] stays [null] or the index of
    a page; every event moves by at most one page unless it opens a
    page by its index; and once a page is shown, the previous button is
    disabled exactly on the first page and the next button exactly on
    the last. *)
Theorem view_in_range (length : nat) (events : list Event) (e : Event) :
  let cur := view length events in
  inRange length cur ∧
  (match e with
   | Open _ => True
   | _ => (Z.abs (toNumber (handle length cur e) - toNumber cur) ≤ 1)%Z
   end) ∧
  (∀ p, cur = Some p →
        ((updateNavigation length cur).1 = true ↔ p = 0%Z) ∧
        ((updateNavigation length cur).2 = true ↔
         p = (Z.of_nat length - 1)%Z)).
Proof.
  cbv zeta.
  assert (H : inRange length (view length events)).
  { unfold view.
    assert (G : ∀ cur, inRange length cur →
                       inRange length (fold_left (handle length) events cur)).
    { induction events as [|e' events IH]; intros cur Hc; simpl;
        [exact Hc|]. apply IH, handle_inRange, Hc. }
    apply G. exact I. }
  set (cur := view length events) in *.
  split; [exact H|]. split.
  - assert (N : ∀ k, (Z.abs (k - toNumber cur) ≤ 1)%Z →
                     (Z.abs (toNumber (navigateToPage length k cur) -
                             toNumber cur) ≤ 1)%Z).
    { intros k Hk. destruct (navigateToPage_cases length k cur)
        as [[_ ->]|[_ ->]]; cbn [toNumber]; lia. }
    destruct e as [| |onInput key|sx ex sy ey d|pageId]; cbn [handle];
      [apply N; lia|apply N; lia| | |exact I].
    + unfold handleKeyboard. destruct onInput; [lia|].
      destruct key, cur as [p|]; try lia; apply N; cbn [toNumber]; lia.
    + unfold handleSwipe. destruct cur as [p|]; [|lia].
      destruct (_ && _); [|lia].
      destruct (0 <? _)%Z; apply N; cbn [toNumber]; lia.
  - intros p Hp. rewrite Hp in H. cbn [inRange] in H.
    rewrite Hp. unfold updateNavigation. cbn [fst snd toNumber].
    rewrite Z.leb_le, Z.leb_le. lia.
Qed.

(** X13: Moving from a shown page: the right arrow key, the next button and
    a swipe to the left (more than 70 across, less than 40 up or down,
    lasting 150 to 600 ms) all go to the next page, and do nothing on
    the last page; their counterparts go to the previous page, and do
    nothing on the first. With no page shown, the keys and swipes do
    nothing, the previous button does nothing, and the next button
    opens the page of index 1 if there is one. *)
Theorem step_by_one (length : nat) (p : Z) (sx ex sy ey d : Z) :
  (0 ≤ p < Z.of_nat length)%Z →
  let next := if (p + 1 <? Z.of_nat length)%Z then Some (p + 1)%Z
              else Some p in
  let prev := if (0 <? p)%Z then Some (p - 1)%Z else Some p in
  handle length (Some p) NextClick = next ∧
  handle length (Some p) (KeyDown false ArrowRight) = next ∧
  handle length (Some p) PrevClick = prev ∧
  handle length (Some p) (KeyDown false ArrowLeft) = prev ∧
  ((70 < Z.abs (sx - ex))%Z → (Z.abs (sy - ey) < 40)%Z →
   (150 ≤ d ≤ 600)%Z →
   handle length (Some p) (Swipe sx ex sy ey d) =
     if (ex <? sx)%Z then next else prev) ∧
  handle length None PrevClick = None ∧
  handle length None (KeyDown false ArrowRight) = None ∧
  handle length None (KeyDown false ArrowLeft) = None ∧
  handle length None (Swipe sx ex sy ey d) = None ∧
  handle length None NextClick =
    (if (1 <? Z.of_nat length)%Z then Some 1%Z else None).
Proof.
  intros Hp. cbv zeta.
  assert (Hn : navigateToPage length (p + 1) (Some p) =
               if (p + 1 <? Z.of_nat length)%Z then Some (p + 1)%Z
               else Some p).
  { destruct (navigateToPage_cases length (p + 1) (Some p))
      as [[Hr ->]|[Hr ->]];
      destruct (p + 1 <? Z.of_nat length)%Z eqn:E;
      try reflexivity; [apply Z.ltb_ge in E|apply Z.ltb_lt in E]; lia. }
  assert (Hv : navigateToPage length (p - 1) (Some p) =
               if (0 <? p)%Z then Some (p - 1)%Z else Some p).
  { destruct (navigateToPage_cases length (p - 1) (Some p))
      as [[Hr ->]|[Hr ->]];
      destruct (0 <? p)%Z eqn:E;
      try reflexivity; [apply Z.ltb_ge in E|apply Z.ltb_lt in E]; lia. }
  cbn [handle handleKeyboard toNumber].
  repeat split; try assumption.
  - intros Hx Hy [Hd1 Hd2]. unfold handleSwipe.
    assert (E : ((70 <? Z.abs (sx - ex))%Z && (Z.abs (sy - ey) <? 40)%Z &&
                 (150 <=? d)%Z && (d <=? 600)%Z) = true).
    { rewrite !andb_true_iff, !Z.ltb_lt, !Z.leb_le. lia. }
    rewrite E.
    destruct (0 <? sx - ex)%Z eqn:E1; destruct (ex <? sx)%Z eqn:E2;
      try assumption;
      rewrite ?Z.ltb_lt, ?Z.ltb_ge in E1, E2; lia.
  - unfold navigateToPage. cbn [Z.ltb Z.add Z.compare orb].
    destruct (1 <? Z.of_nat length)%Z eqn:E.
    + apply Z.ltb_lt in E.
      rewrite (proj2 (Z.leb_gt _ _)) by lia. reflexivity.
    + apply Z.ltb_ge in E.
      rewrite (proj2 (Z.leb_le _ _)) by lia. reflexivity.
Qed.

End ViewerFacts.

Lemma step_by_one_witness :
  (0 ≤ 1 < Z.of_nat 3)%Z ∧
  Viewer.handle 3 (Some 1%Z) Viewer.NextClick = Some 2%Z.
Proof.
  assert (H : (0 ≤ 1 < Z.of_nat 3)%Z) by (cbn; lia).
  split; [exact H|].
  destruct (step_by_one 3 1 0 0 0 0 0 H) as (G & _).
  exact G.
Defined.

(** ** Highlighting *)
Section HighlightFacts.
Import Search Highlight.
Variable toLowerCase : jsstring → jsstring.

Lemma includes_length (s p : jsstring) :
  includes s p = true → length p ≤ length s.
Proof.
  intros H. apply includes_spec in H as (a & b & ->).
  rewrite !length_app. lia.
Qed.

(** X10: Highlighting follows the matching of [search]: a text word whose
    lower-cased form the search would count for a query word is
    highlighted for it. The only words highlighted beyond that are
    those of at least five code units that are contained in the query
    word and have at least 0.6 times its length. *)
Theorem qualifies_covers_search (queryWord word : jsstring) :
  (is_Some (scoreBonus queryWord word) → qualifies queryWord word = true) ∧
  (qualifies queryWord word = true → scoreBonus queryWord word = None →
   5 ≤ length word ∧ includesSpec queryWord word ∧
   6 * length queryWord ≤ 10 * length word).
Proof.
  unfold scoreBonus, qualifies.
  case_bool_decide as E1; [split; [reflexivity|discriminate]|].
  destruct (startsWith word queryWord && (3 <=? length queryWord));
    [split; [reflexivity|discriminate]|].
  destruct (startsWith queryWord word && (3 <=? length word));
    [split; [reflexivity|discriminate]|].
  destruct (5 <=? length queryWord) eqn:L1; cbn [andb];
    [|split; [intros [x Hx]; discriminate|discriminate]].
  destruct (5 <=? length word) eqn:L2; cbn [andb];
    [|split; [intros [x Hx]; discriminate|discriminate]].
  apply Nat.leb_le in L1, L2.
  destruct (includes word queryWord) eqn:I1; cbn [andb orb].
  - apply includes_length in I1.
    rewrite Nat.max_r, Nat.min_l by lia.
    destruct (6 * length word <=? 10 * length queryWord);
      split; try reflexivity; try discriminate.
    intros [x Hx]. discriminate.
  - split; [intros [x Hx]; discriminate|].
    destruct (includes queryWord word) eqn:I2; cbn [andb]; [|discriminate].
    pose proof (includes_length _ _ I2) as Hlen.
    rewrite Nat.max_l, Nat.min_r by lia.
    destruct (6 * length queryWord <=? 10 * length word) eqn:L3;
      [|discriminate].
    apply Nat.leb_le in L3. intros _ _.
    split; [exact L2|]. split; [apply includes_spec, I2|exact L3].
Qed.

Lemma addWord_elem w set x : x ∈ addWord w set ↔ x ∈ set ∨ x = w.
Proof.
  unfold addWord. case_bool_decide as H.
  - split; [auto|]. intros [Hx| ->]; assumption.
  - rewrite elem_of_app, list_elem_of_singleton. reflexivity.
Qed.

Lemma addWord_NoDup w set : NoDup set → NoDup (addWord w set).
Proof.
  intros H. unfold addWord. case_bool_decide as Hw; [exact H|].
  apply NoDup_app. split; [exact H|]. split.
  - intros x Hx Hx'. apply list_elem_of_singleton in Hx' as ->.
    contradiction.
  - apply NoDup_singleton.
Qed.

Lemma addMatching_spec textWords set q :
  let set' := addMatching toLowerCase textWords set q in
  (NoDup set → NoDup set') ∧
  (∀ x, x ∈ set' ↔
        x ∈ set ∨ (x ∈ textWords ∧ 3 ≤ length q ∧
                   qualifies q (toLowerCase x) = true)) ∧
  ∃ more, set' = (set ++ more)%list.
Proof.
  cbv zeta. unfold addMatching.
  destruct (length q <? 3) eqn:E.
  { apply Nat.ltb_lt in E. split; [auto|]. split.
    - intros x. split; [auto|]. intros [H|(_ & H & _)]; [exact H|lia].
    - exists []. rewrite app_nil_r. reflexivity. }
  apply Nat.ltb_ge in E.
  revert set. induction textWords as [|t tw IH]; intros set; cbn [fold_left].
  { split; [auto|]. split.
    - intros x. split; [auto|]. intros [H|(H & _)]; [exact H|inversion H].
    - exists []. rewrite app_nil_r. reflexivity. }
  set (set1 := if qualifies q (toLowerCase t) then addWord t set else set).
  destruct (IH set1) as (I1 & I2 & more & I3).
  assert (H1 : NoDup set → NoDup set1).
  { unfold set1. destruct (qualifies _ _); [apply addWord_NoDup|auto]. }
  assert (H2 : ∀ x, x ∈ set1 ↔
                    x ∈ set ∨ (x = t ∧ qualifies q (toLowerCase x) = true)).
  { intros x. unfold set1. destruct (qualifies q (toLowerCase t)) eqn:Q.
    - rewrite addWord_elem. split.
      + intros [H| ->]; [left; exact H|right; split; [reflexivity|exact Q]].
      + intros [H|[H _]]; [left; exact H|right; exact H].
    - split; [auto|]. intros [H|[-> H]]; [exact H|congruence]. }
  assert (H3 : ∃ more1, set1 = (set ++ more1)%list).
  { unfold set1. destruct (qualifies _ _).
    - unfold addWord. case_bool_decide.
      + exists []. rewrite app_nil_r. reflexivity.
      + eexists. reflexivity.
    - exists []. rewrite app_nil_r. reflexivity. }
  split; [auto|]. split.
  - intros x. rewrite I2, H2, elem_of_cons. split.
    + intros [[H|[-> H]]|(H & H' & H'')]; auto.
    + intros [H|([->|H] & H' & H'')]; auto.
  - destruct H3 as [more1 ->]. exists (more1 ++ more)%list.
    rewrite I3, app_assoc. reflexivity.
Qed.

Lemma wordsToHighlight_fold textWords queryWords set :
  let set' := fold_left (addMatching toLowerCase textWords) queryWords set in
  (NoDup set → NoDup set') ∧
  (∀ x, x ∈ set' ↔
        x ∈ set ∨ (x ∈ textWords ∧
                   ∃ q, q ∈ queryWords ∧ 3 ≤ length q ∧
                        qualifies q (toLowerCase x) = true)).
Proof.
  cbv zeta. revert set.
  induction queryWords as [|q qws IH]; intros set; cbn [fold_left].
  { split; [auto|]. intros x. split; [auto|].
    intros [H|(_ & q & H & _)]; [exact H|inversion H]. }
  destruct (addMatching_spec textWords set q) as (A1 & A2 & _).
  cbv zeta in A1, A2.
  destruct (IH (addMatching toLowerCase textWords set q)) as (I1 & I2).
  split; [auto|].
  intros x. rewrite I2, A2. split.
  - intros [[H|(H & H' & H'')]|(H & q' & Hq & H')]; auto.
    + right. split; [exact H|]. exists q.
      split; [apply list_elem_of_here|auto].
    + right. split; [exact H|]. exists q'.
      split; [apply list_elem_of_further, Hq|exact H'].
  - intros [H|(H & q' & Hq & H' & H'')]; auto.
    apply elem_of_cons in Hq as [->|Hq]; [left; right; auto|].
    right. split; [exact H|]. exists q'. auto.
Qed.

Lemma insertByLength_Permutation w l :
  Permutation (insertByLength w l) (w :: l).
Proof.
  induction l as [|x l IH]; simpl; [reflexivity|].
  destruct (length x <=? length w); [reflexivity|].
  rewrite IH. apply perm_swap.
Qed.

Lemma sortByLength_Permutation l : Permutation (sortByLength l) l.
Proof.
  induction l as [|w l IH]; simpl; [reflexivity|].
  rewrite insertByLength_Permutation, IH. reflexivity.
Qed.

Lemma insertByLength_sorted w l :
  StronglySorted (λ a b, length b ≤ length a) l →
  StronglySorted (λ a b, length b ≤ length a) (insertByLength w l).
Proof.
  induction 1 as [|x l Hs IH Hx]; simpl.
  - constructor; constructor.
  - destruct (length x <=? length w) eqn:E.
    + apply Nat.leb_le in E. constructor.
      * constructor; assumption.
      * constructor; [exact E|].
        eapply List.Forall_impl; [|exact Hx]. cbv beta. intros; lia.
    + apply Nat.leb_gt in E. constructor; [exact IH|].
      rewrite insertByLength_Permutation. constructor; [|exact Hx]. lia.
Qed.

Lemma sortByLength_sorted l :
  StronglySorted (λ a b, length b ≤ length a) (sortByLength l).
Proof.
  induction l as [|w l IH]; simpl; [constructor|].
  apply insertByLength_sorted, IH.
Qed.

Lemma special_not_letter c :
  danishWordPattern c = true → special c = false.
Proof.
  intros H. destruct (special c) eqn:E; [|reflexivity].
  unfold special in E. apply existsb_exists in E as (v & Hv & Ev).
  apply N.eqb_eq in Ev. subst v.
  repeat (destruct Hv as [<-|Hv]; [vm_compute in H; discriminate|]).
  destruct Hv.
Qed.

Lemma escapeRegExp_letters w :
  forallb danishWordPattern w = true → escapeRegExp w = w.
Proof.
  induction w as [|c w IH]; [reflexivity|].
  cbn [forallb]. intros H. apply andb_true_iff in H as [Hc Hw].
  unfold escapeRegExp. cbn [flat_map].
  rewrite (special_not_letter c Hc). cbn [app]. f_equal. apply IH, Hw.
Qed.

(** X11: The words that [highlightText] marks. They are words of the text,
    each once: a word of the text is chosen exactly when it qualifies,
    in lower case, for some word of the lower-cased query that has at
    least three code units. They are ordered by decreasing length.
    Each consists of letters only, so that [escapeRegExp] leaves it
    unchanged and the pattern built from it matches the word itself. *)
Theorem sortedWords_chosen (text query : jsstring) :
  let chosen := sortedWords toLowerCase text query in
  let textWords := matchAll danishWordPattern text in
  let queryWords := matchAll danishWordPattern (toLowerCase query) in
  NoDup chosen ∧
  StronglySorted (λ a b, length b ≤ length a) chosen ∧
  (∀ word, word ∈ chosen ↔
           word ∈ textWords ∧
           ∃ q, q ∈ queryWords ∧ 3 ≤ length q ∧
                qualifies q (toLowerCase word) = true) ∧
  Forall (λ word, word ≠ [] ∧ escapeRegExp word = word) chosen.
Proof.
  cbv zeta. unfold sortedWords, wordsToHighlight.
  set (textWords := matchAll danishWordPattern text).
  set (queryWords := matchAll danishWordPattern (toLowerCase query)).
  destruct (wordsToHighlight_fold textWords queryWords []) as (H1 & H2).
  cbv zeta in H1, H2.
  set (chosen := fold_left (addMatching toLowerCase textWords) queryWords [])
    in *.
  assert (Hiff : ∀ word, word ∈ sortByLength chosen ↔
                   word ∈ textWords ∧
                   ∃ q, q ∈ queryWords ∧ 3 ≤ length q ∧
                        qualifies q (toLowerCase word) = true).
  { intros word. rewrite (sortByLength_Permutation chosen), H2.
    split; [|auto]. intros [H|H]; [inversion H|exact H]. }
  split; [|split; [|split; [exact Hiff|]]].
  - rewrite (sortByLength_Permutation chosen). apply H1, NoDup_nil_2.
  - apply sortByLength_sorted.
  - apply Forall_forall. intros word Hw. apply Hiff in Hw as [Hw _].
    pose proof (matchRuns_class danishWordPattern text [] eq_refl) as Hc.
    rewrite Forall_forall in Hc. destruct (Hc word Hw) as [Hne Hall].
    split; [exact Hne|]. apply escapeRegExp_letters, Hall.
Qed.

End HighlightFacts.

(** ** The files of a manual *)
Section FilesFacts.
Import Files.
Local Open Scope string_scope.

Lemma series_exclusive manualId :
  Worker.startsWith manualId "HRN113-" = true →
  Worker.startsWith manualId "HRN737-" = false.
Proof.
  intros H. apply name_startsWith_spec in H as [r ->]. reflexivity.
Qed.

Lemma indexedPaths_elem pages f :
  f ∈ indexedPaths pages ↔
  ∃ p, Some p ∈ pages ∧ p ≠ "" ∧ f = "/" +:+ p.
Proof.
  unfold indexedPaths. rewrite set_of_array_elem, list_elem_of_omap. split.
  - intros (x & Hx & Hf). destruct x as [[|c p]|]; try discriminate.
    injection Hf as <-. exists (String c p).
    split; [exact Hx|]. split; [discriminate|reflexivity].
  - intros (p & Hp & Hne & ->). exists (Some p). split; [exact Hp|].
    destruct p; [contradiction|reflexivity].
Qed.

Lemma indexedPaths_distinct (ps : list string) :
  NoDup ps → Forall (λ p, p ≠ "") ps →
  indexedPaths (map Some ps) = map (λ p, "/" +:+ p) ps.
Proof.
  intros Hnd Hne. unfold indexedPaths.
  assert (E : omap (λ imagePath : option string,
                      match imagePath with
                      | Some (String c p) => Some ("/" +:+ String c p)
                      | _ => None
                      end) (map Some ps) = map (λ p, "/" +:+ p) ps).
  { clear Hnd. induction Hne as [|p ps Hp _ IH]; [reflexivity|].
    cbn [map omap list_omap]. destruct p as [|c p]; [contradiction|].
    f_equal. exact IH. }
  rewrite E. apply set_of_array_Array_from.
  apply NoDup_fmap_2; [|exact Hnd]. intros x y H. injection H. auto.
Qed.

(** X28: What [getManualFiles] returns. With [given] the paths that the
    search index gives - "/" followed by the [imagePath] of a page of
    the index whose [imagePath] is not empty - the result, when there
    is at least one such path, consists of exactly these paths, each
    once, and nothing is probed; when the pages of the index have
    non-empty image paths that differ from one another, it is these
    paths with their leading "/" in the order of the index. When the
    index gives no path (or cannot be had), the result is what is found
    among at most 50 candidates: for a manual of the HRN113 series
    these are the pages numbered 01 and 02 only (of the chapters 1 to 9
    and of the appendices, as listed), for one of the HRN737 series the
    pages 01 to 50, and for any other manual there is no candidate and
    the result is empty. *)
Theorem getManualFiles_result (index : option (list (option string)))
  (found : string → bool) (manualId : string) :
  let files := getManualFiles index found manualId in
  let given := λ f, ∃ pages p, index = Some pages ∧ Some p ∈ pages ∧
                               p ≠ "" ∧ f = "/" +:+ p in
  ((∃ f, given f) → NoDup files ∧ ∀ f, f ∈ files ↔ given f) ∧
  (∀ ps, index = Some (map Some ps) → ps ≠ [] → NoDup ps →
         Forall (λ p, p ≠ "") ps →
         files = map (λ p, "/" +:+ p) ps) ∧
  ((¬ ∃ f, given f) → files = List.filter found (testPages manualId)) ∧
  (length (testPages manualId) ≤ 50)%nat ∧
  (Worker.startsWith manualId "HRN113-" = true →
   testPages manualId =
     map (λ name, "/pages/" +:+ manualId +:+ "/HRN113_" +:+ name +:+ ".png")
         probed113) ∧
  (Worker.startsWith manualId "HRN737-" = true →
   testPages manualId =
     map (λ i, "/pages/" +:+ manualId +:+ "/" +:+ manualId +:+ "-" +:+
               padStart 2 "0" (toString i) +:+ ".png")
         (seq 1 50)) ∧
  (Worker.startsWith manualId "HRN113-" = false →
   Worker.startsWith manualId "HRN737-" = false →
   (¬ ∃ f, given f) → files = []).
Proof.
  cbv zeta. unfold getManualFiles.
  set (paths := match index with
                | Some pages => indexedPaths pages
                | None => []
                end).
  assert (Hnd : NoDup paths).
  { unfold paths. destruct index as [pages|]; [|apply NoDup_nil_2].
    apply set_of_array_NoDup. }
  assert (Hgiven : ∀ f, f ∈ paths ↔
                        ∃ pages p, index = Some pages ∧ Some p ∈ pages ∧
                                   p ≠ "" ∧ f = "/" +:+ p).
  { intros f. unfold paths. destruct index as [pages|].
    - rewrite indexedPaths_elem. split.
      + intros (p & H). exists pages, p. split; [reflexivity|exact H].
      + intros (pages' & p & [= <-] & H). exists p. exact H.
    - split; [intros H; inversion H|].
      intros (pages & p & H & _). discriminate. }
  split.
  { intros [f Hf]. apply Hgiven in Hf.
    destruct paths as [|x l] eqn:E; [inversion Hf|].
    split; [exact Hnd|exact Hgiven]. }
  split.
  { intros ps Hi Hne Hd Hp. unfold paths. rewrite Hi.
    rewrite (indexedPaths_distinct ps Hd Hp).
    destruct ps; [contradiction|reflexivity]. }
  split.
  { intros Hnone. destruct paths as [|x l] eqn:E; [reflexivity|].
    exfalso. apply Hnone. exists x. apply Hgiven, list_elem_of_here. }
  split.
  { unfold testPages. rewrite length_firstn. lia. }
  split.
  { intros H. unfold testPages, possiblePages.
    rewrite H, (series_exclusive _ H), app_nil_r. reflexivity. }
  split.
  { intros H. unfold testPages, possiblePages. rewrite H.
    destruct (Worker.startsWith manualId "HRN113-") eqn:E.
    - apply series_exclusive in E. congruence.
    - reflexivity. }
  intros H1 H2 Hnone. unfold testPages, possiblePages. rewrite H1, H2.
  destruct paths as [|x l] eqn:E; [reflexivity|].
  exfalso. apply Hnone. exists x. apply Hgiven, list_elem_of_here.
Qed.

End FilesFacts.
